(** * aidmslog: the log manager, its file backend and its asynchronous pipeline

    A shallow embedding of the Go package [logger] (log_manager.go,
    backend_file.go, interface.go, config.go, sql_backend.go) and the
    verification of the properties its specification states.

    Layout of the development:
    - [strings], [utf8], [fmt], [bufio]  the functions of Go's library
                   that the backend calls, on byte strings;
    - [time]       [time.Time], its comparisons, and the RFC 3339 layout;
    - [Logger]     the package itself: data model, file and SQL backends,
                   the manager, and the asynchronous pipeline as a
                   transition system over goroutine steps;
    - the theorems, one group per property of the specification. *)

From Stdlib Require Import String Ascii List NArith ZArith Lia Bool Arith Permutation.
Import ListNotations.
Local Open Scope string_scope.
Local Open Scope nat_scope.

(* ================================================================== *)
(** * The Go library the package calls, on byte strings *)
(* ================================================================== *)

(** ** [strings] *)

Module strings.

(** A Go [string] is a sequence of bytes; [ascii] is one byte. *)
Definition byte_val (c : ascii) : nat := nat_of_ascii c.

Definition LF : ascii := "010"%char.
Definition CR : ascii := "013"%char.
Definition SP : ascii := " "%char.

(** The string of one line feed *)
Definition nl : string := String LF EmptyString.

(** [s[n:]] and [s[:n]]. *)
Fixpoint drop (n : nat) (s : string) : string :=
  match n, s with
  | O, _ => s
  | S n', String _ s' => drop n' s'
  | S _, EmptyString => EmptyString
  end.

Fixpoint take (n : nat) (s : string) : string :=
  match n, s with
  | O, _ => EmptyString
  | S n', String c s' => String c (take n' s')
  | S _, EmptyString => EmptyString
  end.

(** [s[i:j]] *)
Definition slice (i j : nat) (s : string) : string := take (j - i) (drop i s).

Fixpoint srev_onto (s acc : string) : string :=
  match s with
  | EmptyString => acc
  | String c s' => srev_onto s' (String c acc)
  end.

Definition srev (s : string) : string := srev_onto s EmptyString.

Fixpoint spaces (n : nat) : string :=
  match n with
  | O => EmptyString
  | S n' => String SP (spaces n')
  end.

(** [strings.HasPrefix] *)
Fixpoint HasPrefix (s prefix : string) {struct prefix} : bool :=
  match prefix with
  | EmptyString => true
  | String p prefix' =>
      match s with
      | EmptyString => false
      | String c s' => Ascii.eqb c p && HasPrefix s' prefix'
      end
  end.

(** [strings.Index]: the byte offset of the first occurrence of [substr];
    [None] stands for Go's [-1]. *)
Fixpoint Index (s substr : string) : option nat :=
  if HasPrefix s substr then Some 0
  else match s with
       | EmptyString => None
       | String _ s' => option_map S (Index s' substr)
       end.

(** A string without the byte [c]: [strings.IndexByte(s, c) < 0]. *)
Definition lacks (c : ascii) (s : string) : Prop := Index s (String c "") = None.

(** [strings.Contains] *)
Definition Contains (s substr : string) : bool :=
  match Index s substr with Some _ => true | None => false end.

(** [strings.SplitN(s, sep, 2)]: at most two pieces, cut at the first [sep]. *)
Definition SplitN2 (s sep : string) : list string :=
  match Index s sep with
  | None => [s]
  | Some m => [take m s; drop (m + String.length sep) s]
  end.

(** ** White space, as [unicode.IsSpace] sees UTF-8 encoded text

    [strings.TrimSpace] removes leading and trailing runes [r] with
    [unicode.IsSpace(r)]: the six ASCII bytes of the [asciiSpace] table
    and U+0085, U+00A0, U+1680, U+2000..U+200A, U+2028, U+2029, U+202F,
    U+205F, U+3000.  Each of these has one valid UTF-8 encoding, and a
    byte sequence that is not a valid encoding decodes to U+FFFD, which
    is no space; so a rune at the front (at the back) of a string is a
    space exactly when the string starts (ends) with one of the byte
    sequences below. *)
Definition asciiSpace (c : ascii) : bool :=
  let n := byte_val c in
  (n =? 9) || (n =? 10) || (n =? 11) || (n =? 12) || (n =? 13) || (n =? 32).

(** lead byte [a], then [b]: U+0085 and U+00A0 *)
Definition space2 (a b : ascii) : bool :=
  (byte_val a =? 194) && ((byte_val b =? 133) || (byte_val b =? 160)).

(** lead byte [a], then [b], [c]: the three-byte spaces *)
Definition space3 (a b c : ascii) : bool :=
  let x := byte_val a in let y := byte_val b in let z := byte_val c in
  ((x =? 225) && (y =? 154) && (z =? 128))
  || ((x =? 226) && (y =? 128) &&
      (((128 <=? z) && (z <=? 138)) || (z =? 168) || (z =? 169) || (z =? 175)))
  || ((x =? 226) && (y =? 129) && (z =? 159))
  || ((x =? 227) && (y =? 128) && (z =? 128)).

(** The scan from the front: drop bytes while they start with a space,
    given what two and three bytes (in the order met) make one. *)
Fixpoint trimFront (two : ascii -> ascii -> bool)
                   (three : ascii -> ascii -> ascii -> bool) (s : string) : string :=
  match s with
  | EmptyString => EmptyString
  | String a s1 =>
      if asciiSpace a then trimFront two three s1
      else match s1 with
           | EmptyString => s
           | String b s2 =>
               if two a b then trimFront two three s2
               else match s2 with
                    | EmptyString => s
                    | String c s3 =>
                        if three a b c then trimFront two three s3 else s
                    end
           end
  end.

(** [strings.TrimLeftFunc(s, unicode.IsSpace)] *)
Definition TrimLeft (s : string) : string := trimFront space2 space3 s.

(** The same scan over the reversed string: the lead byte comes last. *)
Definition TrimLeftRev (s : string) : string :=
  trimFront (fun a b => space2 b a) (fun a b c => space3 c b a) s.

(** [strings.TrimRightFunc(s, unicode.IsSpace)] *)
Definition TrimRight (s : string) : string := srev (TrimLeftRev (srev s)).

(** [strings.TrimSpace] *)
Definition TrimSpace (s : string) : string := TrimRight (TrimLeft s).

(** [strings.HasSuffix] *)
Definition HasSuffix (s suffix : string) : bool := HasPrefix (srev s) (srev suffix).

(** Whether the scan of [trimFront] drops something from the front of [s]. *)
Definition lead (two : ascii -> ascii -> bool)
                (three : ascii -> ascii -> ascii -> bool) (s : string) : bool :=
  match s with
  | EmptyString => false
  | String a s1 =>
      asciiSpace a
      || match s1 with
         | EmptyString => false
         | String b s2 =>
             two a b
             || match s2 with
                | EmptyString => false
                | String c _ => three a b c
                end
         end
  end.

(** A byte below [utf8.RuneSelf]. *)
Definition low (c : ascii) : bool := byte_val c <? 128.

(** [lead] for the scan from the left and for the scan from the right. *)
Definition leadL : string -> bool := lead space2 space3.
Definition leadR : string -> bool :=
  lead (fun a b => space2 b a) (fun a b c => space3 c b a).

End strings.

(** ** [unicode/utf8] *)
Module utf8.
Definition byte_val := strings.byte_val.

(** [utf8.RuneCountInString].  The decoder's table [first] and its [acceptRanges]: for a lead byte,
    the length of the sequence and the range allowed for the second
    byte; [None] for a byte that cannot start a sequence. *)
Definition locb := 128.
Definition hicb := 191.

Definition first (c : ascii) : option (nat * nat * nat) :=
  let n := byte_val c in
  if n <? 194 then None
  else if n <? 224 then Some (2, locb, hicb)
  else if n =? 224 then Some (3, 160, hicb)
  else if n <? 237 then Some (3, locb, hicb)
  else if n =? 237 then Some (3, locb, 159)
  else if n <? 240 then Some (3, locb, hicb)
  else if n =? 240 then Some (4, 144, hicb)
  else if n <? 244 then Some (4, locb, hicb)
  else if n =? 244 then Some (4, locb, 143)
  else None.

Definition in_range (lo hi : nat) (c : ascii) : bool :=
  (lo <=? byte_val c) && (byte_val c <=? hi).

Fixpoint RuneCountInString (s : string) : nat :=
  match s with
  | EmptyString => 0
  | String a s1 =>
      if byte_val a <? 128 then S (RuneCountInString s1)
      else
        match first a with
        | None => S (RuneCountInString s1)
        | Some (size, lo, hi) =>
            match s1 with
            | EmptyString => 1
            | String b s2 =>
                if negb (in_range lo hi b) then S (RuneCountInString s1)
                else if size =? 2 then S (RuneCountInString s2)
                else
                  match s2 with
                  | EmptyString => S (RuneCountInString s1)
                  | String c s3 =>
                      if negb (in_range locb hicb c) then S (RuneCountInString s1)
                      else if size =? 3 then S (RuneCountInString s3)
                      else
                        match s3 with
                        | EmptyString => S (RuneCountInString s1)
                        | String d s4 =>
                            if negb (in_range locb hicb d)
                            then S (RuneCountInString s1)
                            else S (RuneCountInString s4)
                        end
                  end
            end
        end
  end.

End utf8.

(** ** [fmt]: the width of a [%s] verb *)
Module fmt.
Import strings.

(** [fmt]'s verb [%-5s] ([padString] with the minus flag): the text, then
    as many spaces as it takes for the field to hold [width] runes. *)
Definition padRight (width : nat) (s : string) : string :=
  s ++ spaces (width - utf8.RuneCountInString s).

(** [%5s] (no minus flag) puts the same padding in front of the text. *)
Definition padLeft (width : nat) (s : string) : string :=
  spaces (width - utf8.RuneCountInString s) ++ s.

End fmt.

(** ** [bufio.Scanner] with the default split function [bufio.ScanLines] *)
Module bufio.
Import strings.

(**
[lines] cuts the data at every line feed; text after the last line
    feed is a final token, and there is no empty token at the end of
    the data. *)
Fixpoint lines (s : string) : list string :=
  match s with
  | EmptyString => []
  | String c s' =>
      if Ascii.eqb c LF then EmptyString :: lines s'
      else match lines s' with
           | [] => [String c EmptyString]
           | l :: ls => String c l :: ls
           end
  end.

(** [dropCR]: a token loses one trailing carriage return. *)
Fixpoint dropCR (s : string) : string :=
  match s with
  | EmptyString => EmptyString
  | String c EmptyString => if Ascii.eqb c CR then EmptyString else s
  | String c s' => String c (dropCR s')
  end.

Fixpoint lenN (s : string) : N :=
  match s with
  | EmptyString => 0%N
  | String _ s' => N.succ (lenN s')
  end.

(** [bufio.MaxScanTokenSize = 64 * 1024]: the scanner's buffer never grows
    beyond it, and a line has to fit together with its line feed.  A
    line of that many bytes or more stops the scan with [ErrTooLong]. *)
Definition MaxScanTokenSize : N := 65536.
Definition ErrTooLong : string := "bufio.Scanner: token too long".

Definition fits (tok : string) : bool := (lenN tok <? MaxScanTokenSize)%N.

(** The tokens [scanner.Scan()] delivers, in order, and what
    [scanner.Err()] reports once [Scan] has returned false. *)
Fixpoint scanTokens (toks : list string) : list string * option string :=
  match toks with
  | [] => ([], None)
  | t :: ts =>
      if fits t
      then let (l, e) := scanTokens ts in (dropCR t :: l, e)
      else ([], Some ErrTooLong)
  end.

Definition Scan (data : string) : list string * option string :=
  scanTokens (lines data).

(** Every line of the data is within the scanner's limit. *)
Definition scannable (data : string) : bool := forallb fits (lines data).

End bufio.

(* ================================================================== *)
(** * Go time: instants, their order, and the RFC 3339 layout *)
(* ================================================================== *)

Module time.
Local Open Scope Z_scope.

(** A [time.Time] without monotonic clock reading: the wall clock instant
    (seconds since the Unix epoch and nanoseconds within the second) and
    the offset of its location, in seconds east of UTC.  The package
    compares only timestamps that [time.Parse] produced, and those carry
    no monotonic reading. *)
Record Time : Type := mkTime {
  unixSec : Z;
  nsec : Z;
  zoneOffset : Z
}.

(** [t.Before(u)] and [t.After(u)] compare instants; locations play no part. *)
Definition Before (t u : Time) : bool :=
  (unixSec t <? unixSec u) || ((unixSec t =? unixSec u) && (nsec t <? nsec u)).

Definition After (t u : Time) : bool :=
  (unixSec t >? unixSec u) || ((unixSec t =? unixSec u) && (nsec t >? nsec u)).

(** The order of instants: [le t u] when [t] is not after [u]. *)
Definition lt (t u : Time) : Prop :=
  unixSec t < unixSec u \/ (unixSec t = unixSec u /\ nsec t < nsec u).

Definition le (t u : Time) : Prop :=
  unixSec t < unixSec u \/ (unixSec t = unixSec u /\ nsec t <= nsec u).

(** [t.In(loc)]: the same instant seen from another location. *)
Definition inZone (offset : Z) (t : Time) : Time :=
  mkTime (unixSec t) (nsec t) offset.

(** [t.Truncate(time.Second)]: the same instant without its fraction. *)
Definition truncSecond (t : Time) : Time :=
  mkTime (unixSec t) 0 (zoneOffset t).

(** The layout [time.RFC3339] as the package uses it:
    [t.Format(time.RFC3339)] and [time.Parse(time.RFC3339, s)].  The
    backend is written against the [time] package; its theorems hold for
    every pair of functions, and say which facts about the two they use. *)
Class RFC3339 : Type := {
  Format : Time -> string;
  Parse : string -> option Time
}.

(** ** The layout itself, for timestamps one can compute with

    [formatRFC3339] follows [Time.AppendFormat] on the layout
    ["2006-01-02T15:04:05Z07:00"]; [parseRFC3339] follows the function of
    that name in the [time] package, the path [time.Parse] takes for
    text in the strict RFC 3339 form. *)
Module Impl.

(** Days since 1970-01-01 to year, month, day of the proleptic
    Gregorian calendar, and back. *)
Definition civil (days : Z) : Z * Z * Z :=
  let z := days + 719468 in
  let era := z / 146097 in
  let doe := z - era * 146097 in
  let yoe := (doe - doe / 1460 + doe / 36524 - doe / 146096) / 365 in
  let doy := doe - (365 * yoe + yoe / 4 - yoe / 100) in
  let mp := (5 * doy + 2) / 153 in
  let d := doy - (153 * mp + 2) / 5 + 1 in
  let m := if mp <? 10 then mp + 3 else mp - 9 in
  let y := yoe + era * 400 in
  (if m <=? 2 then y + 1 else y, m, d).

Definition daysFromCivil (y m d : Z) : Z :=
  let y' := if m <=? 2 then y - 1 else y in
  let era := y' / 400 in
  let yoe := y' - era * 400 in
  let doy := (153 * (if m >? 2 then m - 3 else m + 9) + 2) / 5 + d - 1 in
  let doe := yoe * 365 + yoe / 4 - yoe / 100 + doy in
  era * 146097 + doe - 719468.

Definition isLeap (y : Z) : bool :=
  (y mod 4 =? 0) && (negb (y mod 100 =? 0) || (y mod 400 =? 0)).

Definition daysIn (m y : Z) : Z :=
  if m =? 2 then (if isLeap y then 29 else 28)
  else if (m =? 4) || (m =? 6) || (m =? 9) || (m =? 11) then 30 else 31.

Definition digit (n : Z) : ascii := ascii_of_nat (48 + Z.to_nat n).

Fixpoint digits (fuel : nat) (n : Z) (acc : string) : string :=
  match fuel with
  | O => acc
  | S fuel' =>
      if n <? 10 then String (digit n) acc
      else digits fuel' (n / 10) (String (digit (n mod 10)) acc)
  end.

Fixpoint zeros (n : nat) : string :=
  match n with O => EmptyString | S n' => String "0" (zeros n') end.

(** [appendInt(b, x, width)]: decimal, zero-padded to [width]. *)
Definition appendInt (x : Z) (width : nat) : string :=
  let u := Z.abs x in
  let ds := digits 20 u EmptyString in
  ((if (x <? 0)%Z then "-" else "") ++ zeros (width - String.length ds)%nat ++ ds)%string.

Definition formatZone (offset : Z) : string :=
  if offset =? 0 then "Z"
  else
    let zone := Z.quot offset 60 in
    let sign := if zone <? 0 then "-" else "+" in
    let zone' := Z.abs zone in
    (sign ++ appendInt (zone' / 60) 2 ++ ":" ++ appendInt (zone' mod 60) 2)%string.

Definition formatRFC3339 (t : Time) : string :=
  let abs := unixSec t + zoneOffset t in
  let '(y, m, d) := civil (abs / 86400) in
  let secs := abs mod 86400 in
  (appendInt y 4 ++ "-" ++ appendInt m 2 ++ "-" ++ appendInt d 2 ++ "T"
   ++ appendInt (secs / 3600) 2 ++ ":" ++ appendInt (secs mod 3600 / 60) 2
   ++ ":" ++ appendInt (secs mod 60) 2 ++ formatZone (zoneOffset t))%string.

Definition isDigit (c : ascii) : bool :=
  let n := Z.of_nat (nat_of_ascii c) in (48 <=? n) && (n <=? 57).

(** [parseUint]: all bytes digits, and the value within [lo..hi]. *)
Fixpoint atoi (s : string) (acc : Z) : option Z :=
  match s with
  | EmptyString => Some acc
  | String c s' =>
      if isDigit c then atoi s' (acc * 10 + (Z.of_nat (nat_of_ascii c) - 48))
      else None
  end.

Definition parseUint (s : string) (lo hi : Z) : option Z :=
  match atoi s 0 with
  | Some x => if (lo <=? x) && (x <=? hi) then Some x else None
  | None => None
  end.

Definition byteAt (i : nat) (s : string) : option ascii := String.get i s.

Definition byteIs (c : ascii) (o : option ascii) : bool :=
  match o with Some c' => Ascii.eqb c c' | None => false end.

Fixpoint spanDigits (s : string) : string * string :=
  match s with
  | EmptyString => (EmptyString, EmptyString)
  | String c s' =>
      if isDigit c then let (a, b) := spanDigits s' in (String c a, b)
      else (EmptyString, s)
  end.

(** [parseNanoseconds]: nine digits of the fraction count, scaled. *)
Definition parseNanoseconds (frac : string) : Z :=
  let ds := strings.take 9 frac in
  match atoi ds 0 with
  | Some x => x * 10 ^ Z.of_nat (9 - String.length ds)%nat
  | None => 0
  end.

Definition parseZone (s : string) : option Z :=
  if String.eqb s "Z" then Some 0
  else if negb (String.length s =? 6)%nat then None
  else
    match parseUint (strings.slice 1 3 s) 0 23,
          parseUint (strings.slice 4 6 s) 0 59 with
    | Some hr, Some mm =>
        if (byteIs "-" (byteAt 0 s) || byteIs "+" (byteAt 0 s)) && byteIs ":" (byteAt 3 s)
        then let off := (hr * 60 + mm) * 60 in
             Some (if byteIs "-" (byteAt 0 s) then - off else off)
        else None
    | _, _ => None
    end.

Definition parseRFC3339 (s : string) : option Time :=
  if (String.length s <? 19)%nat then None
  else
    match parseUint (strings.slice 0 4 s) 0 9999,
          parseUint (strings.slice 5 7 s) 1 12 with
    | Some year, Some month =>
        match parseUint (strings.slice 8 10 s) 1 (daysIn month year),
              parseUint (strings.slice 11 13 s) 0 23,
              parseUint (strings.slice 14 16 s) 0 59,
              parseUint (strings.slice 17 19 s) 0 59 with
        | Some day, Some hour, Some min, Some sec =>
            if byteIs "-" (byteAt 4 s) && byteIs "-" (byteAt 7 s) && byteIs "T" (byteAt 10 s)
               && byteIs ":" (byteAt 13 s) && byteIs ":" (byteAt 16 s)
            then
              let rest := strings.drop 19 s in
              let '(ns, rest') :=
                match rest with
                | String dot (String c r) =>
                    if Ascii.eqb dot "." && isDigit c
                    then let (ds, r') := spanDigits (String c r) in
                         (parseNanoseconds ds, r')
                    else (0, rest)
                | _ => (0, rest)
                end in
              match parseZone rest' with
              | Some off =>
                  let utc := daysFromCivil year month day * 86400
                             + hour * 3600 + min * 60 + sec in
                  Some (mkTime (utc - off) ns off)
              | None => None
              end
            else None
        | _, _, _, _ => None
        end
    | _, _ => None
    end.

End Impl.

Definition rfc3339 : RFC3339 :=
  {| Format := Impl.formatRFC3339; Parse := Impl.parseRFC3339 |}.

End time.



(* ================================================================== *)
(** * Package logger *)
(* ================================================================== *)

Module Logger.
Import time.

(** Go's [error], by its text; [None] is [nil]. *)
Definition error := string.

(** ** interface.go *)

Definition LogLevel := string.
Definition LevelDebug : LogLevel := "DEBUG".
Definition LevelInfo : LogLevel := "INFO".
Definition LevelWarn : LogLevel := "WARN".
Definition LevelError : LogLevel := "ERROR".

(** [Metadata] is a [map[string]interface{}]; the package never fills it,
    [[]] is the nil map. *)
Record LogEntry : Type := mkEntry {
  Level : LogLevel;
  Message : string;
  Timestamp : Time;
  Metadata : list (string * string)
}.

Record LogFilter : Type := mkFilter {
  StartTime : option Time;
  EndTime : option Time;
  Contains : string
}.

(** [LogFilter{}] *)
Definition noFilter : LogFilter := mkFilter None None "".

(** A [LogHandler] is known by its identity; a call of its [Handle] is an
    [EvHandle] event of the run. *)
Definition LogHandler := nat.

(** ** config.go *)

Definition BackendType := string.
Definition BackendFile : BackendType := "file".
Definition BackendSQL : BackendType := "sql".

Record FileConfig : Type := mkFileConfig {
  FilePath : string;
  MaxFileSizeMB : Z
}.

Record SQLConfig : Type := mkSQLConfig {
  DSN : string;
  TableName : string;
  Driver : string
}.

(** [BackendConfig interface{}]: the dynamic type of the value. *)
Inductive AnyConfig : Type :=
| FileCfg (c : FileConfig)
| SQLCfg (c : SQLConfig)
| OtherCfg.

Record Config : Type := mkConfig {
  Backend : BackendType;
  BackendConfig : AnyConfig;
  Async : bool;
  DefaultLevel : LogLevel
}.

(** [DefaultFileConfig()] *)
Definition DefaultFileConfig : FileConfig := mkFileConfig "./logs/app.log" 10.

(** [DefaultSQLConfig(dsn)] *)
Definition DefaultSQLConfig (dsn : string) : SQLConfig := mkSQLConfig dsn "logs" "mysql".

(** ** Calls that may never return

    A method runs on the state of its receiver.  It returns a value and
    leaves a state, or it blocks for ever on a mutex that nothing will
    release, leaving the state it had reached. *)
Inductive Outcome (S A : Type) : Type :=
| Ret (a : A) (s : S)
| Hang (s : S).
Arguments Ret {S A} a s.
Arguments Hang {S A} s.

Definition M (S A : Type) : Type := S -> Outcome S A.

Definition ret {S A : Type} (a : A) : M S A := fun s => Ret a s.

Definition bind {S A B : Type} (m : M S A) (k : A -> M S B) : M S B :=
  fun s => match m s with
           | Ret a s' => k a s'
           | Hang s' => Hang s'
           end.

Notation "x <- m ;; k" := (bind m (fun x => k))
  (at level 61, m at next level, right associativity).
Notation "m ;; k" := (bind m (fun _ => k))
  (at level 61, right associativity).

(** ** The operating system: the one file that [FilePath] names

    [content] is [None] while no file exists there.  A [failing] device
    refuses every call with an I/O error. *)
Record Disk : Type := mkDisk {
  content : option string;
  failing : bool
}.

(** An [os.File] handle *)
Record Handle : Type := mkHandle { closed : bool }.

(** The text of an [os.PathError] *)
Definition PathError (op path msg : string) : error :=
  (op ++ " " ++ path ++ ": " ++ msg)%string.

Definition EIO : string := "input/output error".
Definition ENOENT : string := "no such file or directory".
Definition ErrClosed : string := "file already closed".

(** [os.MkdirAll(dir, 0755)].  The directory and the file are on the one
    device of the model; [Init] hands it the path of the file. *)
Definition os_MkdirAll (path : string) (d : Disk) : option error :=
  if failing d then Some (PathError "mkdir" path EIO) else None.

(** [os.OpenFile(path, O_APPEND|O_CREATE|O_WRONLY, 0644)] *)
Definition os_OpenAppend (path : string) (d : Disk) : (Handle * Disk) + error :=
  if failing d then inr (PathError "open" path EIO)
  else inl (mkHandle false,
            mkDisk (Some (match content d with Some c => c | None => "" end))
                   (failing d)).

(** [os.OpenFile(path, O_TRUNC|O_WRONLY, 0644)] *)
Definition os_OpenTrunc (path : string) (d : Disk) : (Handle * Disk) + error :=
  if failing d then inr (PathError "open" path EIO)
  else match content d with
       | None => inr (PathError "open" path ENOENT)
       | Some _ => inl (mkHandle false, mkDisk (Some "") (failing d))
       end.

(** [os.Open(path)] followed by reading the file to its end *)
Definition os_Open (path : string) (d : Disk) : string + error :=
  if failing d then inr (PathError "open" path EIO)
  else match content d with
       | None => inr (PathError "open" path ENOENT)
       | Some c => inl c
       end.

(** [f.WriteString(s)].  The handle of [Init] is in append mode; the one
    [ClearLogs] opens is not, but it starts on the empty file and is the
    only writer, so its writes land at the end as well. *)
Definition os_WriteString (path : string) (h : Handle) (s : string) (d : Disk)
  : Disk * option error :=
  if closed h then (d, Some (PathError "write" path ErrClosed))
  else if failing d then (d, Some (PathError "write" path EIO))
  else (mkDisk (Some ((match content d with Some c => c | None => "" end) ++ s)%string)
               (failing d), None).

(** [f.Close()] *)
Definition os_Close (path : string) (h : Handle) : option error :=
  if closed h then Some (PathError "close" path ErrClosed) else None.

Definition get {S : Type} : M S S := fun s => Ret s s.

(** ** backend_file.go *)

Module FileBackend.

(** [mu] is true while the [sync.Mutex] is held.  [disk] is the file
    behind [config.FilePath]; it belongs to the operating system and is
    kept with the backend that names it. *)
Record t : Type := mk {
  mu : bool;
  config : FileConfig;
  file : option Handle;
  disk : Disk
}.

(** [&FileBackend{}] *)
Definition zero (d : Disk) : t := mk false (mkFileConfig "" 0) None d.

Definition set_mu (b : bool) (fb : t) : t := mk b (config fb) (file fb) (disk fb).
Definition set_config (c : FileConfig) (fb : t) : t := mk (mu fb) c (file fb) (disk fb).
Definition set_file (f : option Handle) (fb : t) : t := mk (mu fb) (config fb) f (disk fb).
Definition set_disk (d : Disk) (fb : t) : t := mk (mu fb) (config fb) (file fb) d.

(** [fb.mu.Lock()]: a [sync.Mutex] is not reentrant; locking a held mutex
    waits for an [Unlock] by someone else. *)
Definition Lock : M t unit :=
  fun fb => if mu fb then Hang fb else Ret tt (set_mu true fb).

Definition Unlock : M t unit := fun fb => Ret tt (set_mu false fb).

(** [fb.mu.Lock(); defer fb.mu.Unlock(); body] *)
Definition locked {A : Type} (body : M t A) : M t A :=
  Lock ;; r <- body ;; Unlock ;; ret r.

Definition path (fb : t) : string := FilePath (config fb).

Section WithLayout.
Context {layout : RFC3339}.

(** [Init] takes no lock and calls nothing that could wait. *)
Definition Init (cfg : AnyConfig) (fb : t) : option error * t :=
  match cfg with
  | FileCfg fileConfig =>
      let fb := set_config fileConfig fb in
      match os_MkdirAll (FilePath fileConfig) (disk fb) with
      | Some err => (Some ("failed to create log directory: " ++ err)%string, fb)
      | None =>
          match os_OpenAppend (FilePath fileConfig) (disk fb) with
          | inr err => (Some ("failed to open log file: " ++ err)%string, fb)
          | inl (f, d) => (None, set_file (Some f) (set_disk d fb))
          end
      end
  | _ => (Some "invalid config type for file backend", fb)
  end.

(** [fmt.Sprintf("[%s] %-5s: %s\n", timestamp, entry.Level, entry.Message)] *)
Definition formatLine (entry : LogEntry) : string :=
  let timestamp := Format (Timestamp entry) in
  ("[" ++ timestamp ++ "] " ++ fmt.padRight 5 (Level entry) ++ ": "
   ++ Message entry ++ strings.nl)%string.

Definition Write (entry : LogEntry) : M t (option error) :=
  locked (fun fb =>
    match file fb with
    | None => Ret (Some "file backend not initialized") fb
    | Some f =>
        let line := formatLine entry in
        match os_WriteString (path fb) f line (disk fb) with
        | (d, Some err) => Ret (Some ("failed to write log: " ++ err)%string) (set_disk d fb)
        | (d, None) => Ret None (set_disk d fb)
        end
    end).

Definition applyFilter (entry : LogEntry) (filter : LogFilter) : bool :=
  if negb (Contains filter =? "")%string
     && negb (strings.Contains (Message entry) (Contains filter))
  then false
  else if match StartTime filter with
          | Some start => Before (Timestamp entry) start
          | None => false
          end
  then false
  else if match EndTime filter with
          | Some stop => After (Timestamp entry) stop
          | None => false
          end
  then false
  else true.

(** The body of the scan loop down to the construction of [entry];
    [None] is a [continue]. *)
Definition parseLine (line : string) : option LogEntry :=
  if (String.length line =? 0)%nat then None
  else if negb (strings.HasPrefix line "[") then None
  else
    match strings.Index line "]" with
    | None => None
    | Some end_ =>
        let tsStr := strings.slice 1 end_ line in
        match Parse tsStr with
        | None => None
        | Some ts =>
            let rest := strings.TrimSpace (strings.drop (end_ + 1) line) in
            match strings.SplitN2 rest ":" with
            | [p0; p1] =>
                let levelStr := strings.TrimSpace p0 in
                let msg := strings.TrimSpace p1 in
                Some (mkEntry levelStr msg ts [])
            | _ => None
            end
        end
    end.

(** [for scanner.Scan() { ... }] over the lines the scanner delivers *)
Fixpoint scanLoop (toks : list string) (level : LogLevel) (filter : LogFilter)
                  (results : list LogEntry) : list LogEntry :=
  match toks with
  | [] => results
  | line :: toks' =>
      match parseLine line with
      | None => scanLoop toks' level filter results
      | Some entry =>
          if negb (level =? "")%string && negb (Level entry =? level)%string
          then scanLoop toks' level filter results
          else if negb (applyFilter entry filter)
          then scanLoop toks' level filter results
          else scanLoop toks' level filter (results ++ [entry])
      end
  end.

Definition Read (level : LogLevel) (filter : LogFilter)
  : M t (list LogEntry + error) :=
  locked (fun fb =>
    match file fb with
    | None => Ret (inr "file backend not initialized") fb
    | Some _ =>
        match os_Open (path fb) (disk fb) with
        | inr err => Ret (inr ("failed to open file for reading: " ++ err)%string) fb
        | inl data =>
            let (toks, scanErr) := bufio.Scan data in
            let results := scanLoop toks level filter [] in
            match scanErr with
            | Some err => Ret (inr err) fb
            | None => Ret (inl results) fb
            end
        end
    end).

(** [for _, e := range kept { if err := fb.Write(e); err != nil { return err } }] *)
Fixpoint rewrite (kept : list LogEntry) : M t (option error) :=
  match kept with
  | [] => ret None
  | e :: kept' =>
      err <- Write e ;;
      match err with
      | Some x => ret (Some x)
      | None => rewrite kept'
      end
  end.

(** [fb.file.Close()]: the handle is closed, the field still holds it *)
Definition closeHandle : M t unit :=
  fun fb => Ret tt (set_file (option_map (fun _ => mkHandle true) (file fb)) fb).

(** [f, err := os.OpenFile(..., O_TRUNC|O_WRONLY, 0644)] and, without
    error, [fb.file = f] *)
Definition reopenTruncated : M t (option error) :=
  fun fb =>
    match os_OpenTrunc (path fb) (disk fb) with
    | inr err => Ret (Some err) fb
    | inl (f, d) => Ret None (set_file (Some f) (set_disk d fb))
    end.

Definition ClearLogs (before : Time) : M t (option error) :=
  locked (
    fb <- get ;;
    match file fb with
    | None => ret (Some "file backend not initialized")
    | Some _ =>
        logs <- Read "" noFilter ;;
        match logs with
        | inr err => ret (Some ("clear logs failed: " ++ err)%string)
        | inl logs =>
            let kept := List.filter (fun e => After (Timestamp e) before) logs in
            closeHandle ;;
            err <- reopenTruncated ;;
            match err with
            | Some err => ret (Some ("failed to truncate log file: " ++ err)%string)
            | None => rewrite kept
            end
        end
    end).

Definition Close : M t (option error) :=
  locked (fun fb =>
    match file fb with
    | Some f => Ret (os_Close (path fb) f) (set_file None fb)
    | None => Ret None fb
    end).

End WithLayout.
End FileBackend.

(** ** sql_backend.go: a stub; every operation succeeds and does nothing *)

Module SQLBackend.

Record t : Type := mk { config : SQLConfig }.

(** [&SQLBackend{}] *)
Definition zero : t := mk (mkSQLConfig "" "" "").

Definition Init (cfg : AnyConfig) (sb : t) : option error * t :=
  match cfg with
  | SQLCfg sqlConfig => (None, mk sqlConfig)
  | _ => (Some "invalid config type for SQL backend", sb)
  end.

Definition Write (entry : LogEntry) : M t (option error) := ret None.

Definition Read (level : LogLevel) (filter : LogFilter)
  : M t (list LogEntry + error) := ret (inl []).

Definition ClearLogs (before : Time) : M t (option error) := ret None.

Definition Close : M t (option error) := ret None.

End SQLBackend.

(** ** The interface [LogBackend] and its two implementations *)

Inductive LogBackend : Type :=
| FileB (fb : FileBackend.t)
| SQLB (sb : SQLBackend.t).

Definition onFile {A : Type} (m : M FileBackend.t A) (fb : FileBackend.t)
  : Outcome LogBackend A :=
  match m fb with
  | Ret a fb' => Ret a (FileB fb')
  | Hang fb' => Hang (FileB fb')
  end.

Definition onSQL {A : Type} (m : M SQLBackend.t A) (sb : SQLBackend.t)
  : Outcome LogBackend A :=
  match m sb with
  | Ret a sb' => Ret a (SQLB sb')
  | Hang sb' => Hang (SQLB sb')
  end.

(** Method calls through the interface *)
Module Backend.
Section WithLayout.
Context {layout : RFC3339}.

Definition Init (cfg : AnyConfig) (b : LogBackend) : option error * LogBackend :=
  match b with
  | FileB fb => let (r, fb') := FileBackend.Init cfg fb in (r, FileB fb')
  | SQLB sb => let (r, sb') := SQLBackend.Init cfg sb in (r, SQLB sb')
  end.

Definition Write (entry : LogEntry) : M LogBackend (option error) :=
  fun b => match b with
           | FileB fb => onFile (FileBackend.Write entry) fb
           | SQLB sb => onSQL (SQLBackend.Write entry) sb
           end.

Definition Read (level : LogLevel) (filter : LogFilter)
  : M LogBackend (list LogEntry + error) :=
  fun b => match b with
           | FileB fb => onFile (FileBackend.Read level filter) fb
           | SQLB sb => onSQL (SQLBackend.Read level filter) sb
           end.

Definition ClearLogs (before : Time) : M LogBackend (option error) :=
  fun b => match b with
           | FileB fb => onFile (FileBackend.ClearLogs before) fb
           | SQLB sb => onSQL (SQLBackend.ClearLogs before) sb
           end.

Definition Close : M LogBackend (option error) :=
  fun b => match b with
           | FileB fb => onFile FileBackend.Close fb
           | SQLB sb => onSQL SQLBackend.Close sb
           end.

End WithLayout.
End Backend.

(** ** What a run shows to the outside *)

Definition Producer := nat.

Inductive Event : Type :=
| EvWrite (entry : LogEntry) (r : option error)
    (** [lm.backend.Write(entry)] was called and returned [r] *)
| EvPrint (text : string)
    (** [fmt.Printf] wrote [text] to standard output *)
| EvHandle (h : LogHandler) (entry : LogEntry)
    (** [h.Handle(entry)] was called *)
| EvReturn (p : Producer) (entry : LogEntry) (r : option error)
    (** the call of [WriteLog] that goroutine [p] made for [entry] returned [r] *)
| EvCloseCalled
    (** [Close] has closed [lm.done] *)
| EvCloseReturned (r : option error).

(** [for _, h := range handlers { _ = h.Handle(entry) }] *)
Definition notify (handlers : list LogHandler) (entry : LogEntry) : list Event :=
  map (fun h => EvHandle h entry) handlers.

(** ** log_manager.go *)

(** A buffered [chan LogEntry]: the queued values, oldest first. *)
Record Chan : Type := mkChan {
  buf : list LogEntry;
  cap : nat;
  chClosed : bool
}.

Definition make (n : nat) : Chan := mkChan [] n false.

Definition hasSpace (ch : Chan) : bool := (length (buf ch) <? cap ch)%nat.

Definition send (entry : LogEntry) (ch : Chan) : Chan :=
  mkChan (buf ch ++ [entry])%list (cap ch) (chClosed ch).

(** [queueCapacity]: [make(chan LogEntry, 1000)];
    [backpressureTimeout]: [time.After(100 * time.Millisecond)], in
    milliseconds. *)
Definition queueCapacity : nat := 1000.
Definition backpressureTimeout : nat := 100.
Definition QueueSaturated : error := "log channel is full, log may be dropped".

Module logManagerImpl.

(** [lm.mu] guards [handlers]; each critical section is one read or one
    append of the slice, which a step of the model does at once, so the
    mutex has no field here.  [wg] is the counter of the [sync.WaitGroup];
    [done] is [Some true] once the channel has been closed. *)
Record t : Type := mk {
  config : Config;
  backend : option LogBackend;
  handlers : list LogHandler;
  logChannel : option Chan;
  done : option bool;
  wg : nat;
  isAsync : bool
}.

Definition set_backend (b : option LogBackend) (lm : t) : t :=
  mk (config lm) b (handlers lm) (logChannel lm) (done lm) (wg lm) (isAsync lm).
Definition set_handlers (hs : list LogHandler) (lm : t) : t :=
  mk (config lm) (backend lm) hs (logChannel lm) (done lm) (wg lm) (isAsync lm).
Definition set_logChannel (ch : option Chan) (lm : t) : t :=
  mk (config lm) (backend lm) (handlers lm) ch (done lm) (wg lm) (isAsync lm).
Definition set_done (d : option bool) (lm : t) : t :=
  mk (config lm) (backend lm) (handlers lm) (logChannel lm) d (wg lm) (isAsync lm).
Definition set_wg (n : nat) (lm : t) : t :=
  mk (config lm) (backend lm) (handlers lm) (logChannel lm) (done lm) n (isAsync lm).

Definition onBackend {A : Type} (m : M LogBackend A) (lm : t) (b : LogBackend)
  : Outcome t A :=
  match m b with
  | Ret a b' => Ret a (set_backend (Some b') lm)
  | Hang b' => Hang (set_backend (Some b') lm)
  end.

Section WithLayout.
Context {layout : RFC3339}.

(** [lm.wg.Add(1)]; the goroutine it starts is the [worker] of a [State]. *)
Definition startAsyncWorker (lm : t) : t := set_wg (wg lm + 1) lm.

(** [d] is what the operating system holds at the configured path. *)
Definition NewLogManager (cfg : Config) (d : Disk) : t + error :=
  let lm := mk cfg None [] None None 0 (Async cfg) in
  match (if (Backend cfg =? BackendFile)%string
         then Some (FileB (FileBackend.zero d))
         else if (Backend cfg =? BackendSQL)%string
         then Some (SQLB SQLBackend.zero)
         else None) with
  | None => inr ("unsupported backend type: " ++ Backend cfg)%string
  | Some b =>
      match Backend.Init (BackendConfig cfg) b with
      | (Some err, _) => inr ("failed to initialize backend: " ++ err)%string
      | (None, b') =>
          let lm := set_backend (Some b') lm in
          if isAsync lm
          then inl (startAsyncWorker
                      (set_done (Some false)
                         (set_logChannel (Some (make queueCapacity)) lm)))
          else inl lm
      end
  end.

(** [WriteLog] runs to its end in synchronous mode; in asynchronous mode
    it reaches the [select] statement, which the scheduler resolves. *)
Inductive WriteLogResult : Type :=
| Returns (r : option error) (events : list Event) (lm : t)
| Selects (entry : LogEntry)
| Hangs (lm : t).

Definition WriteLog (level : LogLevel) (message : string) (now : Time) (lm : t)
  : WriteLogResult :=
  match backend lm with
  | None => Returns (Some "backend not initialized") [] lm
  | Some b =>
      let entry := mkEntry level message now [] in
      if isAsync lm then Selects entry
      else
        match onBackend (Backend.Write entry) lm b with
        | Hang lm' => Hangs lm'
        | Ret (Some err) lm' =>
            Returns (Some ("failed to write log: " ++ err)%string)
                    [EvWrite entry (Some err)] lm'
        | Ret None lm' =>
            let handlers := handlers lm' in
            Returns None (EvWrite entry None :: notify handlers entry) lm'
        end
  end.

Definition ReadLogs (level : LogLevel) (filter : LogFilter)
  : M t (list LogEntry + error) :=
  fun lm => match backend lm with
            | None => Ret (inr "backend not initialized") lm
            | Some b => onBackend (Backend.Read level filter) lm b
            end.

Definition ClearLogs (before : Time) : M t (option error) :=
  fun lm => match backend lm with
            | None => Ret (Some "backend not initialized") lm
            | Some b => onBackend (Backend.ClearLogs before) lm b
            end.

Definition RegisterLogHandler (handler : LogHandler) (lm : t) : t :=
  set_handlers (handlers lm ++ [handler])%list lm.

(** The end of [Close]: [if lm.backend == nil { return nil }; return lm.backend.Close()] *)
Definition closeBackend : M t (option error) :=
  fun lm => match backend lm with
            | None => Ret None lm
            | Some b => onBackend Backend.Close lm b
            end.

(** The worker's [lm.backend.Write(entry)].  The loop that runs before
    [done] is closed prints a failure; the loop that drains the channel
    assigns the result to [_]. *)
Inductive Mode : Type := Running | Draining.

Definition workerWrite (m : Mode) (entry : LogEntry) : M LogBackend (list Event) :=
  fun b =>
    match Backend.Write entry b with
    | Hang b' => Hang b'
    | Ret r b' =>
        Ret (EvWrite entry r ::
             match m, r with
             | Running, Some err =>
                 [EvPrint ("async log write error: " ++ err ++ strings.nl)%string]
             | _, _ => []
             end) b'
    end.

End WithLayout.
End logManagerImpl.

(** ** The goroutines of one manager

    A state holds the manager, the worker goroutine, the goroutine that
    is inside [Close], the calls of [WriteLog] that wait in their
    [select], a clock in milliseconds, and the events so far (oldest
    first).  A step is one atomic action of one goroutine; the scheduler
    picks the label.  Sending on a closed channel and closing a closed
    channel panic and end the program: no step. *)
Module Sched.
Import logManagerImpl.

Inductive Worker : Type :=
| Select (m : Mode)                       (** at its [select] *)
| Notifying (m : Mode) (entry : LogEntry) (** has written [entry], handlers next *)
| Stuck (entry : LogEntry)                (** blocked for ever inside [Write] *)
| Exited.                                 (** returned; [wg.Done()] has run *)

Inductive Closer : Type :=
| NotCalled
| Waiting                                 (** in [lm.wg.Wait()] *)
| CloserStuck                             (** blocked for ever inside the backend's [Close] *)
| Returned (r : option error).

(** A call of [WriteLog] blocked in its [select] since [since]. *)
Record Pending : Type := mkPending {
  who : Producer;
  what : LogEntry;
  since : nat
}.

Record State : Type := mkState {
  lm : logManagerImpl.t;
  worker : Worker;
  closer : Closer;
  blocked : list Pending;
  clock : nat;
  trace : list Event
}.

Inductive Label : Type :=
| LCall (p : Producer) (level : LogLevel) (message : string) (now : Time)
| LSend (p : Producer)
| LTimeout (p : Producer)
| LTick
| LRecv
| LNotify
| LDone
| LExit
| LClose
| LCloseFinish
| LRegister (h : LogHandler)
| LReadLogs (level : LogLevel) (filter : LogFilter)
| LClearLogs (before : Time)
| LFault (b : bool).

Definition set_lm (x : logManagerImpl.t) (s : State) : State :=
  mkState x (worker s) (closer s) (blocked s) (clock s) (trace s).
Definition set_worker (w : Worker) (s : State) : State :=
  mkState (lm s) w (closer s) (blocked s) (clock s) (trace s).
Definition set_closer (c : Closer) (s : State) : State :=
  mkState (lm s) (worker s) c (blocked s) (clock s) (trace s).
Definition set_blocked (b : list Pending) (s : State) : State :=
  mkState (lm s) (worker s) (closer s) b (clock s) (trace s).
Definition set_clock (n : nat) (s : State) : State :=
  mkState (lm s) (worker s) (closer s) (blocked s) n (trace s).
Definition emit (evs : list Event) (s : State) : State :=
  mkState (lm s) (worker s) (closer s) (blocked s) (clock s) (trace s ++ evs)%list.

Definition isBlocked (p : Producer) (s : State) : bool :=
  existsb (fun q => who q =? p) (blocked s).

Definition pendingOf (p : Producer) (s : State) : option Pending :=
  find (fun q => who q =? p) (blocked s).

Definition unblock (p : Producer) (s : State) : State :=
  set_blocked (List.filter (fun q => negb (who q =? p)) (blocked s)) s.

(** The case [lm.logChannel <- entry] can proceed: an open channel with
    room.  A nil channel never can. *)
Definition canSend (x : logManagerImpl.t) : option Chan :=
  match logChannel x with
  | Some ch => if negb (chClosed ch) && hasSpace ch then Some ch else None
  | None => None
  end.

Definition channelClosed (x : logManagerImpl.t) : bool :=
  match logChannel x with Some ch => chClosed ch | None => false end.

(** The timer of a waiting call has fired. *)
Definition expired (q : Pending) (s : State) : bool :=
  since q + backpressureTimeout <=? clock s.

Section WithLayout.
Context {layout : RFC3339}.

(** The state after [NewLogManager] has returned [x]. *)
Definition init (x : logManagerImpl.t) : State :=
  mkState x (if isAsync x then Select Running else Exited) NotCalled [] 0 [].

Definition step (l : Label) (s : State) : option State :=
  match l with
  | LCall p level message now =>
      (* goroutine [p] calls [WriteLog]; it makes one call at a time *)
      if isBlocked p s then None
      else
        match WriteLog level message now (lm s) with
        | Returns r evs x =>
            Some (emit (evs ++ [EvReturn p (mkEntry level message now []) r])
                       (set_lm x s))
        | Hangs x => Some (set_lm x s)
        | Selects entry =>
            if channelClosed (lm s) then None
            else
              match canSend (lm s) with
              | Some ch =>
                  Some (emit [EvReturn p entry None]
                          (set_lm (set_logChannel (Some (send entry ch)) (lm s)) s))
              | None =>
                  Some (set_blocked (blocked s ++ [mkPending p entry (clock s)]) s)
              end
        end
  | LSend p =>
      (* the send of a waiting call goes through *)
      match pendingOf p s, canSend (lm s) with
      | Some q, Some ch =>
          Some (emit [EvReturn p (what q) None]
                  (unblock p
                     (set_lm (set_logChannel (Some (send (what q) ch)) (lm s)) s)))
      | _, _ => None
      end
  | LTimeout p =>
      (* [case <-time.After(100 * time.Millisecond)] *)
      match pendingOf p s with
      | Some q =>
          if expired q s
          then Some (emit [EvReturn p (what q) (Some QueueSaturated)] (unblock p s))
          else None
      | None => None
      end
  | LTick =>
      (* a millisecond passes, unless a timer is due *)
      if forallb (fun q => negb (expired q s)) (blocked s)
      then Some (set_clock (clock s + 1) s)
      else None
  | LRecv =>
      (* [case entry := <-lm.logChannel], then [lm.backend.Write(entry)] *)
      match worker s, logChannel (lm s), backend (lm s) with
      | Select m, Some ch, Some b =>
          match buf ch with
          | entry :: rest =>
              let x := set_logChannel (Some (mkChan rest (cap ch) (chClosed ch))) (lm s) in
              match onBackend (workerWrite m entry) x b with
              | Ret evs x' => Some (emit evs (set_worker (Notifying m entry) (set_lm x' s)))
              | Hang x' => Some (set_worker (Stuck entry) (set_lm x' s))
              end
          | [] => None
          end
      | _, _, _ => None
      end
  | LNotify =>
      (* the copy of [lm.handlers] and the calls of [Handle] *)
      match worker s with
      | Notifying m entry =>
          Some (emit (notify (handlers (lm s)) entry) (set_worker (Select m) s))
      | _ => None
      end
  | LDone =>
      (* [case <-lm.done] *)
      match worker s, done (lm s) with
      | Select Running, Some true => Some (set_worker (Select Draining) s)
      | _, _ => None
      end
  | LExit =>
      (* [default: return] with the channel empty, then [wg.Done()] *)
      match worker s, logChannel (lm s) with
      | Select Draining, Some ch =>
          match buf ch with
          | [] => Some (set_worker Exited (set_lm (set_wg (wg (lm s) - 1) (lm s)) s))
          | _ :: _ => None
          end
      | _, _ => None
      end
  | LClose =>
      (* [Close] is entered: [close(lm.done)], or straight to the backend *)
      match closer s with
      | NotCalled =>
          match isAsync (lm s), done (lm s) with
          | true, Some false =>
              Some (emit [EvCloseCalled]
                      (set_closer Waiting (set_lm (set_done (Some true) (lm s)) s)))
          | true, Some true => None
          | _, _ =>
              match closeBackend (lm s) with
              | Ret r x => Some (emit [EvCloseCalled; EvCloseReturned r]
                                   (set_closer (Returned r) (set_lm x s)))
              | Hang x => Some (emit [EvCloseCalled] (set_closer CloserStuck (set_lm x s)))
              end
          end
      | _ => None
      end
  | LCloseFinish =>
      (* [lm.wg.Wait()] returns; [close(lm.logChannel)]; the backend's [Close] *)
      match closer s, wg (lm s), logChannel (lm s) with
      | Waiting, O, Some ch =>
          if chClosed ch then None
          else
            let x := set_logChannel (Some (mkChan (buf ch) (cap ch) true)) (lm s) in
            match closeBackend x with
            | Ret r x' => Some (emit [EvCloseReturned r]
                                  (set_closer (Returned r) (set_lm x' s)))
            | Hang x' => Some (set_closer CloserStuck (set_lm x' s))
            end
      | _, _, _ => None
      end
  | LRegister h => Some (set_lm (RegisterLogHandler h (lm s)) s)
  | LReadLogs level filter =>
      match ReadLogs level filter (lm s) with
      | Ret _ x => Some (set_lm x s)
      | Hang x => Some (set_lm x s)
      end
  | LClearLogs before =>
      match ClearLogs before (lm s) with
      | Ret _ x => Some (set_lm x s)
      | Hang x => Some (set_lm x s)
      end
  | LFault b =>
      (* the environment: the device of the log file starts or stops failing *)
      match backend (lm s) with
      | Some (FileB fb) =>
          Some (set_lm (set_backend (Some (FileB (FileBackend.set_disk
                   (mkDisk (content (FileBackend.disk fb)) b) fb))) (lm s)) s)
      | _ => None
      end
  end.

(** A schedule, run from a state. *)
Fixpoint exec (ls : list Label) (s : State) : option State :=
  match ls with
  | [] => Some s
  | l :: ls' =>
      match step l s with
      | Some s' => exec ls' s'
      | None => None
      end
  end.

Definition reachable (s0 s : State) : Prop := exists ls, exec ls s0 = Some s.

(** The state a schedule ends in; the start state when it cannot run. *)
Definition finalState (ls : list Label) (s0 : State) : State :=
  match exec ls s0 with
  | Some s => s
  | None => s0
  end.

End WithLayout.

(** ** Reading a trace *)

(** Entries whose [WriteLog] returned nil, with the caller, in the order
    of the returns. *)
Fixpoint accepted (tr : list Event) : list (Producer * LogEntry) :=
  match tr with
  | [] => []
  | EvReturn p entry None :: tr' => (p, entry) :: accepted tr'
  | _ :: tr' => accepted tr'
  end.

(** Entries handed to the backend's [Write], in the order of the calls. *)
Fixpoint written (tr : list Event) : list LogEntry :=
  match tr with
  | [] => []
  | EvWrite entry _ :: tr' => entry :: written tr'
  | _ :: tr' => written tr'
  end.

(** The part of a trace that precedes the call of [Close]. *)
Fixpoint beforeClose (tr : list Event) : list Event :=
  match tr with
  | [] => []
  | EvCloseCalled :: _ => []
  | ev :: tr' => ev :: beforeClose tr'
  end.

Definition queued (s : State) : list LogEntry :=
  match logChannel (lm s) with Some ch => buf ch | None => [] end.

End Sched.

(** ** The goroutines of one manager, one action at a time

    A step of [Sched] is a whole call where the call touches shared state
    once.  Here a step is a single action of a single goroutine: one
    operation on a channel, one critical section, one call of a handler,
    one return.  A call of [WriteLog] is in the state between its
    actions until it returns, and the steps of other goroutines fall in
    between: the send of one call and its [return nil] are two steps, and
    so are the [Write], the copy of the handlers, each [Handle] and the
    return of a call in synchronous mode.  The worker receives, writes,
    copies the handlers and calls them in steps of its own, and [Close]
    closes [done], waits, closes the channel, closes the backend and
    returns in five.  The events record the sends as well.  A run has at
    most one call of [Close]; in asynchronous mode a second one panics at
    [close(lm.done)]. *)
Module Interleaving.
Import logManagerImpl.

Inductive Event : Type :=
| Sent (p : Producer) (entry : LogEntry)
    (** [lm.logChannel <- entry] went through in the call of goroutine [p] *)
| Returned (p : Producer) (entry : LogEntry) (r : option error)
    (** the call of [WriteLog] that goroutine [p] made for [entry] returned [r] *)
| Wrote (entry : LogEntry) (r : option error)
    (** [lm.backend.Write(entry)] returned [r] *)
| Printed (text : string)
| Handled (h : LogHandler) (entry : LogEntry)
    (** [h.Handle(entry)] was called *)
| CloseCalled
| CloseReturned (r : option error).

(** Where a call of [WriteLog] is. *)
Inductive Call : Type :=
| Selecting (entry : LogEntry) (since : nat)
    (** asynchronous: in the [select], the channel full since [since] *)
| Returning (entry : LogEntry) (r : option error)
    (** at its [return r] *)
| Written (entry : LogEntry)
    (** synchronous: [Write] has returned nil; [lm.mu.Lock()] is next *)
| Handling (entry : LogEntry) (hs : list LogHandler)
    (** synchronous: the handlers of its copy that are still to be called *)
| InWrite (entry : LogEntry)
    (** synchronous: blocked for ever inside [Write] *)
| Panicked.
    (** it sent on a closed channel, which panics: the call never
        returns; the other goroutines go on, as they do when the caller
        recovers *)

Inductive Worker : Type :=
| Select (m : Mode)                      (** at its [select] *)
| Holding (m : Mode) (entry : LogEntry)  (** has received [entry]; [Write] is next *)
| Copying (m : Mode) (entry : LogEntry)  (** has written; [lm.mu.Lock()] is next *)
| Notifying (m : Mode) (entry : LogEntry) (hs : list LogHandler)
                                         (** the handlers still to be called *)
| Stuck (entry : LogEntry)               (** blocked for ever inside [Write] *)
| Leaving                                (** took [default: return]; [wg.Done()] is next *)
| Exited.

Inductive Closer : Type :=
| NotCalled
| Waiting                                (** has closed [done]; in [lm.wg.Wait()] *)
| Woken                                  (** [Wait] has returned; [close(lm.logChannel)] is next *)
| ToBackend                              (** [lm.backend.Close()] is next *)
| Closed (r : option error)              (** the backend's [Close] returned [r] *)
| CloserStuck                            (** blocked for ever inside the backend's [Close] *)
| Finished (r : option error).

Record State : Type := mkState {
  lm : logManagerImpl.t;
  worker : Worker;
  closer : Closer;
  calls : list (Producer * Call);
  clock : nat;
  trace : list Event
}.

Inductive Label : Type :=
| LCall (p : Producer) (level : LogLevel) (message : string) (now : Time)
| LSend (p : Producer)
| LTimeout (p : Producer)
| LCopy (p : Producer)
| LHandle (p : Producer)
| LReturn (p : Producer)
| LTick
| LRecv
| LWrite
| LWorkerCopy
| LWorkerHandle
| LDone
| LExit
| LWgDone
| LClose
| LWait
| LCloseChan
| LBackendClose
| LCloseReturn
| LRegister (h : LogHandler)
| LReadLogs (level : LogLevel) (filter : LogFilter)
| LClearLogs (before : Time)
| LFault (b : bool).

Definition set_lm (x : logManagerImpl.t) (s : State) : State :=
  mkState x (worker s) (closer s) (calls s) (clock s) (trace s).
Definition set_worker (w : Worker) (s : State) : State :=
  mkState (lm s) w (closer s) (calls s) (clock s) (trace s).
Definition set_closer (c : Closer) (s : State) : State :=
  mkState (lm s) (worker s) c (calls s) (clock s) (trace s).
Definition set_calls (cs : list (Producer * Call)) (s : State) : State :=
  mkState (lm s) (worker s) (closer s) cs (clock s) (trace s).
Definition set_clock (n : nat) (s : State) : State :=
  mkState (lm s) (worker s) (closer s) (calls s) n (trace s).
Definition emit (evs : list Event) (s : State) : State :=
  mkState (lm s) (worker s) (closer s) (calls s) (clock s) (trace s ++ evs)%list.

(** A goroutine is in at most one call. *)
Definition callOf (p : Producer) (s : State) : option Call :=
  match find (fun pc => fst pc =? p) (calls s) with
  | Some pc => Some (snd pc)
  | None => None
  end.

Definition without (p : Producer) (cs : list (Producer * Call)) : list (Producer * Call) :=
  List.filter (fun pc => negb (fst pc =? p)) cs.

Definition setCall (p : Producer) (c : Call) (s : State) : State :=
  set_calls (without p (calls s) ++ [(p, c)])%list s.

Definition endCall (p : Producer) (s : State) : State :=
  set_calls (without p (calls s)) s.

(** The timer of a call in its [select] has fired. *)
Definition due (now : nat) (c : Call) : bool :=
  match c with
  | Selecting _ since => since + backpressureTimeout <=? now
  | _ => false
  end.

(** [close(lm.logChannel)] wakes the calls that wait to send: they panic. *)
Definition wake (c : Call) : Call :=
  match c with
  | Selecting _ _ => Panicked
  | other => other
  end.

(** After the copy of the handlers: the loop over them, then [return nil]. *)
Definition handling (entry : LogEntry) (hs : list LogHandler) : Call :=
  match hs with
  | [] => Returning entry None
  | _ :: _ => Handling entry hs
  end.

(** The worker after the copy: the loop over the handlers, then its
    [select] again. *)
Definition notifying (m : Mode) (entry : LogEntry) (hs : list LogHandler) : Worker :=
  match hs with
  | [] => Select m
  | _ :: _ => Notifying m entry hs
  end.

Section WithLayout.
Context {layout : RFC3339}.

(** The state after [NewLogManager] has returned [x]. *)
Definition init (x : logManagerImpl.t) : State :=
  mkState x (if isAsync x then Select Running else Exited) NotCalled [] 0 [].

Definition step (l : Label) (s : State) : option State :=
  match l with
  | LCall p level message now =>
      (* [WriteLog] down to its first action on shared state: the
         [select] in asynchronous mode, [Write] in synchronous mode *)
      match callOf p s with
      | Some _ => None
      | None =>
          let entry := mkEntry level message now [] in
          match backend (lm s) with
          | None =>
              Some (setCall p (Returning entry (Some "backend not initialized")) s)
          | Some b =>
              if isAsync (lm s) then
                if Sched.channelClosed (lm s) then Some (setCall p Panicked s)
                else
                  match Sched.canSend (lm s) with
                  | Some ch =>
                      Some (emit [Sent p entry]
                              (setCall p (Returning entry None)
                                 (set_lm (set_logChannel (Some (send entry ch)) (lm s)) s)))
                  | None => Some (setCall p (Selecting entry (clock s)) s)
                  end
              else
                match onBackend (Backend.Write entry) (lm s) b with
                | Hang x => Some (setCall p (InWrite entry) (set_lm x s))
                | Ret (Some err) x =>
                    Some (emit [Wrote entry (Some err)]
                            (setCall p
                               (Returning entry (Some ("failed to write log: " ++ err)%string))
                               (set_lm x s)))
                | Ret None x =>
                    Some (emit [Wrote entry None] (setCall p (Written entry) (set_lm x s)))
                end
          end
      end
  | LSend p =>
      (* [case lm.logChannel <- entry] of a waiting call *)
      match callOf p s, Sched.canSend (lm s) with
      | Some (Selecting entry _), Some ch =>
          Some (emit [Sent p entry]
                  (setCall p (Returning entry None)
                     (set_lm (set_logChannel (Some (send entry ch)) (lm s)) s)))
      | _, _ => None
      end
  | LTimeout p =>
      (* [case <-time.After(100 * time.Millisecond)] *)
      match callOf p s with
      | Some (Selecting entry since) =>
          if due (clock s) (Selecting entry since)
          then Some (setCall p (Returning entry (Some QueueSaturated)) s)
          else None
      | _ => None
      end
  | LCopy p =>
      (* synchronous: [lm.mu.Lock(); handlers := lm.handlers; lm.mu.Unlock()] *)
      match callOf p s with
      | Some (Written entry) => Some (setCall p (handling entry (handlers (lm s))) s)
      | _ => None
      end
  | LHandle p =>
      (* synchronous: one [h.Handle(entry)] of the loop *)
      match callOf p s with
      | Some (Handling entry (h :: hs)) =>
          Some (emit [Handled h entry] (setCall p (handling entry hs) s))
      | _ => None
      end
  | LReturn p =>
      match callOf p s with
      | Some (Returning entry r) => Some (emit [Returned p entry r] (endCall p s))
      | _ => None
      end
  | LTick =>
      (* a millisecond passes, unless a timer is due *)
      if forallb (fun pc => negb (due (clock s) (snd pc))) (calls s)
      then Some (set_clock (clock s + 1) s)
      else None
  | LRecv =>
      (* [case entry := <-lm.logChannel] *)
      match worker s, logChannel (lm s) with
      | Select m, Some ch =>
          match buf ch with
          | entry :: rest =>
              Some (set_worker (Holding m entry)
                      (set_lm (set_logChannel (Some (mkChan rest (cap ch) (chClosed ch)))
                                 (lm s)) s))
          | [] => None
          end
      | _, _ => None
      end
  | LWrite =>
      (* the worker's [lm.backend.Write(entry)]; the loop that runs before
         [done] is closed prints a failure, the loop that drains does not *)
      match worker s, backend (lm s) with
      | Holding m entry, Some b =>
          match onBackend (Backend.Write entry) (lm s) b with
          | Ret r x =>
              Some (emit (Wrote entry r ::
                          match m, r with
                          | Running, Some err =>
                              [Printed ("async log write error: " ++ err ++ strings.nl)%string]
                          | _, _ => []
                          end)
                      (set_worker (Copying m entry) (set_lm x s)))
          | Hang x => Some (set_worker (Stuck entry) (set_lm x s))
          end
      | _, _ => None
      end
  | LWorkerCopy =>
      (* [lm.mu.Lock(); handlers := make(...); copy(handlers, lm.handlers); lm.mu.Unlock()] *)
      match worker s with
      | Copying m entry => Some (set_worker (notifying m entry (handlers (lm s))) s)
      | _ => None
      end
  | LWorkerHandle =>
      match worker s with
      | Notifying m entry (h :: hs) =>
          Some (emit [Handled h entry] (set_worker (notifying m entry hs) s))
      | _ => None
      end
  | LDone =>
      (* [case <-lm.done] *)
      match worker s, done (lm s) with
      | Select Running, Some true => Some (set_worker (Select Draining) s)
      | _, _ => None
      end
  | LExit =>
      (* [default: return] with the channel empty *)
      match worker s, logChannel (lm s) with
      | Select Draining, Some ch =>
          match buf ch with
          | [] => Some (set_worker Leaving s)
          | _ :: _ => None
          end
      | _, _ => None
      end
  | LWgDone =>
      (* the deferred [lm.wg.Done()] *)
      match worker s with
      | Leaving => Some (set_worker Exited (set_lm (set_wg (wg (lm s) - 1) (lm s)) s))
      | _ => None
      end
  | LClose =>
      (* [Close] is entered; in asynchronous mode [close(lm.done)] *)
      match closer s with
      | NotCalled =>
          match isAsync (lm s), done (lm s) with
          | true, Some false =>
              Some (emit [CloseCalled]
                      (set_closer Waiting (set_lm (set_done (Some true) (lm s)) s)))
          | true, Some true => None
          | _, _ => Some (emit [CloseCalled] (set_closer ToBackend s))
          end
      | _ => None
      end
  | LWait =>
      (* [lm.wg.Wait()] returns *)
      match closer s, wg (lm s) with
      | Waiting, O => Some (set_closer Woken s)
      | _, _ => None
      end
  | LCloseChan =>
      (* [close(lm.logChannel)] *)
      match closer s, logChannel (lm s) with
      | Woken, Some ch =>
          if chClosed ch then None
          else Some (set_closer ToBackend
                       (set_calls (map (fun pc => (fst pc, wake (snd pc))) (calls s))
                          (set_lm (set_logChannel (Some (mkChan (buf ch) (cap ch) true))
                                     (lm s)) s)))
      | _, _ => None
      end
  | LBackendClose =>
      (* [if lm.backend == nil { return nil }; return lm.backend.Close()] *)
      match closer s with
      | ToBackend =>
          match closeBackend (lm s) with
          | Ret r x => Some (set_closer (Closed r) (set_lm x s))
          | Hang x => Some (set_closer CloserStuck (set_lm x s))
          end
      | _ => None
      end
  | LCloseReturn =>
      match closer s with
      | Closed r => Some (emit [CloseReturned r] (set_closer (Finished r) s))
      | _ => None
      end
  | LRegister h => Some (set_lm (RegisterLogHandler h (lm s)) s)
  | LReadLogs level filter =>
      match ReadLogs level filter (lm s) with
      | Ret _ x => Some (set_lm x s)
      | Hang x => Some (set_lm x s)
      end
  | LClearLogs before =>
      match ClearLogs before (lm s) with
      | Ret _ x => Some (set_lm x s)
      | Hang x => Some (set_lm x s)
      end
  | LFault b =>
      (* the environment: the device of the log file starts or stops failing *)
      match backend (lm s) with
      | Some (FileB fb) =>
          Some (set_lm (set_backend (Some (FileB (FileBackend.set_disk
                   (mkDisk (content (FileBackend.disk fb)) b) fb))) (lm s)) s)
      | _ => None
      end
  end.

Fixpoint exec (ls : list Label) (s : State) : option State :=
  match ls with
  | [] => Some s
  | l :: ls' =>
      match step l s with
      | Some s' => exec ls' s'
      | None => None
      end
  end.

Definition reachable (s0 s : State) : Prop := exists ls, exec ls s0 = Some s.

Definition finalState (ls : list Label) (s0 : State) : State :=
  match exec ls s0 with
  | Some s => s
  | None => s0
  end.

End WithLayout.

(** ** Reading a run *)

(** The sends that went through, with the sender, in the order of the
    channel. *)
Fixpoint sent (tr : list Event) : list (Producer * LogEntry) :=
  match tr with
  | [] => []
  | Sent p entry :: tr' => (p, entry) :: sent tr'
  | _ :: tr' => sent tr'
  end.

(** Entries whose [WriteLog] returned nil, with the caller, in the order
    of the returns. *)
Fixpoint accepted (tr : list Event) : list (Producer * LogEntry) :=
  match tr with
  | [] => []
  | Returned p entry None :: tr' => (p, entry) :: accepted tr'
  | _ :: tr' => accepted tr'
  end.

(** The entries of goroutine [p] in such a list, in order. *)
Definition entriesBy (p : Producer) (l : list (Producer * LogEntry)) : list LogEntry :=
  map snd (List.filter (fun pe => fst pe =? p) l).

(** Entries handed to the backend's [Write], in the order of the calls. *)
Fixpoint written (tr : list Event) : list LogEntry :=
  match tr with
  | [] => []
  | Wrote entry _ :: tr' => entry :: written tr'
  | _ :: tr' => written tr'
  end.

(** The calls of [Handle], in order. *)
Fixpoint handled (tr : list Event) : list (LogHandler * LogEntry) :=
  match tr with
  | [] => []
  | Handled h entry :: tr' => (h, entry) :: handled tr'
  | _ :: tr' => handled tr'
  end.

Definition closeCalled (tr : list Event) : bool :=
  existsb (fun ev => match ev with CloseCalled => true | _ => false end) tr.

(** The part of a run that precedes the call of [Close]. *)
Fixpoint beforeClose (tr : list Event) : list Event :=
  match tr with
  | [] => []
  | CloseCalled :: _ => []
  | ev :: tr' => ev :: beforeClose tr'
  end.

Definition queued (s : State) : list LogEntry :=
  match logChannel (lm s) with Some ch => buf ch | None => [] end.

End Interleaving.

End Logger.

(* ================================================================== *)
(** * pkg/logger: the package without a queue *)
(* ================================================================== *)

Module PkgLogger.
Import time Logger.

(** ** file_backend.go

    [Init], [Write] and [Close] read as in backend_file.go; [Read] and
    [ClearLogs] are not implemented, and take no lock. *)
Module FileBackend.
Import Logger.FileBackend.

Section WithLayout.
Context {layout : RFC3339}.

Definition Init (cfg : AnyConfig) (fb : t) : option error * t :=
  match cfg with
  | FileCfg fileConfig =>
      let fb := set_config fileConfig fb in
      match os_MkdirAll (FilePath fileConfig) (disk fb) with
      | Some err => (Some ("failed to create log directory: " ++ err)%string, fb)
      | None =>
          match os_OpenAppend (FilePath fileConfig) (disk fb) with
          | inr err => (Some ("failed to open log file: " ++ err)%string, fb)
          | inl (f, d) => (None, set_file (Some f) (set_disk d fb))
          end
      end
  | _ => (Some "invalid config type for file backend", fb)
  end.

Definition Write (entry : LogEntry) : M t (option error) :=
  locked (fun fb =>
    match file fb with
    | None => Ret (Some "file backend not initialized") fb
    | Some f =>
        let timestamp := Format (Timestamp entry) in
        let line := ("[" ++ timestamp ++ "] " ++ fmt.padRight 5 (Level entry) ++ ": "
                     ++ Message entry ++ strings.nl)%string in
        match os_WriteString (path fb) f line (disk fb) with
        | (d, Some err) => Ret (Some ("failed to write log: " ++ err)%string) (set_disk d fb)
        | (d, None) => Ret None (set_disk d fb)
        end
    end).

(** [return []LogEntry{}, fmt.Errorf("read not implemented for file backend")] *)
Definition Read (level : LogLevel) (filter : LogFilter)
  : M t (list LogEntry * option error) :=
  ret ([], Some "read not implemented for file backend").

Definition ClearLogs (before : Time) : M t (option error) :=
  ret (Some "clear logs not implemented for file backend").

Definition Close : M t (option error) :=
  locked (fun fb =>
    match file fb with
    | Some f => Ret (os_Close (path fb) f) (set_file None fb)
    | None => Ret None fb
    end).

End WithLayout.
End FileBackend.

(** ** sql_backend.go, through the interface of this package: [Read]
    returns the slice and the error side by side. *)
Module Backend.
Section WithLayout.
Context {layout : RFC3339}.

Definition Init (cfg : AnyConfig) (b : LogBackend) : option error * LogBackend :=
  match b with
  | FileB fb => let (r, fb') := FileBackend.Init cfg fb in (r, FileB fb')
  | SQLB sb => let (r, sb') := SQLBackend.Init cfg sb in (r, SQLB sb')
  end.

Definition Write (entry : LogEntry) : M LogBackend (option error) :=
  fun b => match b with
           | FileB fb => onFile (FileBackend.Write entry) fb
           | SQLB sb => onSQL (SQLBackend.Write entry) sb
           end.

Definition Read (level : LogLevel) (filter : LogFilter)
  : M LogBackend (list LogEntry * option error) :=
  fun b => match b with
           | FileB fb => onFile (FileBackend.Read level filter) fb
           | SQLB sb => Ret ([], None) (SQLB sb)
           end.

Definition ClearLogs (before : Time) : M LogBackend (option error) :=
  fun b => match b with
           | FileB fb => onFile (FileBackend.ClearLogs before) fb
           | SQLB sb => onSQL (SQLBackend.ClearLogs before) sb
           end.

Definition Close : M LogBackend (option error) :=
  fun b => match b with
           | FileB fb => onFile FileBackend.Close fb
           | SQLB sb => onSQL SQLBackend.Close sb
           end.

End WithLayout.
End Backend.

(** ** log_manager.go *)
Module logManagerImpl.

Record t : Type := mk {
  config : Config;
  backend : option LogBackend;
  handlers : list LogHandler
}.

Definition set_backend (b : option LogBackend) (lm : t) : t :=
  mk (config lm) b (handlers lm).

Definition onBackend {A : Type} (m : M LogBackend A) (lm : t) (b : LogBackend)
  : Outcome t A :=
  match m b with
  | Ret a b' => Ret a (set_backend (Some b') lm)
  | Hang b' => Hang (set_backend (Some b') lm)
  end.

Section WithLayout.
Context {layout : RFC3339}.

(** [config.Async] is not read. *)
Definition NewLogManager (cfg : Config) (d : Disk) : t + error :=
  let lm := mk cfg None [] in
  match (if (Logger.Backend cfg =? BackendFile)%string
         then Some (FileB (Logger.FileBackend.zero d))
         else if (Logger.Backend cfg =? BackendSQL)%string
         then Some (SQLB SQLBackend.zero)
         else None) with
  | None => inr ("unsupported backend type: " ++ Logger.Backend cfg)%string
  | Some b =>
      match Backend.Init (BackendConfig cfg) b with
      | (Some err, _) => inr ("failed to initialize backend: " ++ err)%string
      | (None, b') => inl (set_backend (Some b') lm)
      end
  end.

(** A call returns, with the events it caused, or waits for ever on the
    mutex of the backend. *)
Inductive WriteLogResult : Type :=
| Returns (r : option error) (events : list Event) (lm : t)
| Hangs (lm : t).

Definition WriteLog (level : LogLevel) (message : string) (now : Time) (lm : t)
  : WriteLogResult :=
  match backend lm with
  | None => Returns (Some "backend not initialized") [] lm
  | Some b =>
      let entry := mkEntry level message now [] in
      match onBackend (Backend.Write entry) lm b with
      | Hang lm' => Hangs lm'
      | Ret (Some err) lm' =>
          Returns (Some ("failed to write log: " ++ err)%string)
                  [EvWrite entry (Some err)] lm'
      | Ret None lm' =>
          let handlers := handlers lm' in
          Returns None (EvWrite entry None :: notify handlers entry) lm'
      end
  end.

Definition ReadLogs (level : LogLevel) (filter : LogFilter)
  : M t (list LogEntry * option error) :=
  fun lm => match backend lm with
            | None => Ret ([], Some "backend not initialized") lm
            | Some b => onBackend (Backend.Read level filter) lm b
            end.

Definition ClearLogs (before : Time) : M t (option error) :=
  fun lm => match backend lm with
            | None => Ret (Some "backend not initialized") lm
            | Some b => onBackend (Backend.ClearLogs before) lm b
            end.

Definition RegisterLogHandler (handler : LogHandler) (lm : t) : t :=
  mk (config lm) (backend lm) (handlers lm ++ [handler])%list.

Definition Close : M t (option error) :=
  fun lm => match backend lm with
            | None => Ret None lm
            | Some b => onBackend Backend.Close lm b
            end.

End WithLayout.
End logManagerImpl.

(** The manager of package logger that holds what a manager of this
    package holds, in synchronous mode. *)
Definition toLogger (lm : logManagerImpl.t) : Logger.logManagerImpl.t :=
  Logger.logManagerImpl.mk (logManagerImpl.config lm) (logManagerImpl.backend lm)
    (logManagerImpl.handlers lm) None None 0 false.

Definition liftWrite (r : logManagerImpl.WriteLogResult)
  : Logger.logManagerImpl.WriteLogResult :=
  match r with
  | logManagerImpl.Returns e evs lm => Logger.logManagerImpl.Returns e evs (toLogger lm)
  | logManagerImpl.Hangs lm => Logger.logManagerImpl.Hangs (toLogger lm)
  end.

Definition liftOutcome {A : Type} (o : Outcome logManagerImpl.t A)
  : Outcome Logger.logManagerImpl.t A :=
  match o with
  | Ret a lm => Ret a (toLogger lm)
  | Hang lm => Hang (toLogger lm)
  end.

End PkgLogger.

(* ================================================================== *)
(** * The specification's words, as definitions *)
(* ================================================================== *)

Module Spec.
Import time Logger.

(** "An entry is returned iff it satisfies every condition that is
    specified": the level, when one is set; the substring, when one is
    given; the start and the end of the time range, when present. *)
Definition satisfies (level : LogLevel) (filter : LogFilter) (entry : LogEntry) : Prop :=
  (level <> "" -> Level entry = level)
  /\ (Contains filter <> "" ->
      strings.Contains (Message entry) (Contains filter) = true)
  /\ (forall start, StartTime filter = Some start -> le start (Timestamp entry))
  /\ (forall stop, EndTime filter = Some stop -> le (Timestamp entry) stop).

Definition leb (t u : Time) : bool :=
  ((unixSec t <? unixSec u) || ((unixSec t =? unixSec u) && (nsec t <=? nsec u)))%Z.

Definition satisfiesb (level : LogLevel) (filter : LogFilter) (entry : LogEntry) : bool :=
  ((level =? "") || (Level entry =? level))%string
  && ((Contains filter =? "")%string
      || strings.Contains (Message entry) (Contains filter))
  && match StartTime filter with
     | Some start => leb start (Timestamp entry)
     | None => true
     end
  && match EndTime filter with
     | Some stop => leb (Timestamp entry) stop
     | None => true
     end.

(** "[<RFC3339 timestamp>] <level left-padded to 5 chars>: <message>" with
    the padding to the left of the level name. *)
Definition lineLeftPadded {layout : RFC3339} (entry : LogEntry) : string :=
  ("[" ++ Format (Timestamp entry) ++ "] " ++ fmt.padLeft 5 (Level entry)
   ++ ": " ++ Message entry)%string.

(** The record shape [[<RFC3339 timestamp>] <level>: <message>]: an
    opening bracket, the timestamp up to the first closing bracket, and
    text that, trimmed, splits at its first colon into the level and the
    message, both trimmed.  [entry] is the record the line stands for. *)
Definition recordShape {layout : RFC3339} (line : string) (entry : LogEntry) : Prop :=
  exists tsStr rest lvl msg,
    line = ("[" ++ tsStr ++ "]" ++ rest)%string
    /\ strings.lacks "]" tsStr
    /\ Parse tsStr = Some (Timestamp entry)
    /\ strings.TrimSpace rest = (lvl ++ ":" ++ msg)%string
    /\ strings.lacks ":" lvl
    /\ Level entry = strings.TrimSpace lvl
    /\ Message entry = strings.TrimSpace msg
    /\ Metadata entry = [].

(** A line that matches the shape is well-formed; the others are malformed. *)
Definition malformed {layout : RFC3339} (line : string) : Prop :=
  forall entry, ~ recordShape line entry.

(** The entries of the well-formed lines, in the order of the lines,
    every malformed line skipped. *)
Inductive entriesOf {layout : RFC3339} : list string -> list LogEntry -> Prop :=
| entriesOf_nil : entriesOf [] []
| entriesOf_record (line : string) (entry : LogEntry) lines entries :
    recordShape line entry -> entriesOf lines entries ->
    entriesOf (line :: lines) (entry :: entries)
| entriesOf_skip (line : string) lines entries :
    malformed line -> entriesOf lines entries ->
    entriesOf (line :: lines) entries.

(** A field that reads back as it was written: no space at either end
    and no line feed inside. *)
Definition plain (s : string) : Prop :=
  strings.TrimSpace s = s /\ strings.lacks strings.LF s.

(** The RFC 3339 text of [t] holds no closing bracket and no line feed,
    and parses to [t']. *)
Definition textOf {layout : RFC3339} (t t' : Time) : Prop :=
  strings.lacks "]" (Format t) /\ strings.lacks strings.LF (Format t)
  /\ Parse (Format t) = Some t'.

(** Data whose last line, if it has one, is terminated. *)
Definition wholeLines (data : string) : Prop :=
  data = "" \/ strings.HasSuffix data strings.nl = true.

(** The result of a read, restricted to the entries that pass [keep]. *)
Definition restrict {S : Type} (keep : LogEntry -> bool)
           (o : Outcome S (list LogEntry + error)) : Outcome S (list LogEntry + error) :=
  match o with
  | Ret (inl entries) s => Ret (inl (List.filter keep entries)) s
  | other => other
  end.

End Spec.

(** ** Views of the scan loop, for the proofs *)

Module ReadView.
Import time Logger.
Section WithLayout.
Context {layout : RFC3339}.

(** The entries of the lines that parse, in the order of the lines. *)
Fixpoint parsed (toks : list string) : list LogEntry :=
  match toks with
  | [] => []
  | line :: toks' =>
      match FileBackend.parseLine line with
      | Some entry => entry :: parsed toks'
      | None => parsed toks'
      end
  end.

(** The two tests of the loop body, on an entry it has built. *)
Definition admits (level : LogLevel) (filter : LogFilter) (entry : LogEntry) : bool :=
  negb (negb (level =? "")%string && negb (Level entry =? level)%string)
  && FileBackend.applyFilter entry filter.

End WithLayout.
End ReadView.

(** ** Concrete managers and entries, for runs one can compute *)

Module Examples.
Import time Logger.

Definition logPath : string := "./logs/app.log".

Definition fileConfig : FileConfig := mkFileConfig logPath 10.

Definition syncConfig : Config := mkConfig BackendFile (FileCfg fileConfig) false "".
Definition asyncConfig : Config := mkConfig BackendFile (FileCfg fileConfig) true "".

(** No file yet, and a healthy device. *)
Definition emptyDisk : Disk := mkDisk None false.

(** 2025-01-01T12:00:00Z, and the same second half a second later. *)
Definition noon : Time := mkTime 1735732800 0 0.
Definition noonAndHalf : Time := mkTime 1735732800 500000000 0.

(** [s] doubled [k] times *)
Fixpoint doubled (k : nat) (s : string) : string :=
  match k with
  | O => s
  | S k' => doubled k' (s ++ s)
  end.

(** 65536 bytes [x] without a line feed *)
Definition longGarbage : string := doubled 16 "x".

Definition startedLine : string := "[2025-01-01T12:00:00Z] INFO : started".

Definition started : LogEntry := mkEntry LevelInfo "started" noon [].

(** A record, a line of garbage, a line without timestamp and a line
    without colon *)
Definition mixedFile : string :=
  "[2025-01-01T12:00:00Z] INFO : started
garbage
[yesterday] WARN : no timestamp
[2025-01-01T12:00:00Z] no colon here
".

(** A file backend on a healthy device that holds [data]. *)
Definition backendOn (data : string) : FileBackend.t :=
  FileBackend.mk false fileConfig (Some (mkHandle false)) (mkDisk (Some data) false).

(** The manager [NewLogManager] returns for [syncConfig] on [emptyDisk]. *)
Definition syncManager : logManagerImpl.t :=
  logManagerImpl.mk syncConfig
    (Some (FileB (FileBackend.mk false fileConfig (Some (mkHandle false))
                    (mkDisk (Some "") false))))
    [] None None 0 false.

(** The manager [NewLogManager] returns for [asyncConfig] on [emptyDisk]. *)
Definition asyncManager : logManagerImpl.t :=
  logManagerImpl.mk asyncConfig
    (Some (FileB (FileBackend.mk false fileConfig (Some (mkHandle false))
                    (mkDisk (Some "") false))))
    [] (Some (make queueCapacity)) (Some false) 1 true.

Definition second : LogEntry := mkEntry LevelWarn "second" noon [].

(** Three records: two of noon, of different levels, and one of a second later. *)
Definition threeLevels : string :=
  "[2025-01-01T12:00:00Z] INFO : started
[2025-01-01T12:00:00Z] WARN : second
[2025-01-01T12:00:01Z] ERROR: disk full
".

(** A synchronous manager on an open file backend whose file holds [data]. *)
Definition managerOn (data : string) : logManagerImpl.t :=
  logManagerImpl.mk syncConfig (Some (FileB (backendOn data))) [] None None 0 false.


(** One goroutine submits two entries; the worker writes both. *)
Definition twoEntries : list Sched.Label :=
  [Sched.LCall 1 LevelInfo "started" noon; Sched.LCall 1 LevelWarn "second" noon;
   Sched.LRecv; Sched.LNotify; Sched.LRecv; Sched.LNotify].

(** An entry is submitted, then [Close] runs to its end: the worker sees
    [done], drains the channel and returns. *)
Definition submitThenClose : list Sched.Label :=
  [Sched.LCall 1 LevelInfo "started" noon; Sched.LClose; Sched.LDone;
   Sched.LRecv; Sched.LNotify; Sched.LExit; Sched.LCloseFinish].

(** [Close] is called and the worker returns on the empty channel; a
    goroutine submits an entry before [Close] goes on. *)
Definition submitWhileClosing : list Sched.Label :=
  [Sched.LClose; Sched.LDone; Sched.LExit;
   Sched.LCall 1 LevelInfo "started" noon; Sched.LCloseFinish].

(** The states these schedules end in. *)
Definition twoWritten : Sched.State :=
  @Sched.finalState rfc3339 twoEntries (Sched.init asyncManager).
Definition shutDown : Sched.State :=
  @Sched.finalState rfc3339 submitThenClose (Sched.init asyncManager).
Definition raced : Sched.State :=
  @Sched.finalState rfc3339 submitWhileClosing (Sched.init asyncManager).

(** One goroutine fills the queue; the call of a second one then finds it
    full and waits until its timer is due. *)
Definition saturate : list Sched.Label :=
  (repeat (Sched.LCall 1 LevelInfo "started" noon) queueCapacity
   ++ [Sched.LCall 2 LevelWarn "second" noon]
   ++ repeat Sched.LTick backpressureTimeout)%list.
Definition saturated : Sched.State :=
  @Sched.finalState rfc3339 saturate (Sched.init asyncManager).

(** A handler is registered and an entry queued; the device of the log
    file starts to fail; [Close] is called and the worker sees [done]
    before it has taken the entry. *)
Definition faultBeforeDrain : list Sched.Label :=
  [Sched.LRegister 7; Sched.LCall 1 LevelInfo "started" noon; Sched.LFault true;
   Sched.LClose; Sched.LDone].
Definition drainingOnFault : Sched.State :=
  @Sched.finalState rfc3339 faultBeforeDrain (Sched.init asyncManager).

(** The same, the worker taking the entry before [Close] is called. *)
Definition faultWhileRunning : list Sched.Label :=
  [Sched.LRegister 7; Sched.LCall 1 LevelInfo "started" noon; Sched.LFault true].
Definition runningOnFault : Sched.State :=
  @Sched.finalState rfc3339 faultWhileRunning (Sched.init asyncManager).

(** The file backend of [freshBackend] on a device that fails. *)
Definition faultyBackend : FileBackend.t :=
  FileBackend.mk false fileConfig (Some (mkHandle false)) (mkDisk (Some "") true).

Definition deviceError : error :=
  "failed to write log: write ./logs/app.log: input/output error".

(** An entry is queued, [ClearLogs] is called, and the worker takes the
    entry: its [Write] finds the mutex held. *)
Definition clearThenWrite : list Sched.Label :=
  [Sched.LCall 1 LevelInfo "started" noon; Sched.LClearLogs noon; Sched.LRecv].
Definition stalled : Sched.State :=
  @Sched.finalState rfc3339 clearThenWrite (Sched.init asyncManager).

(** [Close] is called on the stalled manager, and another entry is queued. *)
Definition closeStalled : list Sched.Label :=
  [Sched.LClose; Sched.LCall 2 LevelWarn "second" noon; Sched.LTick].
Definition stillStalled : Sched.State :=
  @Sched.finalState rfc3339 closeStalled stalled.

(** A file backend as [Init] leaves it on [emptyDisk]. *)
Definition freshBackend : FileBackend.t :=
  FileBackend.mk false fileConfig (Some (mkHandle false)) (mkDisk (Some "") false).

(** Runs of the interleaving semantics. *)
Import Interleaving.

Definition third : LogEntry := mkEntry LevelError "third" noon [].

(** The worker's turn for one entry, with no handler registered. *)
Definition workerTurn : list Label := [LRecv; LWrite; LWorkerCopy].

(** Goroutine 1 sends [started]; goroutine 2 sends [second] and returns;
    goroutine 1 returns and logs [third]; the worker writes the three. *)
Definition overtake : list Label :=
  ([LCall 1 LevelInfo "started" noon; LCall 2 LevelWarn "second" noon;
    LReturn 2; LReturn 1; LCall 1 LevelError "third" noon; LReturn 1]
   ++ workerTurn ++ workerTurn ++ workerTurn)%list.
Definition overtaken : State := @finalState rfc3339 overtake (init asyncManager).

(** [started] is sent before [Close] is called and its call returns
    after; [second] is sent while [Close] waits and is drained; [third]
    is sent after the worker has left and stays in the channel. *)
Definition closeMeanwhile : list Label :=
  ([LCall 1 LevelInfo "started" noon; LClose; LCall 2 LevelWarn "second" noon;
    LReturn 1; LReturn 2; LDone]
   ++ workerTurn ++ workerTurn
   ++ [LExit; LWgDone; LCall 3 LevelError "third" noon; LReturn 3;
       LWait; LCloseChan; LBackendClose; LCloseReturn])%list.
Definition closedMeanwhile : State :=
  @finalState rfc3339 closeMeanwhile (init asyncManager).

(** The run of [overtake] with the worker half way: it has written
    [started] and holds [second]; the last call of goroutine 1 has sent
    [third] and not yet returned. *)
Definition halfWay : list Label :=
  ([LCall 1 LevelInfo "started" noon; LCall 2 LevelWarn "second" noon;
    LReturn 2; LReturn 1; LCall 1 LevelError "third" noon]
   ++ workerTurn ++ [LRecv])%list.
Definition inFlight : State := @finalState rfc3339 halfWay (init asyncManager).

(** Two entries with two handlers registered: the worker has called both
    for the first entry and one for the second. *)
Definition twoUnderWay : list Label :=
  [LCall 1 LevelInfo "started" noon; LReturn 1; LCall 1 LevelWarn "second" noon;
   LRecv; LWrite; LWorkerCopy; LWorkerHandle; LWorkerHandle;
   LRecv; LWrite; LWorkerCopy; LWorkerHandle].
Definition halfNotified : State :=
  @finalState rfc3339 (map LRegister [7; 8] ++ twoUnderWay)%list (init asyncManager).

(** What goes on after [closeMeanwhile]: time passes, the log is read, a
    handler is registered, and a goroutine calls [WriteLog]. *)
Definition later : list Label :=
  [LTick; LReadLogs "" noFilter; LRegister 7; LCall 4 LevelInfo "started" noon; LTick].
Definition muchLater : State := @finalState rfc3339 later closedMeanwhile.

(** Two goroutines log through a synchronous manager: goroutine 1
    writes [started], goroutine 2 writes [second] and returns, then
    goroutine 1 returns. *)
Definition syncTwo : list Label :=
  [LCall 1 LevelInfo "started" noon; LCall 2 LevelWarn "second" noon;
   LCopy 2; LReturn 2; LCopy 1; LReturn 1].
Definition syncWritten : State := @finalState rfc3339 syncTwo (init syncManager).

End Examples.

(** ** What holds in every state of an asynchronous manager *)

Module Invariant.
Import time Logger Logger.logManagerImpl Logger.Sched.

(** The entry a stuck worker has taken from the channel and not written. *)
Definition inflight (w : Worker) : list LogEntry :=
  match w with
  | Stuck entry => [entry]
  | _ => []
  end.

(** The fields [NewLogManager] sets for asynchronous mode stay set, and
    the channel never holds more than its capacity of 1000. *)
Definition shaped (s : State) : Prop :=
  isAsync (lm s) = true
  /\ (exists ch, logChannel (lm s) = Some ch
                 /\ cap ch = queueCapacity /\ length (buf ch) <= cap ch)
  /\ (exists b, backend (lm s) = Some b)
  /\ (exists d, done (lm s) = Some d).

(** First in, first out: the accepted entries are the written ones, then
    the one a stuck worker holds, then the queued ones. *)
Definition fifo (s : State) : Prop :=
  map snd (accepted (trace s))
  = (written (trace s) ++ inflight (worker s) ++ queued s)%list.

Definition closeCalled (tr : list Event) : bool :=
  existsb (fun ev => match ev with EvCloseCalled => true | _ => false end) tr.

Definition draining (w : Worker) : bool :=
  match w with
  | Select Draining | Notifying Draining _ | Exited => true
  | _ => false
  end.

(** The shutdown protocol: [done] is closed exactly once [Close] has been
    called; the worker drains only after that; the wait group counts the
    worker; [Close] returns only after the worker; and a worker that has
    returned has written everything accepted before the call of [Close]. *)
Definition closing (s : State) : Prop :=
  (closeCalled (trace s) = match closer s with NotCalled => false | _ => true end)
  /\ done (lm s) = Some (closeCalled (trace s))
  /\ (draining (worker s) = true -> closeCalled (trace s) = true)
  /\ wg (lm s) = match worker s with Exited => 0 | _ => 1 end
  /\ (forall r, closer s = Returned r -> worker s = Exited)
  /\ (worker s = Exited ->
      exists more, written (trace s)
                   = (map snd (accepted (beforeClose (trace s))) ++ more)%list).

(** The worker moves between its [select] and its handlers, or not at all. *)
Definition sameLoop (w w' : Worker) : Prop :=
  (draining w' = true -> draining w = true) /\ (w = Exited <-> w' = Exited).

(** A file backend that has given up its file and its mutex. *)
Definition closedBackend (b : LogBackend) : Prop :=
  match b with
  | FileB fb => FileBackend.mu fb = false /\ FileBackend.file fb = None
  | SQLB _ => True
  end.

(** Once [Close] has returned, the channel and the backend are closed. *)
Definition afterClose (s : State) : Prop :=
  forall r, closer s = Returned r ->
    channelClosed (lm s) = true
    /\ exists b, backend (lm s) = Some b /\ closedBackend b.

(** Every waiting call has waited for at most the timeout, and a
    goroutine waits in at most one call. *)
Definition timed (s : State) : Prop :=
  NoDup (map who (blocked s))
  /\ Forall (fun q => since q <= clock s <= since q + backpressureTimeout) (blocked s).

End Invariant.

(** ** The log file and the handlers, read off a run *)

Module Journal.
Import time Logger Logger.logManagerImpl Logger.Sched.

(** Entries whose [Write] returned nil, in the order of the calls. *)
Fixpoint stored (tr : list Event) : list LogEntry :=
  match tr with
  | [] => []
  | EvWrite entry None :: tr' => entry :: stored tr'
  | _ :: tr' => stored tr'
  end.

(** The calls of [Handle], in order: which handler, for which entry. *)
Fixpoint handled (tr : list Event) : list (LogHandler * LogEntry) :=
  match tr with
  | [] => []
  | EvHandle h entry :: tr' => (h, entry) :: handled tr'
  | _ :: tr' => handled tr'
  end.

(** Every handler of [hs], in order, for each entry in turn. *)
Definition fanout (hs : list LogHandler) (entries : list LogEntry)
  : list (LogHandler * LogEntry) :=
  flat_map (fun e => map (fun h => (h, e)) hs) entries.

(** The state a call leaves, returned or not. *)
Definition stateOf {S A : Type} (o : Outcome S A) : S :=
  match o with Ret _ s => s | Hang s => s end.

(** What the file at the path of a file backend holds. *)
Definition contentOf (b : LogBackend) : option string :=
  match b with
  | FileB fb => content (FileBackend.disk fb)
  | SQLB _ => None
  end.

Definition fileOf (x : logManagerImpl.t) : option string :=
  match backend x with
  | Some b => contentOf b
  | None => None
  end.

(** What a disk holds at the path, nothing when there is no file. *)
Definition initial (d : Disk) : string :=
  match content d with Some c => c | None => "" end.

Definition isRegister (l : Label) : bool :=
  match l with LRegister _ => true | _ => false end.

(** Whether the device of a file backend's log file is failing. *)
Definition deviceOf (b : LogBackend) : option bool :=
  match b with
  | FileB fb => Some (failing (FileBackend.disk fb))
  | SQLB _ => None
  end.

(** The steps of the environment. *)
Definition isFault (l : Label) : bool :=
  match l with LFault _ => true | _ => false end.

(** The handlers a schedule registers, in order. *)
Fixpoint registered (ls : list Label) : list LogHandler :=
  match ls with
  | [] => []
  | LRegister h :: ls' => h :: registered ls'
  | _ :: ls' => registered ls'
  end.

(** Which implementation a backend is, by the name [Config.Backend] has for it. *)
Definition kindOf (b : LogBackend) : BackendType :=
  match b with FileB _ => BackendFile | SQLB _ => BackendSQL end.

Section WithLayout.
Context {layout : RFC3339}.

(** The lines [Write] formats for the entries, one after the other. *)
Fixpoint linesOf (entries : list LogEntry) : string :=
  match entries with
  | [] => ""
  | e :: entries' => (FileBackend.formatLine e ++ linesOf entries')%string
  end.

(** The file holds what it held at the start, then the lines of the
    entries stored since. *)
Definition journal (c0 : string) (s : State) : Prop :=
  fileOf (lm s) = Some (c0 ++ linesOf (stored (trace s)))%string.

End WithLayout.
End Journal.

(** ** What holds in every state of an asynchronous manager, action by action *)

Module Ordering.
Import time Logger Logger.logManagerImpl Logger.Interleaving.

(** The places of the sends of goroutine [p] in the order of the channel. *)
Fixpoint slotsFrom (n : nat) (p : Producer) (l : list (Producer * LogEntry)) : list nat :=
  match l with
  | [] => []
  | pe :: l' =>
      if fst pe =? p then n :: slotsFrom (S n) p l' else slotsFrom (S n) p l'
  end.

Definition slots (p : Producer) (l : list (Producer * LogEntry)) : list nat :=
  slotsFrom 0 p l.

(** The entry the worker has received and not yet handed to [Write], or
    is blocked in [Write] with. *)
Definition held (w : Worker) : list LogEntry :=
  match w with
  | Holding _ entry | Stuck entry => [entry]
  | _ => []
  end.

(** The entry of a call whose send went through and whose [return nil]
    is still to come. *)
Definition pendingNil (p : Producer) (s : State) : list LogEntry :=
  match callOf p s with
  | Some (Returning entry None) => [entry]
  | _ => []
  end.

(** The states of a call in asynchronous mode. *)
Definition asyncCall (c : Call) : bool :=
  match c with
  | Selecting _ _ | Returning _ _ | Panicked => true
  | _ => false
  end.

Definition shaped (s : State) : Prop :=
  isAsync (lm s) = true
  /\ (exists ch, logChannel (lm s) = Some ch
                 /\ cap ch = queueCapacity /\ length (buf ch) <= cap ch)
  /\ (exists b, backend (lm s) = Some b)
  /\ (exists d, done (lm s) = Some d)
  /\ forallb (fun pc => asyncCall (snd pc)) (calls s) = true.

(** First in, first out: the entries sent are, in the order of the
    channel, the entries handed to [Write], then the one the worker
    holds, then the queued ones. *)
Definition fifo (s : State) : Prop :=
  map snd (sent (trace s)) = (written (trace s) ++ held (worker s) ++ queued s)%list.

(** The calls of one goroutine follow one another: the entries its
    calls returned nil for are its sends, in order, but for the last
    send when its return is still to come. *)
Definition ordered (s : State) : Prop :=
  forall p, entriesBy p (sent (trace s))
            = (entriesBy p (accepted (trace s)) ++ pendingNil p s)%list.

(** The same of the part of the run before the call of [Close]. *)
Definition orderedBefore (s : State) : Prop :=
  forall p, exists pend,
    entriesBy p (sent (beforeClose (trace s)))
    = (entriesBy p (accepted (beforeClose (trace s))) ++ pend)%list.

Definition draining (w : Worker) : bool :=
  match w with
  | Select Draining | Holding Draining _ | Copying Draining _ | Notifying Draining _ _
  | Leaving | Exited => true
  | _ => false
  end.

Definition gone (w : Worker) : bool :=
  match w with Leaving | Exited => true | _ => false end.

Definition pastWait (c : Closer) : bool :=
  match c with NotCalled | Waiting => false | _ => true end.

Definition pastBackend (c : Closer) : bool :=
  match c with Closed _ | Finished _ => true | _ => false end.

(** The shutdown protocol: [done] is closed exactly once [Close] has been
    called; the worker drains only after that; the wait group counts the
    worker until its [wg.Done()]; [Close] gets past [wg.Wait()] only
    after that; and a worker that has left its loop has written every
    entry sent before the call of [Close]. *)
Definition closing (s : State) : Prop :=
  (closeCalled (trace s) = match closer s with NotCalled => false | _ => true end)
  /\ done (lm s) = Some (closeCalled (trace s))
  /\ (draining (worker s) = true -> closeCalled (trace s) = true)
  /\ wg (lm s) = match worker s with Exited => 0 | _ => 1 end
  /\ (pastWait (closer s) = true -> worker s = Exited)
  /\ (gone (worker s) = true ->
      exists more, written (trace s)
                   = (map snd (sent (beforeClose (trace s))) ++ more)%list).

(** Past [close(lm.logChannel)] the channel is closed, and past the
    backend's [Close] the backend is. *)
Definition afterClose (s : State) : Prop :=
  (pastWait (closer s) = true -> closer s <> Woken ->
   Sched.channelClosed (lm s) = true)
  /\ (pastBackend (closer s) = true ->
      exists b, backend (lm s) = Some b /\ Invariant.closedBackend b).

(** With the handlers [hs] registered and no other, the worker has
    called each of them, in order, for each entry it has written, but for
    the calls it still owes for the last one. *)
Definition owed (hs : list LogHandler) (w : Worker) : list (LogHandler * LogEntry) :=
  match w with
  | Copying _ entry => map (fun h => (h, entry)) hs
  | Notifying _ entry rest => map (fun h => (h, entry)) rest
  | _ => []
  end.

Definition served (hs : list LogHandler) (s : State) : Prop :=
  handlers (lm s) = hs
  /\ (handled (trace s) ++ owed hs (worker s))%list
     = Journal.fanout hs (written (trace s)).

Definition isRegister (l : Label) : bool :=
  match l with LRegister _ => true | _ => false end.

(** All of it, as it holds in every state of an asynchronous manager. *)
Definition sound (s : State) : Prop :=
  shaped s /\ fifo s /\ ordered s /\ closing s /\ afterClose s /\ orderedBefore s.

(** *** Synchronous mode *)

(** Entries whose [Write] returned nil, in the order of the calls. *)
Fixpoint stored (tr : list Event) : list LogEntry :=
  match tr with
  | [] => []
  | Wrote entry None :: tr' => entry :: stored tr'
  | _ :: tr' => stored tr'
  end.

(** The states of a call in synchronous mode. *)
Definition syncCall (c : Call) : bool :=
  match c with
  | Selecting _ _ | Panicked => false
  | _ => true
  end.

(** The entry of a call in synchronous mode whose [Write] has returned
    nil and whose [return nil] is still to come. *)
Definition unreturned (c : Call) : list LogEntry :=
  match c with
  | Written entry | Handling entry _ | Returning entry None => [entry]
  | _ => []
  end.

Definition unreturnedOf (cs : list (Producer * Call)) : list LogEntry :=
  flat_map (fun pc => unreturned (snd pc)) cs.

(** A synchronous manager: no worker, no channel, and every call on the
    synchronous path. *)
Definition direct (s : State) : Prop :=
  isAsync (lm s) = false /\ worker s = Exited /\ logChannel (lm s) = None
  /\ (exists b, backend (lm s) = Some b)
  /\ forallb (fun pc => syncCall (snd pc)) (calls s) = true
  /\ NoDup (map fst (calls s)).

(** The entries stored are the entries of the calls that returned nil and
    of the calls that have written and not yet returned, each as often. *)
Definition tally (s : State) : Prop :=
  Permutation (stored (trace s))
              (map snd (accepted (trace s)) ++ unreturnedOf (calls s)).

Definition isFault (l : Label) : bool :=
  match l with LFault _ => true | _ => false end.

Section WithLayout.
Context {layout : RFC3339}.

(** The file holds what it held at the start, then the lines of the
    entries stored since. *)
Definition journal (c0 : string) (s : State) : Prop :=
  Journal.fileOf (lm s) = Some (c0 ++ Journal.linesOf (stored (trace s)))%string.

End WithLayout.

End Ordering.

(* ================================================================== *)
(** * Proofs *)
(* ================================================================== *)

(** ** The order of instants *)

Module TimeFacts.
Import time.
Local Open Scope Z_scope.

Lemma Before_lt (t u : Time) : Before t u = true <-> lt t u.
Proof.
  unfold Before, lt.
  rewrite orb_true_iff, andb_true_iff, !Z.ltb_lt, Z.eqb_eq. tauto.
Qed.

Lemma After_lt (t u : Time) : After t u = true <-> lt u t.
Proof.
  unfold After, lt.
  rewrite orb_true_iff, andb_true_iff, !Z.gtb_lt, Z.eqb_eq.
  intuition lia.
Qed.

Lemma le_not_lt (t u : Time) : le t u <-> ~ lt u t.
Proof. unfold le, lt. lia. Qed.

Lemma le_refl (t : Time) (z : Z) : le t (inZone z t) /\ le (inZone z t) t.
Proof. unfold le, inZone; simpl. lia. Qed.

Lemma Before_false_le (t u : Time) : Before t u = false <-> le u t.
Proof.
  rewrite le_not_lt, <- Before_lt. destruct (Before t u); intuition congruence.
Qed.

Lemma After_false_le (t u : Time) : After t u = false <-> le t u.
Proof.
  rewrite le_not_lt, <- After_lt. destruct (After t u); intuition congruence.
Qed.

Lemma leb_le (t u : Time) : Spec.leb t u = true <-> le t u.
Proof.
  unfold Spec.leb, le.
  rewrite orb_true_iff, andb_true_iff, Z.ltb_lt, Z.eqb_eq, Z.leb_le. tauto.
Qed.

End TimeFacts.

(** ** Filtering: [applyFilter] and the level test of [Read] *)

Module FilterProps.
Import time Logger TimeFacts.

Lemma eqb_empty (s : string) : (s =? "")%string = true <-> s = "".
Proof. apply String.eqb_eq. Qed.

Lemma applyFilter_spec (entry : LogEntry) (filter : LogFilter) :
  FileBackend.applyFilter entry filter = true <->
    (Contains filter = "" \/ strings.Contains (Message entry) (Contains filter) = true)
    /\ (forall start, StartTime filter = Some start -> ~ lt (Timestamp entry) start)
    /\ (forall stop, EndTime filter = Some stop -> ~ lt stop (Timestamp entry)).
Proof.
  unfold FileBackend.applyFilter.
  destruct filter as [st en sub]; simpl.
  destruct (String.eqb_spec sub "") as [->|Hsub]; simpl.
  - destruct st as [start|], en as [stop|]; simpl;
      repeat match goal with
             | |- context [Before ?a ?b] =>
                 let H := fresh in
                 destruct (Before a b) eqn:H;
                 [apply Before_lt in H | apply Before_false_le, le_not_lt in H]
             | |- context [After ?a ?b] =>
                 let H := fresh in
                 destruct (After a b) eqn:H;
                 [apply After_lt in H | apply After_false_le, le_not_lt in H]
             end;
      split; intros HH; try discriminate; try reflexivity;
      try (split; [now left | split; intros ? [= <-]; assumption]);
      try (split; [now left | split; intros ? [=]]);
      try (split; [now left | split; [intros ? [=] | intros ? [= <-]; assumption]]);
      try (destruct HH as (_ & H1 & H2);
           first [ now exfalso; eapply H1; eauto | now exfalso; eapply H2; eauto ]).
  - destruct (strings.Contains (Message entry) sub) eqn:Hc; simpl.
    + destruct st as [start|], en as [stop|]; simpl;
      repeat match goal with
             | |- context [Before ?a ?b] =>
                 let H := fresh in
                 destruct (Before a b) eqn:H;
                 [apply Before_lt in H | apply Before_false_le, le_not_lt in H]
             | |- context [After ?a ?b] =>
                 let H := fresh in
                 destruct (After a b) eqn:H;
                 [apply After_lt in H | apply After_false_le, le_not_lt in H]
             end;
      split; intros HH; try discriminate; try reflexivity;
      try (split; [now right | split; intros ? [= <-]; assumption]);
      try (split; [now right | split; intros ? [=]]);
      try (split; [now right | split; [intros ? [=] | intros ? [= <-]; assumption]]);
      try (destruct HH as (_ & H1 & H2);
           first [ now exfalso; eapply H1; eauto | now exfalso; eapply H2; eauto ]).
    + split; [discriminate|]. intros ([?|?] & _); congruence.
Qed.

(** C10.  The time bounds of a [LogFilter] are inclusive on both sides:
    [applyFilter] excludes an entry on account of [StartTime] only when
    its timestamp is strictly before it, and on account of [EndTime]
    only when its timestamp is strictly after it; an entry whose
    timestamp is the same instant as the bound passes. *)
Theorem applyFilter_bounds_inclusive :
  forall (entry : LogEntry) (filter : LogFilter),
    (FileBackend.applyFilter entry filter = true <->
       (Contains filter = "" \/ strings.Contains (Message entry) (Contains filter) = true)
       /\ (forall start, StartTime filter = Some start -> ~ lt (Timestamp entry) start)
       /\ (forall stop, EndTime filter = Some stop -> ~ lt stop (Timestamp entry)))
    /\ (forall z, FileBackend.applyFilter entry
                    (mkFilter (Some (inZone z (Timestamp entry))) None "") = true)
    /\ (forall z, FileBackend.applyFilter entry
                    (mkFilter None (Some (inZone z (Timestamp entry))) "") = true).
Proof.
  intros entry filter. split; [apply applyFilter_spec|].
  split; intros z; apply applyFilter_spec; simpl;
    (split; [now left|]); split; intros ? [= <-];
    unfold lt, inZone; simpl; lia.
Qed.

End FilterProps.

(** ** [Read]: one pass over the lines, keeping what the level and the filter admit *)

Module ReadProps.
Import time Logger TimeFacts FilterProps ReadView.

Section WithLayout.
Context {layout : RFC3339}.

Lemma scanLoop_filter (toks : list string) (level : LogLevel) (filter : LogFilter) :
  forall results,
    FileBackend.scanLoop toks level filter results
    = (results ++ List.filter (admits level filter) (parsed toks))%list.
Proof.
  induction toks as [|line toks IH]; intros results; simpl.
  - now rewrite app_nil_r.
  - destruct (FileBackend.parseLine line) as [entry|]; [|apply IH].
    simpl. destruct (admits level filter entry) eqn:Ha; unfold admits in Ha.
    + apply andb_true_iff in Ha. destruct Ha as [Hl Hf].
      apply negb_true_iff in Hl. rewrite Hl, Hf. simpl.
      rewrite IH, <- app_assoc. reflexivity.
    + destruct (negb (level =? "")%string && negb (Level entry =? level)%string);
        simpl in *; [apply IH|].
      rewrite Ha. simpl. apply IH.
Qed.

Lemma admits_all (entry : LogEntry) : admits "" noFilter entry = true.
Proof. reflexivity. Qed.

Lemma scanLoop_all (toks : list string) :
  FileBackend.scanLoop toks "" noFilter [] = parsed toks.
Proof.
  rewrite scanLoop_filter. simpl.
  induction (parsed toks) as [|e l IH]; simpl; [reflexivity|].
  now rewrite IH.
Qed.

Lemma admits_satisfiesb (level : LogLevel) (filter : LogFilter) (entry : LogEntry) :
  admits level filter entry = Spec.satisfiesb level filter entry.
Proof.
  unfold admits, Spec.satisfiesb, FileBackend.applyFilter.
  destruct filter as [st en sub]; simpl.
  destruct (level =? "")%string, (Level entry =? level)%string,
    (sub =? "")%string, (strings.Contains (Message entry) sub); simpl;
    try reflexivity;
    destruct st as [start|], en as [stop|]; simpl; try reflexivity;
    repeat match goal with
      | |- context [Before ?a ?b] =>
          let H := fresh in
          destruct (Before a b) eqn:H;
          [apply Before_lt in H | apply Before_false_le in H]
      | |- context [After ?a ?b] =>
          let H := fresh in
          destruct (After a b) eqn:H;
          [apply After_lt in H | apply After_false_le in H]
      end; simpl;
    repeat match goal with
      | |- context [Spec.leb ?a ?b] =>
          let H := fresh in
          destruct (Spec.leb a b) eqn:H;
          [apply leb_le in H | apply not_true_iff_false in H; rewrite leb_le in H]
      end; simpl; try reflexivity;
    repeat match goal with
      | H : le _ _ |- _ => apply le_not_lt in H
      | H : ~ le _ _ |- _ => rewrite le_not_lt in H
      end; tauto.
Qed.

Lemma satisfiesb_spec (level : LogLevel) (filter : LogFilter) (entry : LogEntry) :
  Spec.satisfiesb level filter entry = true <-> Spec.satisfies level filter entry.
Proof.
  unfold Spec.satisfiesb, Spec.satisfies.
  rewrite !andb_true_iff, !orb_true_iff, !String.eqb_eq.
  destruct filter as [st en sub]; simpl.
  split.
  - intros (((Hl & Hc) & Hs) & He). repeat split.
    + tauto.
    + tauto.
    + intros start [= ->]. now apply leb_le.
    + intros stop [= ->]. now apply leb_le.
  - intros (Hl & Hc & Hs & He). repeat split.
    + destruct (String.eqb_spec level ""); auto.
    + destruct (String.eqb_spec sub ""); auto.
    + destruct st; [apply leb_le; auto | reflexivity].
    + destruct en; [apply leb_le; auto | reflexivity].
Qed.

Lemma FileBackend_Read_restrict (level : LogLevel) (filter : LogFilter) (fb : FileBackend.t) :
  FileBackend.Read level filter fb
  = Spec.restrict (Spec.satisfiesb level filter) (FileBackend.Read "" noFilter fb).
Proof.
  unfold FileBackend.Read, FileBackend.locked, FileBackend.Lock, FileBackend.Unlock,
    bind, ret.
  destruct (FileBackend.mu fb); [reflexivity|].
  cbn [FileBackend.file FileBackend.set_mu].
  destruct (FileBackend.file fb); [|reflexivity].
  destruct (os_Open _ _) as [data|err]; [|reflexivity].
  destruct (bufio.Scan data) as [toks [err|]]; [reflexivity|].
  simpl. rewrite scanLoop_all, scanLoop_filter. simpl.
  do 2 f_equal. apply filter_ext. intros e. apply admits_satisfiesb.
Qed.

End WithLayout.
End ReadProps.

(** ** Facts about the library functions *)

Module StringFacts.
Import strings.

Lemma app_nil_r (s : string) : s ++ "" = s.
Proof. induction s; simpl; congruence. Qed.

Lemma app_assoc (a b c : string) : (a ++ b) ++ c = a ++ (b ++ c).
Proof. induction a; simpl; congruence. Qed.

(** Appends nested to the right, literals pushed through. *)
Ltac norm_app := repeat first [ rewrite app_assoc | progress cbn [append] ].

Lemma length_app (a b : string) :
  String.length (a ++ b) = String.length a + String.length b.
Proof. induction a; simpl; congruence. Qed.

Lemma app_inv_head (a b c : string) : a ++ b = a ++ c -> b = c.
Proof. induction a; simpl; intros H; [assumption | injection H; auto]. Qed.

Lemma srev_onto_app (s acc : string) : srev_onto s acc = srev s ++ acc.
Proof.
  unfold srev. revert acc.
  induction s as [|c s IH]; intros acc; simpl; [reflexivity|].
  rewrite IH, (IH (String c "")), app_assoc. reflexivity.
Qed.

Lemma srev_cons (c : ascii) (s : string) : srev (String c s) = srev s ++ String c "".
Proof. unfold srev at 1. simpl. apply srev_onto_app. Qed.

Lemma srev_app (a b : string) : srev (a ++ b) = srev b ++ srev a.
Proof.
  induction a as [|c a IH]; simpl.
  - now rewrite app_nil_r.
  - now rewrite !srev_cons, IH, app_assoc.
Qed.

Lemma srev_involutive (s : string) : srev (srev s) = s.
Proof.
  induction s as [|c s IH]; [reflexivity|].
  now rewrite srev_cons, srev_app, IH.
Qed.

Lemma srev_length (s : string) : String.length (srev s) = String.length s.
Proof.
  induction s as [|c s IH]; [reflexivity|].
  rewrite srev_cons, length_app, IH. simpl. lia.
Qed.

Lemma srev_inj (a b : string) : srev a = srev b -> a = b.
Proof. intros H. rewrite <- (srev_involutive a), H. apply srev_involutive. Qed.

Lemma take_app (a b : string) : take (String.length a) (a ++ b) = a.
Proof. induction a; simpl; [now destruct b | congruence]. Qed.

Lemma drop_app (a b : string) : drop (String.length a) (a ++ b) = b.
Proof. induction a; simpl; auto. Qed.

Lemma take_drop (n : nat) (s : string) : take n s ++ drop n s = s.
Proof.
  revert s. induction n as [|n IH]; intros [|c s]; simpl; try reflexivity.
  now rewrite IH.
Qed.

Lemma HasPrefix_app (p s : string) : HasPrefix (p ++ s) p = true.
Proof. induction p; simpl; [reflexivity|]. now rewrite Ascii.eqb_refl. Qed.

Lemma HasPrefix_spec (s p : string) :
  HasPrefix s p = true <-> exists r, s = p ++ r.
Proof.
  split.
  - revert s. induction p as [|c p IH]; intros s H.
    + now exists s.
    + destruct s as [|d s]; [discriminate|]. simpl in H.
      apply andb_true_iff in H. destruct H as [Hc Hp].
      apply Ascii.eqb_eq in Hc. subst d.
      destruct (IH _ Hp) as [r ->]. now exists r.
  - intros [r ->]. apply HasPrefix_app.
Qed.

Lemma Index1_cons (c d : ascii) (s : string) :
  Index (String d s) (String c "")
  = if Ascii.eqb d c then Some 0 else option_map S (Index s (String c "")).
Proof. simpl. rewrite andb_true_r. destruct (Ascii.eqb d c); reflexivity. Qed.

Lemma lacks_nil (c : ascii) : lacks c "".
Proof. reflexivity. Qed.

Lemma lacks_cons (c d : ascii) (s : string) :
  lacks c (String d s) <-> d <> c /\ lacks c s.
Proof.
  unfold lacks. rewrite Index1_cons.
  destruct (Ascii.eqb_spec d c) as [->|Hn].
  - split; [discriminate | intros [H _]; congruence].
  - destruct (Index s (String c "")); simpl; split;
      intros H; try discriminate; try tauto.
    destruct H; discriminate.
Qed.

Lemma lacks_app (c : ascii) (a b : string) :
  lacks c (a ++ b) <-> lacks c a /\ lacks c b.
Proof.
  induction a as [|d a IH]; simpl.
  - split; [intros H; split; [apply lacks_nil | assumption] | tauto].
  - rewrite !lacks_cons, IH. tauto.
Qed.

Lemma Index1_app (c : ascii) (a b : string) :
  lacks c a -> Index (a ++ String c b) (String c "") = Some (String.length a).
Proof.
  induction a as [|d a IH]; intros H.
  - simpl. now rewrite Ascii.eqb_refl.
  - apply lacks_cons in H. destruct H as [Hd Ha].
    cbn [append]. rewrite Index1_cons.
    apply Ascii.eqb_neq in Hd. rewrite Hd, (IH Ha). reflexivity.
Qed.

Lemma Index1_Some (c : ascii) (s : string) (n : nat) :
  Index s (String c "") = Some n ->
  exists a b, s = a ++ String c b /\ lacks c a /\ String.length a = n.
Proof.
  revert n. induction s as [|d s IH]; intros n H.
  - discriminate.
  - rewrite Index1_cons in H.
    destruct (Ascii.eqb_spec d c) as [->|Hn].
    + injection H as <-. exists "", s. repeat split.
    + destruct (Index s (String c "")) as [m|] eqn:Hm; [|discriminate].
      injection H as <-.
      destruct (IH m eq_refl) as (a & b & -> & Ha & Hl).
      exists (String d a), b. repeat split.
      * apply lacks_cons. auto.
      * simpl. congruence.
Qed.

Lemma spaces_length (n : nat) : String.length (spaces n) = n.
Proof. induction n; simpl; congruence. Qed.

Lemma lacks_spaces (c : ascii) (n : nat) : c <> SP -> lacks c (spaces n).
Proof.
  intros H. induction n; simpl; [apply lacks_nil|].
  apply lacks_cons. split; [congruence | assumption].
Qed.


(** *** Trimming *)

Section TrimFront.
Variable two : ascii -> ascii -> bool.
Variable three : ascii -> ascii -> ascii -> bool.
(** No byte of a space of two or three bytes is below 128. *)
Hypothesis two_high : forall a b, two a b = true -> low a = false /\ low b = false.
Hypothesis three_high :
  forall a b c, three a b c = true -> low a = false /\ low b = false /\ low c = false.

Lemma asciiSpace_low (c : ascii) : asciiSpace c = true -> low c = true.
Proof.
  unfold asciiSpace, low. intros H.
  repeat (apply orb_true_iff in H; destruct H as [H|H]);
    apply Nat.eqb_eq in H; rewrite H; reflexivity.
Qed.

Lemma two_low_l (a b : ascii) : low a = true -> two a b = false.
Proof.
  intros H. destruct (two a b) eqn:E; [|reflexivity].
  apply two_high in E. destruct E; congruence.
Qed.

Lemma two_low_r (a b : ascii) : low b = true -> two a b = false.
Proof.
  intros H. destruct (two a b) eqn:E; [|reflexivity].
  apply two_high in E. destruct E; congruence.
Qed.

Lemma three_low_1 (a b c : ascii) : low a = true -> three a b c = false.
Proof.
  intros H. destruct (three a b c) eqn:E; [|reflexivity].
  apply three_high in E. destruct E as (? & ? & ?); congruence.
Qed.

Lemma three_low_2 (a b c : ascii) : low b = true -> three a b c = false.
Proof.
  intros H. destruct (three a b c) eqn:E; [|reflexivity].
  apply three_high in E. destruct E as (? & ? & ?); congruence.
Qed.

Lemma three_low_3 (a b c : ascii) : low c = true -> three a b c = false.
Proof.
  intros H. destruct (three a b c) eqn:E; [|reflexivity].
  apply three_high in E. destruct E as (? & ? & ?); congruence.
Qed.

Lemma trimFront_length_le (n : nat) :
  forall s, String.length s <= n ->
            String.length (trimFront two three s) <= String.length s.
Proof.
  induction n as [|n IH]; intros s Hn.
  - destruct s; [simpl; lia | simpl in Hn; lia].
  - destruct s as [|a [|b [|c s3]]]; simpl in *; try lia.
    + destruct (asciiSpace a); simpl; lia.
    + destruct (asciiSpace a); [|destruct (two a b)]; simpl; try lia.
      destruct (asciiSpace b); simpl; lia.
    + destruct (asciiSpace a).
      * specialize (IH (String b (String c s3))). simpl in IH.
        etransitivity; [apply IH; lia | lia].
      * destruct (two a b).
        -- specialize (IH (String c s3)). simpl in IH.
           etransitivity; [apply IH; lia | lia].
        -- destruct (three a b c); [|simpl; lia].
           specialize (IH s3). etransitivity; [apply IH; lia | lia].
Qed.

Lemma trimFront_length (s : string) :
  String.length (trimFront two three s) <= String.length s.
Proof. apply (trimFront_length_le (String.length s)). lia. Qed.

Lemma trimFront_suffix_le (n : nat) :
  forall s, String.length s <= n -> exists p, s = p ++ trimFront two three s.
Proof.
  induction n as [|n IH]; intros s Hn.
  - destruct s; [now exists "" | simpl in Hn; lia].
  - destruct s as [|a [|b [|c s3]]]; simpl in *.
    + now exists "".
    + destruct (asciiSpace a); [now exists (String a "") | now exists ""].
    + destruct (asciiSpace a).
      * destruct (asciiSpace b);
          [now exists (String a (String b "")) | now exists (String a "")].
      * destruct (two a b); [now exists (String a (String b "")) | now exists ""].
    + destruct (asciiSpace a).
      * destruct (IH (String b (String c s3))) as [p Hp]; [simpl; lia|].
        exists (String a p). simpl in *. now rewrite <- Hp.
      * destruct (two a b).
        -- destruct (IH (String c s3)) as [p Hp]; [simpl; lia|].
           exists (String a (String b p)). simpl in *. now rewrite <- Hp.
        -- destruct (three a b c); [|now exists ""].
           destruct (IH s3) as [p Hp]; [lia|].
           exists (String a (String b (String c p))). simpl. now rewrite <- Hp.
Qed.

Lemma trimFront_suffix (s : string) : exists p, s = p ++ trimFront two three s.
Proof. apply (trimFront_suffix_le (String.length s)). lia. Qed.

(** A scan that drops nothing is a scan of a string with no space in front. *)
Lemma trimFront_fix (s : string) :
  trimFront two three s = s <-> lead two three s = false.
Proof.
  destruct s as [|a s1]; [simpl; tauto|].
  split.
  - intros H. simpl in *.
    destruct (asciiSpace a).
    + pose proof (trimFront_length s1) as L. rewrite H in L. simpl in L. lia.
    + simpl. destruct s1 as [|b s2]; [reflexivity|].
      destruct (two a b).
      * pose proof (trimFront_length s2) as L. rewrite H in L. simpl in L. lia.
      * simpl. destruct s2 as [|c s3]; [reflexivity|].
        destruct (three a b c); [|reflexivity].
        pose proof (trimFront_length s3) as L. rewrite H in L. simpl in L. lia.
  - intros H. simpl in *.
    apply orb_false_iff in H. destruct H as [H1 H]. rewrite H1.
    destruct s1 as [|b s2]; [reflexivity|].
    apply orb_false_iff in H. destruct H as [H2 H]. rewrite H2.
    destruct s2 as [|c s3]; [reflexivity|]. now rewrite H.
Qed.

Lemma trimFront_keep (s : string) :
  lead two three s = false -> trimFront two three s = s.
Proof. apply trimFront_fix. Qed.

Lemma trimFront_spaces (n : nat) (s : string) :
  trimFront two three (spaces n ++ s) = trimFront two three s.
Proof. induction n; simpl; auto. Qed.

(** A low byte that is no space stops the scan. *)
Lemma lead_low (y : ascii) (r : string) :
  low y = true -> lead two three (String y r) = asciiSpace y.
Proof.
  intros H. simpl. destruct r as [|b [|c r]].
  - apply orb_false_r.
  - now rewrite (two_low_l y b H), !orb_false_r.
  - now rewrite (two_low_l y b H), (three_low_1 y b c H), !orb_false_r.
Qed.

(** What follows a string does not matter, when it starts with a low byte. *)
Lemma lead_app_low (s : string) (y : ascii) (r : string) :
  s <> "" -> low y = true ->
  lead two three (s ++ String y r) = lead two three s.
Proof.
  intros Hs Hy. destruct s as [|a [|b [|c s3]]]; [congruence | | | reflexivity].
  - simpl. rewrite (two_low_r a y Hy). destruct r; simpl.
    + now rewrite !orb_false_r.
    + now rewrite (three_low_2 a y a0 Hy).
  - simpl. now rewrite (three_low_3 a b y Hy).
Qed.

End TrimFront.


Lemma eqb_val (c : ascii) (n : nat) : (byte_val c =? n) = true -> byte_val c = n.
Proof. apply Nat.eqb_eq. Qed.

Lemma space2_high (a b : ascii) :
  space2 a b = true -> low a = false /\ low b = false.
Proof.
  unfold space2, low. intros H.
  apply andb_true_iff in H. destruct H as [Ha Hb].
  apply eqb_val in Ha. rewrite Ha. split; [reflexivity|].
  apply orb_true_iff in Hb. destruct Hb as [Hb|Hb];
    apply eqb_val in Hb; rewrite Hb; reflexivity.
Qed.

Lemma space3_high (a b c : ascii) :
  space3 a b c = true -> low a = false /\ low b = false /\ low c = false.
Proof.
  unfold space3, low. cbv zeta. intros H.
  repeat (apply orb_true_iff in H; destruct H as [H|H]);
    repeat (apply andb_true_iff in H; destruct H as [H ?]);
    repeat match goal with
      | E : (byte_val _ =? _) = true |- _ => apply eqb_val in E; rewrite E
      end; try (repeat split; reflexivity).
  (* the range U+2000 .. U+200A *)
  repeat split; try reflexivity.
  match goal with
  | E : _ || _ || _ || _ = true |- _ =>
      repeat (apply orb_true_iff in E; destruct E as [E|E]);
      try (apply eqb_val in E; rewrite E; reflexivity)
  end.
  apply andb_true_iff in H0. destruct H0 as [Hlo _].
  apply Nat.leb_le in Hlo. apply Nat.ltb_ge. lia.
Qed.

Lemma space2_high_rev (a b : ascii) :
  (fun x y => space2 y x) a b = true -> low a = false /\ low b = false.
Proof. intros H. apply space2_high in H. tauto. Qed.

Lemma space3_high_rev (a b c : ascii) :
  (fun x y z => space3 z y x) a b c = true ->
  low a = false /\ low b = false /\ low c = false.
Proof. intros H. apply space3_high in H. tauto. Qed.

Lemma TrimLeft_length (s : string) : String.length (TrimLeft s) <= String.length s.
Proof. apply trimFront_length. Qed.

Lemma TrimRight_length (s : string) : String.length (TrimRight s) <= String.length s.
Proof.
  unfold TrimRight. rewrite srev_length.
  etransitivity; [apply trimFront_length|]. now rewrite srev_length.
Qed.

Lemma TrimLeft_fix (s : string) : TrimLeft s = s <-> leadL s = false.
Proof. apply trimFront_fix. Qed.

Lemma TrimRight_fix (s : string) : TrimRight s = s <-> leadR (srev s) = false.
Proof.
  unfold TrimRight, leadR, TrimLeftRev. rewrite <- trimFront_fix. split; intros H.
  - apply srev_inj. rewrite H. symmetry. apply srev_involutive.
  - rewrite H. apply srev_involutive.
Qed.

(** A string that [TrimSpace] leaves alone has no space at either end. *)
Lemma TrimSpace_fix (s : string) :
  TrimSpace s = s -> TrimLeft s = s /\ TrimRight s = s.
Proof.
  unfold TrimSpace. intros H.
  assert (HL : TrimLeft s = s).
  { destruct (trimFront_suffix space2 space3 s) as [p Hp].
    fold (TrimLeft s) in Hp.
    pose proof (TrimRight_length (TrimLeft s)) as L1.
    rewrite H in L1.
    assert (String.length s = String.length (p ++ TrimLeft s)) as L2 by congruence.
    rewrite length_app in L2.
    destruct p; [simpl in Hp; congruence | simpl in L2; lia]. }
  rewrite HL in H. auto.
Qed.

Lemma TrimSpace_keep (s : string) :
  TrimLeft s = s -> TrimRight s = s -> TrimSpace s = s.
Proof. unfold TrimSpace. intros -> ->. reflexivity. Qed.

Lemma TrimLeft_spaces (n : nat) (s : string) : TrimLeft (spaces n ++ s) = TrimLeft s.
Proof. apply trimFront_spaces. Qed.

Lemma srev_spaces (n : nat) : srev (spaces n) = spaces n.
Proof.
  induction n as [|n IH]; [reflexivity|].
  simpl. rewrite srev_cons, IH. clear IH.
  induction n; simpl; congruence.
Qed.

Lemma TrimRight_spaces (n : nat) (s : string) : TrimRight (s ++ spaces n) = TrimRight s.
Proof.
  unfold TrimRight, TrimLeftRev.
  now rewrite srev_app, srev_spaces, trimFront_spaces.
Qed.

Lemma TrimLeft_app_low (s : string) (y : ascii) (r : string) :
  TrimLeft s = s -> s <> "" -> low y = true ->
  TrimLeft (s ++ String y r) = s ++ String y r.
Proof.
  intros H Hs Hy. apply TrimLeft_fix. unfold leadL.
  rewrite (lead_app_low _ _ space2_high space3_high); auto.
  now apply TrimLeft_fix.
Qed.

Lemma TrimRight_app_low (s : string) (y : ascii) (r : string) :
  TrimRight s = s -> s <> "" -> low y = true ->
  TrimRight (r ++ String y s) = r ++ String y s.
Proof.
  intros H Hs Hy. apply TrimRight_fix.
  rewrite srev_app, srev_cons, app_assoc.
  change (String y "" ++ srev r) with (String y (srev r)).
  unfold leadR.
  rewrite (lead_app_low _ _ space2_high_rev space3_high_rev); auto.
  - now apply TrimRight_fix.
  - intros E. apply Hs. apply srev_inj. now rewrite E.
Qed.

Lemma TrimLeft_low (y : ascii) (r : string) :
  low y = true -> asciiSpace y = false -> TrimLeft (String y r) = String y r.
Proof.
  intros Hy Hn. apply TrimLeft_fix. unfold leadL.
  now rewrite (lead_low _ _ space2_high space3_high).
Qed.

Lemma TrimRight_low (y : ascii) (r : string) :
  low y = true -> asciiSpace y = false ->
  TrimRight (r ++ String y "") = r ++ String y "".
Proof.
  intros Hy Hn. apply TrimRight_fix.
  rewrite srev_app.
  change (srev (String y "") ++ srev r) with (String y (srev r)).
  unfold leadR.
  now rewrite (lead_low _ _ space2_high_rev space3_high_rev).
Qed.


(** *** The text after the timestamp of a written line, trimmed and split *)

Lemma colon_low : low ":" = true.  Proof. reflexivity. Qed.
Lemma SP_low : low SP = true.  Proof. reflexivity. Qed.

Lemma nonempty_last (s : string) :
  s <> "" -> exists r c, s = r ++ String c "".
Proof.
  intros H. destruct (srev s) as [|c r] eqn:E.
  - exfalso. apply H. apply srev_inj. now rewrite E.
  - exists (srev r), c. apply srev_inj. rewrite E, srev_app, srev_involutive.
    reflexivity.
Qed.

Lemma drop_app1 (a : string) (c : ascii) (b : string) :
  drop (String.length a + 1) (a ++ String c b) = b.
Proof. induction a; simpl; auto. Qed.

Lemma SplitN2_colon (p0 p1 : string) :
  lacks ":" p0 -> SplitN2 (p0 ++ String ":" p1) ":" = [p0; p1].
Proof.
  intros H. unfold SplitN2. rewrite (Index1_app _ _ _ H).
  rewrite take_app. cbn [String.length]. now rewrite drop_app1.
Qed.

Lemma SplitN2_two (s p0 p1 : string) :
  SplitN2 s ":" = [p0; p1] -> s = p0 ++ String ":" p1 /\ lacks ":" p0.
Proof.
  unfold SplitN2. destruct (Index s ":") as [m|] eqn:E; [|discriminate].
  destruct (Index1_Some _ _ _ E) as (a & b & -> & Ha & <-).
  rewrite take_app. cbn [String.length]. rewrite drop_app1.
  intros [= <- <-]. auto.
Qed.

Lemma SplitN2_cases (s : string) :
  (exists p0 p1, SplitN2 s ":" = [p0; p1]) \/ SplitN2 s ":" = [s].
Proof.
  unfold SplitN2. destruct (Index s ":"); [left; eauto | now right].
Qed.

(** The part of a line after the closing bracket, as [Write] lays it out:
    a space, the level padded on the right, a colon, a space, the
    message.  Trimmed and cut at the first colon it gives back the level
    and the message, provided they carry no space at their ends and the
    level no colon. *)
Lemma TrimLeft_record (level : string) (k : nat) (msg : string) :
  TrimLeft level = level ->
  TrimLeft (String SP (level ++ spaces k ++ String ":" (String SP msg)))
  = (match level with "" => "" | _ => level ++ spaces k end)
      ++ String ":" (String SP msg).
Proof.
  intros H.
  change (String SP ?x) with (spaces 1 ++ x) at 1.
  rewrite TrimLeft_spaces.
  destruct level as [|a level'] eqn:El.
  - cbn [append]. rewrite TrimLeft_spaces. apply TrimLeft_low; reflexivity.
  - rewrite <- El in *.
    assert (Hne : level <> "") by (rewrite El; discriminate).
    destruct k as [|k]; cbn [spaces append].
    + rewrite app_nil_r. now apply TrimLeft_app_low.
    + rewrite (TrimLeft_app_low level SP); auto.
      now rewrite app_assoc.
Qed.

Lemma TrimSpace_padded (level : string) (k : nat) :
  TrimLeft level = level -> TrimRight level = level ->
  TrimSpace (match level with "" => "" | _ => level ++ spaces k end) = level.
Proof.
  intros HL HR. destruct level as [|a level'] eqn:El; [reflexivity|].
  rewrite <- El in *.
  assert (Hne : level <> "") by (rewrite El; discriminate).
  unfold TrimSpace.
  assert (TrimLeft (level ++ spaces k) = level ++ spaces k) as ->.
  { destruct k; cbn [spaces]; [now rewrite app_nil_r|].
    now apply TrimLeft_app_low. }
  now rewrite TrimRight_spaces.
Qed.

Lemma trim_split_record (level msg : string) (k : nat) :
  TrimSpace level = level -> lacks ":" level -> TrimSpace msg = msg ->
  exists p0 p1,
    SplitN2 (TrimSpace (String SP (level ++ spaces k ++ String ":" (String SP msg)))) ":"
    = [p0; p1]
    /\ TrimSpace p0 = level /\ TrimSpace p1 = msg.
Proof.
  intros Hl Hc Hm.
  apply TrimSpace_fix in Hl. destruct Hl as [HlL HlR].
  apply TrimSpace_fix in Hm. destruct Hm as [HmL HmR].
  set (p0 := match level with "" => "" | _ => level ++ spaces k end).
  assert (Hp0c : lacks ":" p0).
  { subst p0. destruct level; [apply lacks_nil|].
    apply lacks_app. split; [assumption|]. apply lacks_spaces. discriminate. }
  assert (Hp0 : TrimSpace p0 = level) by (now apply TrimSpace_padded).
  unfold TrimSpace at 1. rewrite (TrimLeft_record _ _ _ HlL). fold p0.
  destruct msg as [|c msg'] eqn:Em.
  - exists p0, "". split; [|split; [assumption | reflexivity]].
    replace (p0 ++ String ":" (String SP ""))
      with ((p0 ++ String ":" "") ++ spaces 1) by (now rewrite app_assoc).
    rewrite TrimRight_spaces.
    rewrite (TrimRight_low ":" p0); [|reflexivity|reflexivity].
    now apply SplitN2_colon.
  - rewrite <- Em in *.
    assert (Hne : msg <> "") by (rewrite Em; discriminate).
    exists p0, (String SP msg). split; [|split; [assumption|]].
    + replace (p0 ++ String ":" (String SP msg))
        with ((p0 ++ String ":" "") ++ String SP msg) by (now rewrite app_assoc).
      rewrite (TrimRight_app_low msg SP); auto.
      rewrite app_assoc. now apply SplitN2_colon.
    + unfold TrimSpace.
      change (String SP msg) with (spaces 1 ++ msg).
      now rewrite TrimLeft_spaces, HmL.
Qed.

(** *** [bufio]: lines and tokens *)

Lemma lines_nil_iff (s : string) : bufio.lines s = [] <-> s = "".
Proof.
  split; [|now intros ->].
  destruct s as [|c s]; [reflexivity|]. simpl.
  destruct (Ascii.eqb c LF); [discriminate|].
  destruct (bufio.lines s); discriminate.
Qed.

(** A line, its line feed, and the rest of the data. *)
Lemma lines_line (a rest : string) :
  lacks LF a -> bufio.lines (a ++ String LF rest) = a :: bufio.lines rest.
Proof.
  induction a as [|c a IH]; intros H.
  - reflexivity.
  - apply lacks_cons in H. destruct H as [Hc Ha].
    apply Ascii.eqb_neq in Hc.
    cbn [append bufio.lines]. rewrite Hc, (IH Ha). reflexivity.
Qed.

(** Data that ends a line can be continued without touching its lines. *)
Lemma lines_app_terminated (d x : string) :
  bufio.lines ((d ++ nl) ++ x) = (bufio.lines (d ++ nl) ++ bufio.lines x)%list.
Proof.
  unfold nl.
  induction d as [|c d IH].
  - reflexivity.
  - cbn [append bufio.lines].
    destruct (Ascii.eqb c LF); [now rewrite IH|].
    rewrite IH.
    destruct (bufio.lines (d ++ String LF "")) eqn:E; [|reflexivity].
    apply lines_nil_iff in E. destruct d; discriminate.
Qed.

Lemma scanTokens_fits (toks : list string) :
  forallb bufio.fits toks = true ->
  bufio.scanTokens toks = (map bufio.dropCR toks, None).
Proof.
  induction toks as [|t toks IH]; simpl; [reflexivity|].
  intros H. apply andb_true_iff in H. destruct H as [Ht Hr].
  now rewrite Ht, (IH Hr).
Qed.

Lemma scanTokens_too_long (toks : list string) :
  forallb bufio.fits toks = false ->
  snd (bufio.scanTokens toks) = Some bufio.ErrTooLong.
Proof.
  induction toks as [|t toks IH]; simpl; [discriminate|].
  destruct (bufio.fits t); simpl; [|reflexivity].
  intros H. specialize (IH H).
  destruct (bufio.scanTokens toks). assumption.
Qed.

Lemma dropCR_last (r : string) (c : ascii) :
  c <> CR -> bufio.dropCR (r ++ String c "") = r ++ String c "".
Proof.
  intros H. induction r as [|d r IH]; simpl.
  - apply Ascii.eqb_neq in H. now rewrite H.
  - rewrite IH. destruct (r ++ String c "") eqn:E; [|reflexivity].
    destruct r; discriminate.
Qed.

Lemma lenN_app (a b : string) : bufio.lenN (a ++ b) = (bufio.lenN a + bufio.lenN b)%N.
Proof. induction a; simpl; [reflexivity|]. rewrite IHa. lia. Qed.

Lemma lenN_length (s : string) : bufio.lenN s = N.of_nat (String.length s).
Proof. induction s; simpl; [reflexivity|]. rewrite IHs. lia. Qed.

End StringFacts.

(** ** The file backend, call by call *)

Module BackendProps.
Import time Logger StringFacts.

Section WithLayout.
Context {layout : RFC3339}.

Lemma set_mu_restore (fb : FileBackend.t) :
  FileBackend.mu fb = false ->
  FileBackend.set_mu false (FileBackend.set_mu true fb) = fb.
Proof. destruct fb; simpl; intros ->; reflexivity. Qed.

(** A call on a free mutex runs its body with the mutex held and frees it. *)
Lemma locked_free {A : Type} (body : M FileBackend.t A) (fb : FileBackend.t) :
  FileBackend.mu fb = false ->
  FileBackend.locked body fb
  = match body (FileBackend.set_mu true fb) with
    | Ret a fb' => Ret a (FileBackend.set_mu false fb')
    | Hang fb' => Hang fb'
    end.
Proof.
  intros H. unfold FileBackend.locked, FileBackend.Lock, FileBackend.Unlock, bind, ret.
  rewrite H. destruct (body _); reflexivity.
Qed.

(** A call on a held mutex never returns. *)
Lemma locked_held {A : Type} (body : M FileBackend.t A) (fb : FileBackend.t) :
  FileBackend.mu fb = true -> FileBackend.locked body fb = Hang fb.
Proof.
  intros H. unfold FileBackend.locked, FileBackend.Lock, bind. now rewrite H.
Qed.

Lemma Write_ok (entry : LogEntry) (fb : FileBackend.t) (f : Handle) (data : string) :
  FileBackend.mu fb = false -> FileBackend.file fb = Some f -> closed f = false ->
  FileBackend.disk fb = mkDisk (Some data) false ->
  FileBackend.Write entry fb
  = Ret None (FileBackend.set_disk
                (mkDisk (Some (data ++ FileBackend.formatLine entry)) false) fb).
Proof.
  intros Hmu Hf Hc Hd. unfold FileBackend.Write. rewrite (locked_free _ _ Hmu).
  destruct fb as [m c fl d]; simpl in *. subst.
  unfold os_WriteString. simpl. rewrite Hc. reflexivity.
Qed.

Lemma Read_ok (level : LogLevel) (filter : LogFilter)
      (fb : FileBackend.t) (f : Handle) (data : string) :
  FileBackend.mu fb = false -> FileBackend.file fb = Some f ->
  FileBackend.disk fb = mkDisk (Some data) false ->
  FileBackend.Read level filter fb
  = Ret (match bufio.Scan data with
         | (toks, None) => inl (FileBackend.scanLoop toks level filter [])
         | (_, Some err) => inr err
         end) fb.
Proof.
  intros Hmu Hf Hd. unfold FileBackend.Read. rewrite (locked_free _ _ Hmu).
  destruct fb as [m c fl d]; simpl in *. subst.
  unfold os_Open. simpl.
  destruct (bufio.Scan data) as [toks [err|]]; reflexivity.
Qed.

Lemma Read_closed (level : LogLevel) (filter : LogFilter) (fb : FileBackend.t) :
  FileBackend.mu fb = false -> FileBackend.file fb = None ->
  FileBackend.Read level filter fb = Ret (inr "file backend not initialized") fb.
Proof.
  intros Hmu Hf. unfold FileBackend.Read. rewrite (locked_free _ _ Hmu).
  destruct fb as [m c fl d]; simpl in *. subst. reflexivity.
Qed.

(** [ClearLogs] takes the mutex and then calls [Read], which takes it
    again: the call stops there, with the mutex held and the file as it was. *)
Lemma ClearLogs_blocks (before : Time) (fb : FileBackend.t) (f : Handle) :
  FileBackend.mu fb = false -> FileBackend.file fb = Some f ->
  FileBackend.ClearLogs before fb = Hang (FileBackend.set_mu true fb).
Proof.
  intros Hmu Hf. unfold FileBackend.ClearLogs. rewrite (locked_free _ _ Hmu).
  unfold bind at 1. unfold get.
  cbn [FileBackend.file FileBackend.set_mu]. rewrite Hf.
  unfold bind at 1. unfold FileBackend.Read.
  rewrite locked_held; reflexivity.
Qed.

End WithLayout.
End BackendProps.

(** ** [Write]: the line of an entry; [ClearLogs]: the lock taken twice *)

Module WriteProps.
Import time Logger StringFacts BackendProps Examples.

(** C4.  [ClearLogs(before)] on an initialised file backend never
    returns, whatever the file holds: it locks [fb.mu] and then calls
    [fb.Read], which locks [fb.mu] again.  The call stays blocked with
    the mutex held; nothing is removed from the file. *)
Theorem ClearLogs_deadlock :
  forall {layout : RFC3339} (before : Time) (fb : FileBackend.t) (f : Handle),
    FileBackend.mu fb = false -> FileBackend.file fb = Some f ->
    FileBackend.ClearLogs before fb = Hang (FileBackend.set_mu true fb)
    /\ FileBackend.disk (FileBackend.set_mu true fb) = FileBackend.disk fb.
Proof.
  intros layout before fb f Hmu Hf. split.
  - now apply (ClearLogs_blocks before fb f).
  - reflexivity.
Qed.

(** A file with one entry of noon, cleared half a second later. *)
Lemma ClearLogs_deadlock_witness :
  let fb := FileBackend.set_disk
              (mkDisk (Some "[2025-01-01T12:00:00Z] INFO : old
") false) freshBackend in
  FileBackend.mu fb = false /\ FileBackend.file fb = Some (mkHandle false)
  /\ @FileBackend.ClearLogs rfc3339 noonAndHalf fb = Hang (FileBackend.set_mu true fb)
  /\ FileBackend.disk (FileBackend.set_mu true fb) = FileBackend.disk fb.
Proof.
  intros fb. split; [reflexivity|]. split; [reflexivity|].
  apply (@ClearLogs_deadlock rfc3339 noonAndHalf fb (mkHandle false));
    reflexivity.
Defined.

Section WithLayout.
Context {layout : RFC3339}.

(** The text [Write] lays out, without its line feed. *)
Lemma formatLine_shape (entry : LogEntry) :
  FileBackend.formatLine entry
  = ("[" ++ Format (Timestamp entry) ++ "] " ++ Level entry
     ++ strings.spaces (5 - utf8.RuneCountInString (Level entry))
     ++ ": " ++ Message entry) ++ strings.nl.
Proof.
  unfold FileBackend.formatLine, fmt.padRight. norm_app. reflexivity.
Qed.

Lemma lacks_LF_line (entry : LogEntry) :
  strings.lacks strings.LF (Format (Timestamp entry)) ->
  strings.lacks strings.LF (Level entry) ->
  strings.lacks strings.LF (Message entry) ->
  strings.lacks strings.LF
    ("[" ++ Format (Timestamp entry) ++ "] " ++ Level entry
     ++ strings.spaces (5 - utf8.RuneCountInString (Level entry))
     ++ ": " ++ Message entry).
Proof.
  intros Ht Hl Hm.
  repeat first
    [ apply lacks_cons; split; [discriminate|]
    | apply lacks_app; split
    | assumption
    | apply lacks_spaces; discriminate
    | progress cbn [append] ].
Qed.

(** C5 (amended).  [Write] appends to the file exactly the text
    [[<RFC3339 timestamp>] <level><padding>: <message>] and a line feed,
    where the padding is as many spaces as the level name is short of 5
    runes, placed after the level name; when the timestamp text, the
    level and the message hold no line feed, that text is one line. *)
Theorem Write_appends_line :
  forall (entry : LogEntry) (fb : FileBackend.t) (f : Handle) (data : string),
    FileBackend.mu fb = false -> FileBackend.file fb = Some f -> closed f = false ->
    FileBackend.disk fb = mkDisk (Some data) false ->
    let line := ("[" ++ Format (Timestamp entry) ++ "] " ++ Level entry
                 ++ strings.spaces (5 - utf8.RuneCountInString (Level entry))
                 ++ ": " ++ Message entry)%string in
    FileBackend.Write entry fb
    = Ret None (FileBackend.set_disk (mkDisk (Some (data ++ line ++ strings.nl)) false) fb)
    /\ (strings.lacks strings.LF (Format (Timestamp entry)) ->
        strings.lacks strings.LF (Level entry) ->
        strings.lacks strings.LF (Message entry) ->
        bufio.lines (line ++ strings.nl) = [line]).
Proof.
  intros entry fb f data Hmu Hf Hc Hd line. split.
  - rewrite (Write_ok entry fb f data Hmu Hf Hc Hd).
    now rewrite formatLine_shape.
  - intros Ht Hl Hm. unfold strings.nl.
    rewrite lines_line; [reflexivity|]. now apply lacks_LF_line.
Qed.

End WithLayout.

Lemma Write_appends_line_witness :
  let entry := mkEntry LevelInfo "started" noon [] in
  @FileBackend.Write rfc3339 entry freshBackend
  = Ret None (FileBackend.set_disk
                (mkDisk (Some "[2025-01-01T12:00:00Z] INFO : started
") false) freshBackend)
  /\ bufio.lines "[2025-01-01T12:00:00Z] INFO : started
" = ["[2025-01-01T12:00:00Z] INFO : started"].
Proof.
  intros entry.
  destruct (@Write_appends_line rfc3339 entry freshBackend (mkHandle false) ""
              eq_refl eq_refl eq_refl eq_refl) as [Hw Hl].
  split; [exact Hw|].
  apply Hl; reflexivity.
Defined.

(** C5 as stated fails: for the level [INFO] the file receives
    ["INFO :"], the padding after the name, not [" INFO:"]. *)
Lemma Write_pads_after_the_level :
  let entry := mkEntry LevelInfo "started" noon [] in
  exists fb',
    @FileBackend.Write rfc3339 entry freshBackend = Ret None fb'
    /\ content (FileBackend.disk fb') = Some "[2025-01-01T12:00:00Z] INFO : started
"
    /\ @Spec.lineLeftPadded rfc3339 entry = "[2025-01-01T12:00:00Z]  INFO: started"
    /\ content (FileBackend.disk fb')
       <> Some (@Spec.lineLeftPadded rfc3339 entry ++ strings.nl).
Proof.
  intros entry. eexists. split; [reflexivity|].
  split; [reflexivity|]. split; [reflexivity|].
  vm_compute. discriminate.
Qed.

End WriteProps.

(** ** [parseLine] accepts exactly the record shape *)

Module ParseProps.
Import time Logger StringFacts ReadView.

Section WithLayout.
Context {layout : RFC3339}.

Lemma parseLine_of_shape (tsStr rest : string) (ts : Time) (p0 p1 : string) :
  strings.lacks "]" tsStr -> Parse tsStr = Some ts ->
  strings.SplitN2 (strings.TrimSpace rest) ":" = [p0; p1] ->
  FileBackend.parseLine ("[" ++ tsStr ++ "]" ++ rest)
  = Some (mkEntry (strings.TrimSpace p0) (strings.TrimSpace p1) ts []).
Proof.
  intros Hb Hp Hs. unfold FileBackend.parseLine.
  cbn [append String.length Nat.eqb strings.HasPrefix Ascii.eqb Bool.eqb andb negb].
  assert (Hi : strings.Index (String "[" (tsStr ++ String "]" rest)) "]"
               = Some (S (String.length tsStr))).
  { rewrite Index1_cons. cbn [Ascii.eqb Bool.eqb].
    now rewrite (Index1_app _ _ _ Hb). }
  rewrite Hi. unfold strings.slice.
  cbn [strings.drop Nat.sub]. rewrite Nat.sub_0_r, take_app, Hp.
  replace (S (String.length tsStr) + 1) with (S (String.length tsStr + 1)) by lia.
  cbn [strings.drop]. rewrite drop_app1, Hs. reflexivity.
Qed.

Lemma parseLine_shape (line : string) (entry : LogEntry) :
  FileBackend.parseLine line = Some entry <-> Spec.recordShape line entry.
Proof.
  split.
  - unfold FileBackend.parseLine.
    destruct (String.length line =? 0); [discriminate|].
    destruct (strings.HasPrefix line "[") eqn:Hpre; [|discriminate]. simpl negb.
    cbv iota.
    apply HasPrefix_spec in Hpre. destruct Hpre as [r ->].
    destruct (strings.Index ("[" ++ r) "]") as [e|] eqn:Hi; [|discriminate].
    cbn [append] in *. rewrite Index1_cons in Hi. cbn [Ascii.eqb Bool.eqb] in Hi.
    destruct (strings.Index r "]") as [m|] eqn:Hr; [|discriminate].
    injection Hi as <-.
    destruct (Index1_Some _ _ _ Hr) as (a & b & -> & Ha & <-).
    unfold strings.slice. cbn [strings.drop Nat.sub].
    rewrite Nat.sub_0_r, take_app.
    destruct (Parse a) as [ts|] eqn:Hp; [|discriminate].
    replace (S (String.length a) + 1) with (S (String.length a + 1)) by lia.
    cbn [strings.drop]. rewrite drop_app1.
    destruct (SplitN2_cases (strings.TrimSpace b)) as [(p0 & p1 & Hs)|Hs];
      rewrite Hs; [|discriminate].
    intros [= <-].
    apply SplitN2_two in Hs. destruct Hs as [Hs Hc].
    exists a, b, p0, p1. cbn [append]. repeat split; auto.
  - intros (tsStr & rest & lvl & msg & -> & Hb & Hp & Hs & Hc & Hl & Hm & Hmeta).
    destruct entry as [l m t md]; simpl in *. subst.
    apply parseLine_of_shape; auto.
    rewrite Hs. cbn [append]. now apply SplitN2_colon.
Qed.

Lemma parseLine_malformed (line : string) :
  FileBackend.parseLine line = None <-> Spec.malformed line.
Proof.
  unfold Spec.malformed. split.
  - intros H entry Hs. apply parseLine_shape in Hs. congruence.
  - intros H. destruct (FileBackend.parseLine line) as [entry|] eqn:E; [|reflexivity].
    apply parseLine_shape in E. now apply H in E.
Qed.

Lemma parsed_entriesOf (toks : list string) : Spec.entriesOf toks (parsed toks).
Proof.
  induction toks as [|line toks IH]; simpl; [constructor|].
  destruct (FileBackend.parseLine line) as [entry|] eqn:E.
  - constructor; [now apply parseLine_shape | assumption].
  - constructor; [now apply parseLine_malformed | assumption].
Qed.

(** The shape fixes the record: the entries of a text are unique. *)
Lemma entriesOf_parsed (toks : list string) (entries : list LogEntry) :
  Spec.entriesOf toks entries -> entries = parsed toks.
Proof.
  induction 1 as [|line entry toks entries Hs _ IH|line toks entries Hm _ IH]; simpl.
  - reflexivity.
  - apply parseLine_shape in Hs. rewrite Hs. now f_equal.
  - apply parseLine_malformed in Hm. now rewrite Hm.
Qed.

End WithLayout.
End ParseProps.

(** ** [Read] on a file with malformed lines *)

Module ExampleFacts.
Import time Logger StringFacts Examples.

Lemma doubled_head (k : nat) (c : ascii) (s : string) :
  exists r, doubled k (String c s) = String c r.
Proof.
  revert s. induction k as [|k IH]; intros s; simpl; [now exists s|]. apply IH.
Qed.

Lemma lenN_doubled (k : nat) (s : string) :
  bufio.lenN (doubled k s) = (2 ^ N.of_nat k * bufio.lenN s)%N.
Proof.
  revert s. induction k as [|k IH]; intros s.
  - cbn [doubled]. change (N.of_nat 0) with 0%N. rewrite N.pow_0_r. lia.
  - cbn [doubled]. rewrite IH, lenN_app, Nat2N.inj_succ, N.pow_succ_r'. lia.
Qed.

Lemma lacks_doubled (c : ascii) (k : nat) (s : string) :
  strings.lacks c s -> strings.lacks c (doubled k s).
Proof.
  revert s. induction k as [|k IH]; intros s H; simpl; [assumption|].
  apply IH. apply lacks_app. auto.
Qed.

End ExampleFacts.

Module TolerantRead.
Import time Logger StringFacts BackendProps ReadView ReadProps ParseProps Examples
       ExampleFacts.

(** C7 (amended).  On a file whose lines are all shorter than the
    scanner's limit of 64 KiB, [Read] with no level and no filter returns
    exactly the entries of the lines that match the record shape, in
    order, and skips every other line without error.  A line of 64 KiB
    or more, well-formed or not, makes [Read] fail with the scanner's
    error. *)
Theorem Read_skips_malformed_lines :
  forall {layout : RFC3339} (fb : FileBackend.t) (f : Handle) (data : string),
    FileBackend.mu fb = false -> FileBackend.file fb = Some f ->
    FileBackend.disk fb = mkDisk (Some data) false ->
    (bufio.scannable data = true ->
     exists entries,
       FileBackend.Read "" noFilter fb = Ret (inl entries) fb
       /\ Spec.entriesOf (map bufio.dropCR (bufio.lines data)) entries)
    /\ (bufio.scannable data = false ->
        FileBackend.Read "" noFilter fb = Ret (inr bufio.ErrTooLong) fb).
Proof.
  intros layout fb f data Hmu Hf Hd.
  rewrite (Read_ok "" noFilter fb f data Hmu Hf Hd).
  unfold bufio.Scan, bufio.scannable. split; intros Hs.
  - rewrite (scanTokens_fits _ Hs). eexists. split; [reflexivity|].
    rewrite scanLoop_all. apply parsed_entriesOf.
  - apply scanTokens_too_long in Hs.
    destruct (bufio.scanTokens (bufio.lines data)) as [toks e].
    simpl in Hs. now subst e.
Qed.

Lemma Read_skips_malformed_lines_witness :
  FileBackend.mu (backendOn mixedFile) = false
  /\ exists entries,
       @FileBackend.Read rfc3339 "" noFilter
         (backendOn mixedFile)
       = Ret (inl entries) (backendOn mixedFile)
       /\ entries = [started].
Proof.
  split; [reflexivity|].
  destruct (@Read_skips_malformed_lines rfc3339 (backendOn mixedFile)
              (mkHandle false) mixedFile eq_refl eq_refl eq_refl) as [Hok _].
  destruct (Hok eq_refl) as (entries & Hr & He).
  exists entries. split; [exact Hr|].
  apply (@entriesOf_parsed rfc3339) in He. exact He.
Defined.

(** C7 as stated fails: after a well-formed line, a malformed line of
    65536 bytes makes [Read] return the scanner's error instead of the
    entry of the well-formed line. *)
Lemma Read_fails_on_a_long_malformed_line :
  @Spec.recordShape rfc3339 startedLine started
  /\ @Spec.malformed rfc3339 longGarbage
  /\ @FileBackend.Read rfc3339 "" noFilter
       (backendOn (startedLine ++ strings.nl ++ longGarbage ++ strings.nl))
     = Ret (inr bufio.ErrTooLong)
           (backendOn (startedLine ++ strings.nl ++ longGarbage ++ strings.nl)).
Proof.
  split; [|split].
  - apply (@parseLine_shape rfc3339). reflexivity.
  - apply (@parseLine_malformed rfc3339).
    destruct (doubled_head 16 "x" "") as [r Hr].
    unfold longGarbage. rewrite Hr. reflexivity.
  - rewrite (@Read_ok rfc3339 "" noFilter
               (backendOn (startedLine ++ strings.nl ++ longGarbage ++ strings.nl))
               (mkHandle false)
               (startedLine ++ strings.nl ++ longGarbage ++ strings.nl)
               eq_refl eq_refl eq_refl).
    unfold bufio.Scan.
    change (startedLine ++ strings.nl ++ longGarbage ++ strings.nl)
      with (startedLine ++ String strings.LF (longGarbage ++ String strings.LF "")).
    rewrite lines_line by reflexivity.
    rewrite lines_line by (apply lacks_doubled; reflexivity).
    cbn [bufio.lines bufio.scanTokens].
    replace (bufio.fits startedLine) with true by reflexivity.
    replace (bufio.fits longGarbage) with false; [reflexivity|].
    unfold bufio.fits, longGarbage. now rewrite lenN_doubled.
Qed.

End TolerantRead.

(** ** Synchronous mode: an entry written, then read back *)

Module RoundTrip.
Import time Logger StringFacts BackendProps ReadView ReadProps ParseProps Examples.

Section WithLayout.
Context {layout : RFC3339}.

Lemma parsed_app (a b : list string) : parsed (a ++ b) = (parsed a ++ parsed b)%list.
Proof.
  induction a as [|l a IH]; simpl; [reflexivity|].
  destruct (FileBackend.parseLine l); simpl; now rewrite IH.
Qed.

Lemma HasSuffix_spec (s suffix : string) :
  strings.HasSuffix s suffix = true -> exists d, s = d ++ suffix.
Proof.
  unfold strings.HasSuffix. intros H.
  apply HasPrefix_spec in H. destruct H as [r Hr].
  exists (strings.srev r). apply srev_inj. now rewrite Hr, srev_app, srev_involutive.
Qed.

(** Appending a line to whole lines adds one line. *)
Lemma lines_append_line (data body : string) :
  Spec.wholeLines data -> strings.lacks strings.LF body ->
  bufio.lines (data ++ body ++ strings.nl) = (bufio.lines data ++ [body])%list.
Proof.
  intros [->|Hs] Hb.
  - unfold strings.nl. cbn [append]. now rewrite lines_line.
  - apply HasSuffix_spec in Hs. destruct Hs as [d ->].
    rewrite lines_app_terminated. f_equal.
    unfold strings.nl. now rewrite lines_line.
Qed.

Lemma plain_last_not_CR (s : string) :
  strings.TrimSpace s = s -> s <> "" ->
  exists r c, s = r ++ String c "" /\ c <> strings.CR.
Proof.
  intros Ht Hne. apply TrimSpace_fix in Ht. destruct Ht as [_ Hr].
  destruct (nonempty_last s Hne) as (r & c & ->).
  exists r, c. split; [reflexivity|].
  apply TrimRight_fix in Hr. rewrite srev_app in Hr.
  change (strings.srev (String c "") ++ strings.srev r)
    with (String c (strings.srev r)) in Hr.
  unfold strings.leadR, strings.lead in Hr.
  apply orb_false_iff in Hr. destruct Hr as [Hc _].
  intros ->. discriminate.
Qed.

(** The line of an entry with plain fields, as the scanner delivers it
    and [parseLine] reads it. *)
Lemma parseLine_formatLine (level message : string) (now ts' : Time) :
  Spec.plain level -> strings.lacks ":" level -> Spec.plain message ->
  Spec.textOf now ts' ->
  exists body,
    FileBackend.formatLine (mkEntry level message now []) = body ++ strings.nl
    /\ strings.lacks strings.LF body
    /\ bufio.dropCR body = body
    /\ FileBackend.parseLine body = Some (mkEntry level message ts' []).
Proof.
  intros [Hlt Hll] Hlc [Hmt Hml] (Hb & Htl & Hp).
  set (k := 5 - utf8.RuneCountInString level).
  exists ("[" ++ Format now ++ "]"
          ++ String strings.SP (level ++ strings.spaces k
                                ++ String ":" (String strings.SP message))).
  split; [|split; [|split]].
  - unfold FileBackend.formatLine, fmt.padRight. cbn [Level Message Timestamp].
    fold k. norm_app. reflexivity.
  - repeat first
      [ apply lacks_cons; split; [discriminate|]
      | apply lacks_app; split
      | assumption
      | apply lacks_spaces; discriminate
      | apply lacks_nil
      | progress cbn [append] ].
  - destruct message as [|c m] eqn:Em.
    + replace ("[" ++ Format now ++ "]"
               ++ String strings.SP (level ++ strings.spaces k
                                     ++ String ":" (String strings.SP "")))
        with (("[" ++ Format now ++ "]"
               ++ String strings.SP (level ++ strings.spaces k ++ ":"))
              ++ String strings.SP "")
        by (norm_app; reflexivity).
      apply dropCR_last. discriminate.
    + rewrite <- Em in *.
      destruct (plain_last_not_CR message Hmt) as (r & d & Hr & Hd);
        [rewrite Em; discriminate|].
      rewrite Hr.
      replace ("[" ++ Format now ++ "]"
               ++ String strings.SP (level ++ strings.spaces k
                                     ++ String ":" (String strings.SP (r ++ String d ""))))
        with (("[" ++ Format now ++ "]"
               ++ String strings.SP (level ++ strings.spaces k
                                     ++ String ":" (String strings.SP r)))
              ++ String d "")
        by (norm_app; reflexivity).
      now apply dropCR_last.
  - destruct (trim_split_record level message k Hlt Hlc Hmt) as (p0 & p1 & Hs & H0 & H1).
    rewrite (parseLine_of_shape _ _ ts' p0 p1 Hb Hp Hs). now rewrite H0, H1.
Qed.

Lemma Write_success (entry : LogEntry) (fb fb' : FileBackend.t) :
  FileBackend.Write entry fb = Ret None fb' ->
  FileBackend.mu fb = false
  /\ (exists f, FileBackend.file fb = Some f)
  /\ failing (FileBackend.disk fb) = false
  /\ fb' = FileBackend.set_disk
             (mkDisk (Some (match content (FileBackend.disk fb) with
                            | Some c => c
                            | None => ""
                            end ++ FileBackend.formatLine entry)) false) fb.
Proof.
  unfold FileBackend.Write. destruct (FileBackend.mu fb) eqn:Hmu.
  - now rewrite locked_held.
  - rewrite (locked_free _ _ Hmu).
    destruct fb as [m c fl [ct fg]]; simpl in *. subst m.
    destruct fl as [f|]; [|discriminate].
    unfold os_WriteString. simpl.
    destruct (closed f); [discriminate|].
    destruct fg; [discriminate|].
    intros [= <-]. repeat split. now exists f.
Qed.

Lemma set_backend_same (lm : logManagerImpl.t) (b : LogBackend) :
  logManagerImpl.backend lm = Some b -> logManagerImpl.set_backend (Some b) lm = lm.
Proof. destruct lm; simpl; intros ->; reflexivity. Qed.

Lemma ReadLogs_file (lm : logManagerImpl.t) (fb : FileBackend.t) (f : Handle)
      (data : string) :
  logManagerImpl.backend lm = Some (FileB fb) ->
  FileBackend.mu fb = false -> FileBackend.file fb = Some f ->
  FileBackend.disk fb = mkDisk (Some data) false ->
  bufio.scannable data = true ->
  logManagerImpl.ReadLogs "" noFilter lm
  = Ret (inl (parsed (map bufio.dropCR (bufio.lines data)))) lm.
Proof.
  intros Hb Hmu Hf Hd Hs.
  unfold logManagerImpl.ReadLogs, logManagerImpl.onBackend, Backend.Read, onFile.
  rewrite Hb, (Read_ok "" noFilter fb f data Hmu Hf Hd).
  unfold bufio.Scan. rewrite (scanTokens_fits _ Hs), scanLoop_all.
  now rewrite (set_backend_same _ _ Hb).
Qed.

(** C6 (amended).  In synchronous mode against the file backend, for an
    entry whose level and message hold no line feed and no space at
    their ends, whose level holds no colon, and whose line fits the
    scanner, on a file of whole lines within the scanner's limit: after
    [WriteLog] has returned nil, [ReadLogs] with the empty level and the
    empty filter returns what it returned before, followed by an entry
    with the same level and message and with the timestamp that its
    RFC 3339 text parses to. *)
Theorem WriteLog_then_ReadLogs :
  forall (lm lm' : logManagerImpl.t) (fb : FileBackend.t) (data : string)
         (level : LogLevel) (message : string) (now ts' : Time)
         (events : list Event),
    logManagerImpl.isAsync lm = false ->
    logManagerImpl.backend lm = Some (FileB fb) ->
    content (FileBackend.disk fb) = Some data ->
    Spec.wholeLines data -> bufio.scannable data = true ->
    Spec.plain level -> strings.lacks ":" level -> Spec.plain message ->
    Spec.textOf now ts' ->
    (bufio.lenN (FileBackend.formatLine (mkEntry level message now []))
     <= bufio.MaxScanTokenSize)%N ->
    logManagerImpl.WriteLog level message now lm = logManagerImpl.Returns None events lm' ->
    exists earlier,
      logManagerImpl.ReadLogs "" noFilter lm = Ret (inl earlier) lm
      /\ logManagerImpl.ReadLogs "" noFilter lm'
         = Ret (inl (earlier ++ [mkEntry level message ts' []])%list) lm'.
Proof.
  intros lm lm' fb data level message now ts' events
         Hsync Hb Hdata Hwhole Hscan Hlevel Hcolon Hmsg Htext Hlen Hw.
  unfold logManagerImpl.WriteLog in Hw. rewrite Hb, Hsync in Hw.
  unfold logManagerImpl.onBackend, Backend.Write, onFile in Hw.
  destruct (FileBackend.Write (mkEntry level message now []) fb) as [[err|] fb1|fb1] eqn:Ew;
    try discriminate.
  injection Hw as _ <-.
  apply Write_success in Ew. destruct Ew as (Hmu & [f Hf] & Hfail & ->).
  rewrite Hdata.
  assert (Hd : FileBackend.disk fb = mkDisk (Some data) false).
  { destruct (FileBackend.disk fb); simpl in *; congruence. }
  destruct (parseLine_formatLine level message now ts' Hlevel Hcolon Hmsg Htext)
    as (body & Hbody & Hlf & Hcr & Hparse).
  exists (parsed (map bufio.dropCR (bufio.lines data))). split.
  - now apply (ReadLogs_file lm fb f data).
  - rewrite Hbody in *.
    erewrite ReadLogs_file; [| reflexivity | exact Hmu | exact Hf | reflexivity |].
    + rewrite (lines_append_line data body Hwhole Hlf).
      rewrite map_app, parsed_app. cbn [map parsed]. rewrite Hcr, Hparse.
      reflexivity.
    + unfold bufio.scannable in *.
      rewrite (lines_append_line data body Hwhole Hlf), forallb_app, Hscan.
      cbn [forallb andb]. rewrite andb_true_r.
      unfold bufio.fits. apply N.ltb_lt.
      rewrite lenN_app in Hlen. unfold strings.nl in Hlen. simpl bufio.lenN in Hlen.
      lia.
Qed.

End WithLayout.

Lemma WriteLog_then_ReadLogs_witness :
  exists events lm',
    @logManagerImpl.WriteLog rfc3339 LevelInfo "started" noonAndHalf syncManager
    = logManagerImpl.Returns None events lm'
    /\ @logManagerImpl.ReadLogs rfc3339 "" noFilter syncManager = Ret (inl []) syncManager
    /\ @logManagerImpl.ReadLogs rfc3339 "" noFilter lm' = Ret (inl [started]) lm'.
Proof.
  eexists. eexists. split; [reflexivity|].
  edestruct (@WriteLog_then_ReadLogs rfc3339 syncManager)
    with (level := LevelInfo) (message := "started") (now := noonAndHalf)
         (ts' := noon) (data := "")
    as (earlier & H1 & H2);
    [ reflexivity | reflexivity | reflexivity | now left | reflexivity
    | split; reflexivity | reflexivity | split; reflexivity
    | repeat split; reflexivity | vm_compute; discriminate | reflexivity | ].
  assert (earlier = []) as -> by (vm_compute in H1; congruence).
  split; [exact H1 | exact H2].
Defined.

(** C6 as stated fails.  The file keeps whole seconds, [Read] trims the
    message, and a line feed in the message ends the record: what
    [ReadLogs] returns after a successful [WriteLog] does not contain the
    entry that was submitted. *)
Lemma ReadLogs_does_not_return_the_entry :
  (exists events lm',
      @logManagerImpl.WriteLog rfc3339 LevelInfo "started" noonAndHalf syncManager
      = logManagerImpl.Returns None events lm'
      /\ @logManagerImpl.ReadLogs rfc3339 "" noFilter lm'
         = Ret (inl [mkEntry LevelInfo "started" noon []]) lm'
      /\ ~ In (mkEntry LevelInfo "started" noonAndHalf [])
              [mkEntry LevelInfo "started" noon []])
  /\ (exists events lm',
         @logManagerImpl.WriteLog rfc3339 LevelInfo "  indented " noon syncManager
         = logManagerImpl.Returns None events lm'
         /\ @logManagerImpl.ReadLogs rfc3339 "" noFilter lm'
            = Ret (inl [mkEntry LevelInfo "indented" noon []]) lm'
         /\ ~ In (mkEntry LevelInfo "  indented " noon [])
                 [mkEntry LevelInfo "indented" noon []])
  /\ (exists events lm',
         @logManagerImpl.WriteLog rfc3339 LevelInfo "first
second" noon syncManager
         = logManagerImpl.Returns None events lm'
         /\ @logManagerImpl.ReadLogs rfc3339 "" noFilter lm'
            = Ret (inl [mkEntry LevelInfo "first" noon []]) lm'
         /\ ~ In (mkEntry LevelInfo "first
second" noon [])
                 [mkEntry LevelInfo "first" noon []]).
Proof.
  repeat split;
    (eexists; eexists; split; [reflexivity|];
     split; [reflexivity|]; intros [H|[]]; discriminate).
Qed.

End RoundTrip.

(** ** [ReadLogs] with a level and a filter *)

Module FilteredRead.
Import time Logger StringFacts BackendProps ReadView ReadProps ParseProps Examples.

(** C8.  On an open file backend whose file is within the scanner's
    limit, [ReadLogs level filter] returns, in the order of the lines,
    the entries of the well-formed lines that satisfy every condition
    that is specified, and no other: the level when it is set (the
    empty level admits every level, a set level only the entries of
    exactly that level), and the substring, the start and the end of the
    filter when they are present, all of them together.  On every
    manager it returns what [ReadLogs] with the empty level and the
    empty filter returns, restricted to those entries. *)
Theorem ReadLogs_level_and_filter :
  forall {layout : RFC3339} (lm : logManagerImpl.t) (level : LogLevel)
         (filter : LogFilter),
    logManagerImpl.ReadLogs level filter lm
    = Spec.restrict (Spec.satisfiesb level filter)
                    (logManagerImpl.ReadLogs "" noFilter lm)
    /\ (forall entry, Spec.satisfiesb level filter entry = true
                      <-> Spec.satisfies level filter entry)
    /\ (forall entry, Spec.satisfies "" noFilter entry)
    /\ (forall (fb : FileBackend.t) (f : Handle) (data : string),
           logManagerImpl.backend lm = Some (FileB fb) ->
           FileBackend.mu fb = false -> FileBackend.file fb = Some f ->
           FileBackend.disk fb = mkDisk (Some data) false ->
           bufio.scannable data = true ->
           exists all returned,
             Spec.entriesOf (map bufio.dropCR (bufio.lines data)) all
             /\ logManagerImpl.ReadLogs "" noFilter lm = Ret (inl all) lm
             /\ logManagerImpl.ReadLogs level filter lm = Ret (inl returned) lm
             /\ returned = List.filter (Spec.satisfiesb level filter) all
             /\ (forall entry,
                    In entry returned
                    <-> In entry all /\ Spec.satisfies level filter entry)).
Proof.
  intros layout lm level filter.
  assert (Hrestrict :
            logManagerImpl.ReadLogs level filter lm
            = Spec.restrict (Spec.satisfiesb level filter)
                            (logManagerImpl.ReadLogs "" noFilter lm)).
  { unfold logManagerImpl.ReadLogs.
    destruct (logManagerImpl.backend lm) as [[fb|sb]|]; [| reflexivity | reflexivity].
    unfold logManagerImpl.onBackend, Backend.Read, onFile.
    rewrite FileBackend_Read_restrict.
    destruct (FileBackend.Read "" noFilter fb) as [[l|e] fb'|fb']; reflexivity. }
  split; [exact Hrestrict|]. split; [|split].
  - intros entry. apply satisfiesb_spec.
  - intros entry. unfold Spec.satisfies; simpl.
    repeat split; intros; congruence.
  - intros fb f data Hb Hmu Hf Hd Hs.
    pose proof (RoundTrip.ReadLogs_file lm fb f data Hb Hmu Hf Hd Hs) as Hall.
    exists (parsed (map bufio.dropCR (bufio.lines data))).
    eexists. split; [apply parsed_entriesOf|]. split; [exact Hall|].
    split; [rewrite Hrestrict, Hall; reflexivity|]. split; [reflexivity|].
    intros entry. rewrite filter_In, satisfiesb_spec. reflexivity.
Qed.

Lemma ReadLogs_level_and_filter_witness :
  @logManagerImpl.ReadLogs rfc3339 LevelWarn (mkFilter (Some noon) None "sec")
    (managerOn threeLevels)
  = Ret (inl [second]) (managerOn threeLevels)
  /\ @logManagerImpl.ReadLogs rfc3339 "" (mkFilter None (Some noon) "")
       (managerOn threeLevels)
     = Ret (inl [started; second]) (managerOn threeLevels)
  /\ exists all returned,
       @Spec.entriesOf rfc3339 (map bufio.dropCR (bufio.lines threeLevels)) all
       /\ @logManagerImpl.ReadLogs rfc3339 "" noFilter (managerOn threeLevels)
          = Ret (inl all) (managerOn threeLevels)
       /\ @logManagerImpl.ReadLogs rfc3339 LevelWarn (mkFilter (Some noon) None "sec")
            (managerOn threeLevels)
          = Ret (inl returned) (managerOn threeLevels)
       /\ returned
          = List.filter (Spec.satisfiesb LevelWarn (mkFilter (Some noon) None "sec")) all
       /\ (forall entry,
              In entry returned
              <-> In entry all
                  /\ Spec.satisfies LevelWarn (mkFilter (Some noon) None "sec") entry).
Proof.
  split; [vm_compute; reflexivity|]. split; [vm_compute; reflexivity|].
  destruct (@ReadLogs_level_and_filter rfc3339 (managerOn threeLevels) LevelWarn
              (mkFilter (Some noon) None "sec")) as (_ & _ & _ & H).
  apply (H (backendOn threeLevels) (mkHandle false) threeLevels); reflexivity.
Defined.

End FilteredRead.

(** ** The goroutines: what every reachable state satisfies *)

Module SchedProps.
Import time Logger Logger.logManagerImpl Logger.Sched Invariant.

Section WithLayout.
Context {layout : RFC3339}.

Lemma exec_app (a b : list Label) (s : State) :
  exec (a ++ b) s = match exec a s with Some s' => exec b s' | None => None end.
Proof.
  revert s. induction a as [|l a IH]; intros s; simpl; [reflexivity|].
  destruct (step l s); [apply IH | reflexivity].
Qed.

Lemma exec_invariant (P : State -> Prop) :
  (forall l s s', P s -> step l s = Some s' -> P s') ->
  forall ls s s', P s -> exec ls s = Some s' -> P s'.
Proof.
  intros Hstep ls. induction ls as [|l ls IH]; intros s s' Hs He; simpl in He.
  - now injection He as <-.
  - destruct (step l s) as [s1|] eqn:E; [|discriminate].
    eapply IH; [|exact He]. eapply Hstep; eauto.
Qed.

Lemma NewLogManager_async (cfg : Config) (d : Disk) (x : logManagerImpl.t) :
  NewLogManager cfg d = inl x -> Async cfg = true ->
  exists b, x = mk cfg (Some b) [] (Some (make queueCapacity)) (Some false) 1 true.
Proof.
  unfold NewLogManager. intros H Ha.
  destruct (if (Backend cfg =? BackendFile)%string then _ else _) as [b|]; [|discriminate].
  destruct (Backend.Init (BackendConfig cfg) b) as [[err|] b']; [discriminate|].
  cbn in H. rewrite Ha in H.
  injection H as <-. exists b'. reflexivity.
Qed.

Lemma WriteLog_async (level : LogLevel) (message : string) (now : Time)
      (x : logManagerImpl.t) (b : LogBackend) :
  isAsync x = true -> backend x = Some b ->
  WriteLog level message now x = Selects (mkEntry level message now []).
Proof. intros Ha Hb. unfold WriteLog. now rewrite Hb, Ha. Qed.

Lemma canSend_Some (x : logManagerImpl.t) (c : Chan) :
  canSend x = Some c ->
  logChannel x = Some c /\ chClosed c = false /\ length (buf c) < cap c.
Proof.
  unfold canSend, hasSpace. destruct (logChannel x) as [ch|]; [|discriminate].
  destruct (chClosed ch) eqn:Hc; simpl; [discriminate|].
  destruct (length (buf ch) <? cap ch) eqn:Hs; [|discriminate].
  intros [= <-]. apply Nat.ltb_lt in Hs. auto.
Qed.

Lemma onBackend_Ret {A : Type} (m : M LogBackend A) (x x' : logManagerImpl.t)
      (b : LogBackend) (a : A) :
  onBackend m x b = Ret a x' -> exists b', m b = Ret a b' /\ x' = set_backend (Some b') x.
Proof.
  unfold onBackend. destruct (m b) as [a' b'|b']; [|discriminate].
  intros [= <- <-]. eauto.
Qed.

Lemma onBackend_Hang {A : Type} (m : M LogBackend A) (x x' : logManagerImpl.t)
      (b : LogBackend) :
  onBackend m x b = Hang x' -> exists b', m b = Hang b' /\ x' = set_backend (Some b') x.
Proof.
  unfold onBackend. destruct (m b) as [a' b'|b']; [discriminate|].
  intros [= <-]. eauto.
Qed.

Ltac innermost x :=
  lazymatch x with
  | context [match ?y with _ => _ end] => innermost y
  | _ => x
  end.

Ltac break_step H :=
  repeat match type of H with
    | context [match ?x with _ => _ end] =>
        let y := innermost x in destruct y eqn:?; try discriminate H
    | Some _ = Some _ => injection H as H
    end.

(** The cases of a step of an asynchronous manager. *)
Ltac step_cases Hshape H :=
  let Ha := fresh "Ha" in let ch := fresh "ch" in let Hch := fresh "Hch" in
  let Hcap := fresh "Hcap" in let Hlen := fresh "Hlen" in
  let b := fresh "b" in let Hb := fresh "Hb" in
  let d := fresh "d" in let Hd := fresh "Hd" in
  destruct Hshape as (Ha & (ch & Hch & Hcap & Hlen) & (b & Hb) & (d & Hd));
  match type of H with step ?l _ = Some _ => destruct l end;
  cbn [step] in H;
  try rewrite (WriteLog_async _ _ _ _ _ Ha Hb) in H;
  unfold ReadLogs, ClearLogs, closeBackend in H;
  cbn [logChannel backend isAsync done set_logChannel] in H;
  rewrite ?Hch, ?Hb, ?Ha, ?Hd in H;
  break_step H; subst;
  repeat match goal with
    | E : canSend _ = Some _ |- _ => apply canSend_Some in E; destruct E as (? & ? & ?)
    | E : onBackend _ _ _ = Ret _ _ |- _ =>
        apply onBackend_Ret in E; destruct E as (? & ? & ?); subst
    | E : onBackend _ _ _ = Hang _ |- _ =>
        apply onBackend_Hang in E; destruct E as (? & ? & ?); subst
    end.

Ltac same_channel :=
  repeat match goal with
    | H1 : logChannel ?x = Some ?a, H2 : logChannel ?x = Some ?b |- _ =>
        rewrite H1 in H2; injection H2 as ->
    end.

Lemma shaped_init (cfg : Config) (d : Disk) (x : logManagerImpl.t) :
  NewLogManager cfg d = inl x -> Async cfg = true -> shaped (init x).
Proof.
  intros H Ha. destruct (NewLogManager_async cfg d x H Ha) as [b ->].
  unfold shaped, init. cbn. repeat split; eauto.
  eexists. split; [reflexivity|]. cbn. split; [reflexivity | lia].
Qed.

Lemma shaped_step (l : Label) (s s' : State) :
  shaped s -> step l s = Some s' -> shaped s'.
Proof.
  intros Hs H. unfold shaped.
  step_cases Hs H; same_channel; cbn; rewrite ?Ha, ?Hch, ?Hb, ?Hd;
    repeat split; eauto;
    try (eexists; split; [reflexivity|]; cbn; split; [assumption|]);
    try (rewrite List.length_app; simpl; lia);
    try (simpl in Hlen; lia);
    try (rewrite Heql; simpl; lia).
Qed.

Lemma shaped_reachable (cfg : Config) (d : Disk) (x : logManagerImpl.t) (s : State) :
  NewLogManager cfg d = inl x -> Async cfg = true ->
  reachable (init x) s -> shaped s.
Proof.
  intros H Ha [ls He].
  eapply (exec_invariant shaped); [|eapply shaped_init; eauto | exact He].
  intros l s1 s2 H1 H2. eapply shaped_step; eauto.
Qed.

Lemma accepted_app (a b : list Event) : accepted (a ++ b) = (accepted a ++ accepted b)%list.
Proof.
  induction a as [|ev a IH]; [reflexivity|].
  destruct ev as [| | |p e [r|]| |]; simpl; now rewrite ?IH.
Qed.

Lemma written_app (a b : list Event) : written (a ++ b) = (written a ++ written b)%list.
Proof.
  induction a as [|ev a IH]; [reflexivity|].
  destruct ev; simpl; now rewrite ?IH.
Qed.

Lemma closeCalled_app (a b : list Event) :
  closeCalled (a ++ b) = closeCalled a || closeCalled b.
Proof. apply existsb_app. Qed.

Lemma beforeClose_app (a b : list Event) :
  beforeClose (a ++ b) = if closeCalled a then beforeClose a else (a ++ beforeClose b)%list.
Proof.
  induction a as [|ev a IH]; [reflexivity|].
  destruct ev; simpl; try reflexivity; rewrite IH;
    destruct (closeCalled a); reflexivity.
Qed.

Lemma accepted_notify (hs : list LogHandler) (e : LogEntry) : accepted (notify hs e) = [].
Proof. induction hs; simpl; auto. Qed.

Lemma written_notify (hs : list LogHandler) (e : LogEntry) : written (notify hs e) = [].
Proof. induction hs; simpl; auto. Qed.

Lemma closeCalled_notify (hs : list LogHandler) (e : LogEntry) :
  closeCalled (notify hs e) = false.
Proof. induction hs; simpl; auto. Qed.

Lemma workerWrite_events (m : Mode) (e : LogEntry) (b b' : LogBackend) (evs : list Event) :
  workerWrite m e b = Ret evs b' ->
  written evs = [e] /\ accepted evs = [] /\ closeCalled evs = false.
Proof.
  unfold workerWrite. destruct (Backend.Write e b) as [r b1|b1]; [|discriminate].
  intros [= <- <-]. destruct m, r; repeat split.
Qed.

(** What was accepted before the call of [Close] was accepted. *)
Lemma accepted_beforeClose (tr : list Event) :
  exists rest, accepted tr = (accepted (beforeClose tr) ++ rest)%list.
Proof.
  induction tr as [|ev tr [rest IH]]; [now exists []|].
  destruct ev as [| | |p e [r|]| |]; simpl; eauto.
  exists rest. now rewrite IH.
Qed.

Ltac trace_simpl :=
  cbn [trace emit set_lm set_worker set_closer set_blocked set_clock unblock
       worker closer lm blocked clock queued logChannel set_logChannel set_backend
       set_wg set_done set_handlers RegisterLogHandler
       backend handlers done wg isAsync config send buf cap chClosed inflight];
  rewrite ?accepted_app, ?written_app, ?closeCalled_app, ?accepted_notify,
    ?written_notify, ?closeCalled_notify, ?map_app, ?app_nil_r.

Lemma fifo_init (cfg : Config) (d : Disk) (x : logManagerImpl.t) :
  NewLogManager cfg d = inl x -> Async cfg = true -> fifo (init x).
Proof.
  intros H Ha. destruct (NewLogManager_async cfg d x H Ha) as [b ->]. reflexivity.
Qed.

Ltac use_facts :=
  repeat match goal with
    | E : workerWrite _ _ _ = Ret _ _ |- _ =>
        apply workerWrite_events in E; destruct E as (? & ? & ?)
    end;
  repeat match goal with
    | E : written ?a = _ |- context [written ?a] => rewrite E
    | E : accepted ?a = _ |- context [accepted ?a] => rewrite E
    | E : closeCalled ?a = _ |- context [closeCalled ?a] => rewrite E
    | E : buf ?c = _ |- context [buf ?c] => rewrite E
    | E : worker ?s = _ |- context [worker ?s] => rewrite E
    | E : closer ?s = _ |- context [closer ?s] => rewrite E
    | E : logChannel ?x = _ |- context [logChannel ?x] => rewrite E
    end.

Lemma fifo_step (l : Label) (s s' : State) :
  shaped s -> fifo s -> step l s = Some s' -> fifo s'.
Proof.
  intros Hs Hf H. unfold fifo, queued in *.
  step_cases Hs H; same_channel; trace_simpl; use_facts;
    rewrite Hf; use_facts;
    cbn [accepted written map snd inflight app];
    rewrite <- ?List.app_assoc, ?app_nil_r; reflexivity.
Qed.

Lemma fifo_reachable (cfg : Config) (d : Disk) (x : logManagerImpl.t) (s : State) :
  NewLogManager cfg d = inl x -> Async cfg = true ->
  reachable (init x) s -> shaped s /\ fifo s.
Proof.
  intros H Ha [ls He].
  eapply (exec_invariant (fun s => shaped s /\ fifo s)); [| |exact He].
  - intros l s1 s2 [H1 H2] H3. split.
    + eapply shaped_step; eauto.
    + eapply fifo_step; eauto.
  - split; [eapply shaped_init | eapply fifo_init]; eauto.
Qed.

Lemma closeCalled_beforeClose (tr evs : list Event) :
  closeCalled tr = true -> beforeClose (tr ++ evs) = beforeClose tr.
Proof. intros H. now rewrite beforeClose_app, H. Qed.

Lemma closing_init (cfg : Config) (d : Disk) (x : logManagerImpl.t) :
  NewLogManager cfg d = inl x -> Async cfg = true -> closing (init x).
Proof.
  intros H Ha. destruct (NewLogManager_async cfg d x H Ha) as [b ->].
  unfold closing, init. cbn. repeat split; discriminate.
Qed.

(** A step that leaves the shutdown protocol where it is: it closes
    nothing, keeps the worker in its loop, and writes nothing once the
    worker has returned. *)
Lemma closing_quiet (s s' : State) (evs : list Event) :
  closing s ->
  closer s' = closer s -> done (lm s') = done (lm s) -> wg (lm s') = wg (lm s) ->
  sameLoop (worker s) (worker s') ->
  trace s' = (trace s ++ evs)%list -> closeCalled evs = false ->
  (worker s = Exited -> written evs = []) ->
  closing s'.
Proof.
  intros (C1 & C2 & C3 & C4 & C5 & C6) Hc Hd Hw [Hdr Hex] Ht He Hwr.
  unfold closing.
  rewrite Hc, Hd, Hw, Ht, closeCalled_app, He, orb_false_r.
  repeat split; auto.
  - rewrite C4. destruct (worker s) eqn:E1, (worker s') eqn:E2; try reflexivity;
      [ destruct Hex as [_ Hex]; now specialize (Hex eq_refl)
      | destruct Hex as [_ Hex]; now specialize (Hex eq_refl)
      | destruct Hex as [_ Hex]; now specialize (Hex eq_refl)
      | destruct Hex as [Hex _]; now specialize (Hex eq_refl)
      | destruct Hex as [Hex _]; now specialize (Hex eq_refl)
      | destruct Hex as [Hex _]; now specialize (Hex eq_refl) ].
  - intros r Hr. apply Hex. eapply C5; eauto.
  - intros Hx. apply Hex in Hx.
    destruct (C6 Hx) as [more Hm]. exists more.
    rewrite written_app, (Hwr Hx), app_nil_r.
    rewrite closeCalled_beforeClose; [assumption|].
    apply C3. now rewrite Hx.
Qed.

Ltac quiet_step Hc :=
  eapply (closing_quiet _ _ _ Hc);
  [ reflexivity | reflexivity | reflexivity
  | split; cbn; use_facts; [first [ reflexivity | discriminate | tauto ]
                           | split; intros; congruence]
  | cbn [trace emit set_lm set_worker set_closer set_blocked set_clock unblock];
    first [ reflexivity | symmetry; apply app_nil_r ]
  | use_facts; first [ assumption | reflexivity | apply closeCalled_notify ]
  | use_facts; first [ reflexivity | intros; congruence ] ].

Lemma closing_step (l : Label) (s s' : State) :
  shaped s -> fifo s -> closing s -> step l s = Some s' -> closing s'.
Proof.
  intros Hs Hf Hc H.
  step_cases Hs H; same_channel; try solve [quiet_step Hc];
    destruct Hc as (C1 & C2 & C3 & C4 & C5 & C6); unfold closing; trace_simpl;
    try match goal with E : worker s = _ |- _ => rewrite E in C3, C4, C5, C6 end;
    try match goal with E : closer s = _ |- _ => rewrite E in C1 end;
    pose proof C2 as Hcc; rewrite Hd in Hcc; injection Hcc as Hcc.
  - (* [case <-lm.done] *)
    repeat split; auto; try discriminate.
    intros r Hr. specialize (C5 r Hr). discriminate.
  - (* the worker returns *)
    repeat split; auto.
    + rewrite C4. reflexivity.
    + intros _. unfold fifo, queued in Hf. rewrite Hch in Hf.
      match goal with E : buf _ = [] |- _ => rewrite E in Hf end.
      match goal with E : worker s = _ |- _ => rewrite E in Hf end.
      cbn [inflight app] in Hf. rewrite app_nil_r in Hf.
      destruct (accepted_beforeClose (trace s)) as [rest Hr].
      exists (map snd rest). now rewrite <- Hf, Hr, map_app.
  - (* [close(lm.done)] *)
    rewrite <- Hcc. cbn [closeCalled existsb orb].
    repeat split; auto; try discriminate.
    intros Hx. rewrite Hx in C3. specialize (C3 eq_refl). congruence.
  - (* [lm.wg.Wait()] has returned *)
    assert (Hx : worker s = Exited).
    { match goal with E : wg (lm s) = 0 |- _ => rewrite E in C4 end.
      destruct (worker s); congruence. }
    rewrite C1 in *. cbn [closeCalled existsb orb].
    repeat split; auto.
    intros _. destruct (C6 Hx) as [more Hm]. exists more.
    rewrite closeCalled_beforeClose; [assumption|]. congruence.
  - rewrite C1 in *. cbn [closeCalled existsb orb].
    repeat split; auto; try discriminate.
Qed.

Lemma closing_reachable (cfg : Config) (d : Disk) (x : logManagerImpl.t) (s : State) :
  NewLogManager cfg d = inl x -> Async cfg = true ->
  reachable (init x) s -> shaped s /\ fifo s /\ closing s.
Proof.
  intros H Ha [ls He].
  eapply (exec_invariant (fun s => shaped s /\ fifo s /\ closing s)); [| |exact He].
  - intros l s1 s2 (H1 & H2 & H3) H4. split; [|split].
    + eapply shaped_step; eauto.
    + eapply fifo_step; eauto.
    + eapply closing_step; eauto.
  - split; [|split];
      [eapply shaped_init | eapply fifo_init | eapply closing_init]; eauto.
Qed.

Lemma Close_returns (fb fb' : FileBackend.t) (r : option error) :
  FileBackend.Close fb = Ret r fb' ->
  FileBackend.mu fb' = false /\ FileBackend.file fb' = None.
Proof.
  unfold FileBackend.Close. destruct (FileBackend.mu fb) eqn:Hmu.
  - now rewrite BackendProps.locked_held.
  - rewrite (BackendProps.locked_free _ _ Hmu).
    destruct fb as [m c [f|] d]; simpl; intros [= _ <-]; auto.
Qed.

Lemma ClearLogs_closed (before : Time) (fb : FileBackend.t) :
  FileBackend.mu fb = false -> FileBackend.file fb = None ->
  FileBackend.ClearLogs before fb = Ret (Some "file backend not initialized") fb.
Proof.
  intros Hmu Hf. unfold FileBackend.ClearLogs.
  rewrite (BackendProps.locked_free _ _ Hmu).
  destruct fb as [m c fl d]; simpl in *. subst. reflexivity.
Qed.

Lemma Backend_Close_closed (b b' : LogBackend) (r : option error) :
  Backend.Close b = Ret r b' -> closedBackend b'.
Proof.
  destruct b as [fb|sb]; simpl.
  - unfold onFile. destruct (FileBackend.Close fb) as [r' fb'|fb'] eqn:E; [|discriminate].
    intros [= _ <-]. eapply Close_returns; eauto.
  - intros [= _ <-]. exact I.
Qed.

Lemma Backend_Read_closed (level : LogLevel) (filter : LogFilter)
      (b : LogBackend) (o : Outcome LogBackend (list LogEntry + error)) :
  closedBackend b -> Backend.Read level filter b = o ->
  exists r, o = Ret r b.
Proof.
  destruct b as [fb|sb]; simpl.
  - intros [Hmu Hf] <-. unfold onFile.
    rewrite (BackendProps.Read_closed level filter fb Hmu Hf). eexists. reflexivity.
  - intros _ <-. eexists. reflexivity.
Qed.

Lemma Backend_ClearLogs_closed (before : Time)
      (b : LogBackend) (o : Outcome LogBackend (option error)) :
  closedBackend b -> Backend.ClearLogs before b = o ->
  exists r, o = Ret r b.
Proof.
  destruct b as [fb|sb]; simpl.
  - intros [Hmu Hf] <-. unfold onFile.
    rewrite (ClearLogs_closed before fb Hmu Hf). eexists. reflexivity.
  - intros _ <-. eexists. reflexivity.
Qed.

Lemma afterClose_init (x : logManagerImpl.t) : afterClose (init x).
Proof. intros r Hr. destruct (isAsync x); discriminate. Qed.

Lemma afterClose_step (l : Label) (s s' : State) :
  shaped s -> closing s -> afterClose s -> step l s = Some s' -> afterClose s'.
Proof.
  intros Hs (C1 & C2 & C3 & C4 & C5 & C6) Hc H. unfold afterClose in *.
  step_cases Hs H; same_channel; intros r Hr;
    cbn [closer emit set_lm set_worker set_closer set_blocked set_clock unblock] in Hr;
    try discriminate Hr.
  all: lazymatch type of Hr with
       | Returned _ = Returned _ =>
           (* the return of [Close] *)
           split; [unfold channelClosed; cbn; reflexivity|];
           eexists; split; [cbn; reflexivity|];
           eapply Backend_Close_closed; eauto
       | _ =>
           (* a step after the return *)
           destruct (Hc r Hr) as (Hcl & b1 & Hb1 & Hcb);
           pose proof (C5 r Hr) as Hx;
           unfold channelClosed in *; rewrite Hch in *;
           rewrite Hb in Hb1; injection Hb1 as <-;
           try congruence
       end.
  all: cbn [lm emit unblock set_blocked set_clock set_lm RegisterLogHandler
            logChannel backend set_backend set_handlers];
    rewrite ?Hch; (split; [assumption|]);
    try (exists b; split; assumption).
  all: eexists; (split; [reflexivity|]);
    try match goal with
      | E : Backend.Read _ _ _ = _ |- _ =>
          destruct (Backend_Read_closed _ _ _ _ Hcb E) as [? Hx']; injection Hx' as _ <-
      | E : Backend.ClearLogs _ _ = _ |- _ =>
          destruct (Backend_ClearLogs_closed _ _ _ Hcb E) as [? Hx']; injection Hx' as _ <-
      end;
    try match goal with
      | E : Backend.Read _ _ _ = Hang _ |- _ =>
          destruct (Backend_Read_closed _ _ _ _ Hcb E) as [? Hx']; discriminate Hx'
      | E : Backend.ClearLogs _ _ = Hang _ |- _ =>
          destruct (Backend_ClearLogs_closed _ _ _ Hcb E) as [? Hx']; discriminate Hx'
      end;
    try assumption.
Qed.

Lemma afterClose_reachable (cfg : Config) (d : Disk) (x : logManagerImpl.t) (s : State) :
  NewLogManager cfg d = inl x -> Async cfg = true ->
  reachable (init x) s -> shaped s /\ fifo s /\ closing s /\ afterClose s.
Proof.
  intros H Ha [ls He].
  eapply (exec_invariant (fun s => shaped s /\ fifo s /\ closing s /\ afterClose s));
    [| |exact He].
  - intros l s1 s2 (H1 & H2 & H3 & H4) H5. split; [|split; [|split]].
    + eapply shaped_step; eauto.
    + eapply fifo_step; eauto.
    + eapply closing_step; eauto.
    + eapply afterClose_step; eauto.
  - split; [|split; [|split]];
      [eapply shaped_init | eapply fifo_init | eapply closing_init
      | apply afterClose_init]; eauto.
Qed.

Lemma isBlocked_false (p : Producer) (s : State) :
  isBlocked p s = false <-> ~ In p (map who (blocked s)).
Proof.
  unfold isBlocked. induction (blocked s) as [|q l IH]; simpl.
  - tauto.
  - rewrite orb_false_iff, IH, Nat.eqb_neq. intuition congruence.
Qed.

Lemma who_filter (p : Producer) (l : list Pending) :
  forall x, In x (map who (List.filter (fun q => negb (who q =? p)) l)) ->
            In x (map who l) /\ x <> p.
Proof.
  induction l as [|q l IH]; simpl; [tauto|].
  intros x. destruct (Nat.eqb_spec (who q) p) as [E|E]; simpl.
  - intros H. apply IH in H. tauto.
  - intros [<-|H]; [tauto|]. apply IH in H. tauto.
Qed.

Lemma NoDup_unblock (p : Producer) (l : list Pending) :
  NoDup (map who l) -> NoDup (map who (List.filter (fun q => negb (who q =? p)) l)).
Proof.
  induction l as [|q l IH]; simpl; [constructor|].
  intros H. inversion H as [|? ? Hn Hd]; subst.
  destruct (who q =? p); simpl; [now apply IH|].
  constructor; [|now apply IH].
  intros Hin. apply who_filter in Hin. tauto.
Qed.

Lemma Forall_unblock (P : Pending -> Prop) (p : Producer) (l : list Pending) :
  Forall P l -> Forall P (List.filter (fun q => negb (who q =? p)) l).
Proof.
  intros H. apply Forall_forall. intros q Hq.
  apply filter_In in Hq. destruct Hq as [Hq _].
  eapply Forall_forall in H; eauto.
Qed.

Lemma timed_init (x : logManagerImpl.t) : timed (init x).
Proof. split; constructor. Qed.

Lemma timed_step (l : Label) (s s' : State) :
  shaped s -> timed s -> step l s = Some s' -> timed s'.
Proof.
  intros Hs [Hn Ht] H. unfold timed.
  step_cases Hs H; same_channel;
    cbn [blocked clock emit set_lm set_worker set_closer set_blocked set_clock unblock];
    try (split; assumption);
    try (split; [now apply NoDup_unblock | now apply Forall_unblock]).
  - (* a call starts to wait *)
    match goal with E : isBlocked _ _ = false |- _ => apply isBlocked_false in E end.
    split.
    + rewrite map_app. simpl.
      apply NoDup_app; [assumption | repeat constructor; simpl; tauto |].
      intros a Ha1 [<-|[]]. contradiction.
    + apply Forall_app. split; [assumption|].
      repeat constructor; simpl; unfold backpressureTimeout; lia.
  - (* a millisecond passes *)
    split; [assumption|].
    match goal with E : forallb _ _ = true |- _ => rewrite forallb_forall in E; rename E into Hx end.
    apply Forall_forall. intros q Hq.
    eapply Forall_forall in Ht; eauto.
    specialize (Hx q Hq). unfold expired in Hx.
    apply negb_true_iff, Nat.leb_gt in Hx. cbn [clock] in *. lia.
Qed.

Lemma timed_reachable (cfg : Config) (d : Disk) (x : logManagerImpl.t) (s : State) :
  NewLogManager cfg d = inl x -> Async cfg = true ->
  reachable (init x) s -> shaped s /\ timed s.
Proof.
  intros H Ha [ls He].
  eapply (exec_invariant (fun s => shaped s /\ timed s)); [| |exact He].
  - intros l s1 s2 [H1 H2] H3. split.
    + eapply shaped_step; eauto.
    + eapply timed_step; eauto.
  - split; [eapply shaped_init; eauto | apply timed_init].
Qed.

Lemma pendingOf_In (q : Pending) (s : State) :
  NoDup (map who (blocked s)) -> In q (blocked s) -> pendingOf (who q) s = Some q.
Proof.
  unfold pendingOf. induction (blocked s) as [|q' l IH]; simpl; [tauto|].
  intros Hn [->|Hin].
  - now rewrite Nat.eqb_refl.
  - inversion Hn as [|? ? Hni Hd]; subst.
    destruct (Nat.eqb_spec (who q') (who q)) as [E|E]; [|now apply IH].
    exfalso. apply Hni. rewrite E. now apply in_map.
Qed.

Lemma isBlocked_unblock (p : Producer) (s : State) : isBlocked p (unblock p s) = false.
Proof.
  unfold isBlocked, unblock. cbn [blocked set_blocked].
  induction (blocked s) as [|q l IH]; simpl; [reflexivity|].
  destruct (who q =? p) eqn:E; simpl; [assumption|]. now rewrite E.
Qed.

Lemma pendingOf_not_blocked (p : Producer) (s : State) :
  isBlocked p s = false -> pendingOf p s = None.
Proof.
  unfold isBlocked, pendingOf. induction (blocked s) as [|q l IH]; simpl; [reflexivity|].
  destruct (who q =? p); simpl; [discriminate | assumption].
Qed.

Lemma canSend_full (x : logManagerImpl.t) (ch : Chan) :
  logChannel x = Some ch -> cap ch <= length (buf ch) -> canSend x = None.
Proof.
  intros Hch Hfull. unfold canSend, hasSpace. rewrite Hch.
  destruct (negb (chClosed ch)); [|reflexivity]. simpl.
  apply Nat.ltb_ge in Hfull. now rewrite Hfull.
Qed.

Lemma canSend_space (x : logManagerImpl.t) (ch : Chan) :
  logChannel x = Some ch -> chClosed ch = false -> length (buf ch) < cap ch ->
  canSend x = Some ch.
Proof.
  intros Hch Hcl Hsp. unfold canSend, hasSpace. rewrite Hch, Hcl. simpl.
  apply Nat.ltb_lt in Hsp. now rewrite Hsp.
Qed.

End WithLayout.

(** The file backend of a closed manager refuses to read. *)
Lemma ReadLogs_after_Close {layout : RFC3339} (x : logManagerImpl.t) (fb : FileBackend.t) :
  backend x = Some (FileB fb) -> closedBackend (FileB fb) ->
  ReadLogs "" noFilter x = Ret (inr "file backend not initialized") x.
Proof.
  intros Hb [Hmu Hf]. unfold ReadLogs, onBackend, Backend.Read, onFile.
  rewrite Hb, (BackendProps.Read_closed "" noFilter fb Hmu Hf).
  now rewrite (RoundTrip.set_backend_same _ _ Hb).
Qed.

(** C1 as stated fails.  After a graceful shutdown that wrote the one
    accepted entry, [ReadLogs] returns an error, not a sequence with the
    entry; and an entry accepted while [Close] waits for the worker is
    never handed to the backend. *)
Lemma ReadLogs_after_Close_loses_entries :
  (closer Examples.shutDown
   = Returned None
   /\ accepted (trace Examples.shutDown)
      = [(1, Examples.started)]
   /\ @ReadLogs rfc3339 "" noFilter
        (lm Examples.shutDown)
      = Ret (inr "file backend not initialized")
            (lm Examples.shutDown))
  /\ (@exec rfc3339 Examples.submitWhileClosing (init Examples.asyncManager)
      = Some Examples.raced
      /\ closer Examples.raced
         = Returned None
      /\ accepted (trace Examples.raced)
         = [(1, Examples.started)]
      /\ written (trace Examples.raced)
         = []).
Proof.
  repeat split; vm_compute; reflexivity.
Qed.


(** C2.  In asynchronous mode the queue holds at most 1000 entries.  A
    call of [WriteLog] that finds the channel open with room returns nil
    in the same step, its entry queued last.  A call that finds the queue
    full waits: it has waited for at most 100 ms in every state; before
    100 ms its timer cannot fire; at 100 ms the clock cannot advance
    while it waits, and the timer can fire, which returns the error of a
    saturated queue, leaves the queue as it was and ends the call, so
    that its entry is never queued; while the queue is full the send
    cannot go through, and once there is room it can: the call returns
    nil with its entry queued last. *)
Theorem WriteLog_backpressure :
  forall {layout : RFC3339} (cfg : Config) (d : Disk) (x : logManagerImpl.t)
         (ls : list Label) (s : State),
    NewLogManager cfg d = inl x -> Async cfg = true ->
    exec ls (init x) = Some s ->
    (exists ch, logChannel (lm s) = Some ch
                /\ cap ch = 1000 /\ length (buf ch) <= 1000)
    /\ (forall p level message now,
           isBlocked p s = false -> channelClosed (lm s) = false ->
           length (queued s) < 1000 ->
           exists s',
             step (LCall p level message now) s = Some s'
             /\ trace s' = (trace s ++ [EvReturn p (mkEntry level message now []) None])%list
             /\ queued s' = (queued s ++ [mkEntry level message now []])%list
             /\ blocked s' = blocked s /\ clock s' = clock s)
    /\ (forall p level message now,
           isBlocked p s = false -> channelClosed (lm s) = false ->
           length (queued s) = 1000 ->
           exists s',
             step (LCall p level message now) s = Some s'
             /\ trace s' = trace s /\ queued s' = queued s
             /\ blocked s'
                = (blocked s ++ [mkPending p (mkEntry level message now []) (clock s)])%list)
    /\ (forall q, In q (blocked s) ->
           since q <= clock s <= since q + 100
           /\ (clock s < since q + 100 -> step (LTimeout (who q)) s = None)
           /\ (clock s = since q + 100 ->
               step LTick s = None
               /\ exists s',
                   step (LTimeout (who q)) s = Some s'
                   /\ trace s'
                      = (trace s ++ [EvReturn (who q) (what q) (Some QueueSaturated)])%list
                   /\ queued s' = queued s
                   /\ isBlocked (who q) s' = false
                   /\ step (LSend (who q)) s' = None)
           /\ (length (queued s) = 1000 -> step (LSend (who q)) s = None)
           /\ (channelClosed (lm s) = false -> length (queued s) < 1000 ->
               exists s',
                 step (LSend (who q)) s = Some s'
                 /\ trace s' = (trace s ++ [EvReturn (who q) (what q) None])%list
                 /\ queued s' = (queued s ++ [what q])%list
                 /\ isBlocked (who q) s' = false)).
Proof.
  intros layout cfg d x ls s Hn Ha He.
  destruct (timed_reachable cfg d x s Hn Ha (ex_intro _ ls He))
    as [(Hasync & (ch & Hch & Hcap & Hlen) & (b & Hb) & _) [Hnd Ht]].
  unfold queueCapacity in Hcap.
  assert (Hq : queued s = buf ch) by (unfold queued; now rewrite Hch).
  split; [|split; [|split]].
  - exists ch. rewrite <- Hcap at 2. auto.
  - intros p level message now Hp Hcl Hsp.
    unfold channelClosed in Hcl. rewrite Hch in Hcl. rewrite Hq in Hsp.
    eexists. split.
    + cbn [step]. rewrite Hp, (WriteLog_async _ _ _ _ _ Hasync Hb).
      unfold channelClosed. rewrite Hch, Hcl.
      rewrite (canSend_space _ _ Hch Hcl); [reflexivity | lia].
    + unfold queued. cbn. rewrite Hch. auto.
  - intros p level message now Hp Hcl Hfull.
    unfold channelClosed in Hcl. rewrite Hch in Hcl. rewrite Hq in Hfull.
    eexists. split.
    + cbn [step]. rewrite Hp, (WriteLog_async _ _ _ _ _ Hasync Hb).
      unfold channelClosed. rewrite Hch, Hcl.
      rewrite (canSend_full _ _ Hch); [reflexivity | lia].
    + unfold queued. cbn. auto.
  - intros q Hin.
    pose proof (pendingOf_In q s Hnd Hin) as Hp.
    eapply Forall_forall in Ht; eauto. unfold backpressureTimeout in Ht.
    split; [exact Ht|]. split; [|split; [|split]].
    + intros Hlt. cbn [step]. rewrite Hp. unfold expired, backpressureTimeout.
      apply Nat.leb_gt in Hlt. now rewrite Hlt.
    + intros Heq.
      assert (Hx : expired q s = true).
      { unfold expired, backpressureTimeout. apply Nat.leb_le. lia. }
      split.
      * cbn [step].
        destruct (forallb (fun q0 => negb (expired q0 s)) (blocked s)) eqn:Hall;
          [|reflexivity].
        rewrite forallb_forall in Hall. specialize (Hall q Hin).
        rewrite Hx in Hall. discriminate.
      * eexists. split; [cbn [step]; rewrite Hp, Hx; reflexivity|].
        split; [reflexivity|]. split; [reflexivity|].
        split; [apply isBlocked_unblock|].
        cbn [step]. rewrite pendingOf_not_blocked; [reflexivity|].
        apply isBlocked_unblock.
    + intros Hfull. rewrite Hq in Hfull. cbn [step].
      rewrite Hp, (canSend_full _ _ Hch); [reflexivity | lia].
    + intros Hcl Hsp. unfold channelClosed in Hcl. rewrite Hch in Hcl.
      rewrite Hq in Hsp. eexists. split.
      * cbn [step]. rewrite Hp, (canSend_space _ _ Hch Hcl); [reflexivity | lia].
      * split; [reflexivity|]. split; [unfold queued; cbn; now rewrite Hch|].
        apply isBlocked_unblock.
Qed.

Lemma WriteLog_backpressure_witness :
  @exec rfc3339 Examples.saturate (init Examples.asyncManager)
  = Some Examples.saturated
  /\ blocked Examples.saturated = [mkPending 2 Examples.second 0]
  /\ clock Examples.saturated = 100
  /\ length (queued Examples.saturated) = 1000
  /\ @step rfc3339 LTick Examples.saturated = None
  /\ @step rfc3339 (LSend 2) Examples.saturated = None
  /\ exists s',
       @step rfc3339 (LTimeout 2) Examples.saturated = Some s'
       /\ trace s'
          = (trace Examples.saturated
             ++ [EvReturn 2 Examples.second (Some QueueSaturated)])%list
       /\ queued s' = queued Examples.saturated
       /\ isBlocked 2 s' = false
       /\ @step rfc3339 (LSend 2) s' = None.
Proof.
  split; [vm_compute; reflexivity|].
  split; [vm_compute; reflexivity|].
  split; [vm_compute; reflexivity|].
  split; [vm_compute; reflexivity|].
  destruct (@WriteLog_backpressure rfc3339 Examples.asyncConfig Examples.emptyDisk
              Examples.asyncManager Examples.saturate Examples.saturated)
    as (_ & _ & _ & H).
  - vm_compute; reflexivity.
  - reflexivity.
  - vm_compute; reflexivity.
  - destruct (H (mkPending 2 Examples.second 0)) as (_ & _ & Hdue & Hfull & _).
    + vm_compute. left; reflexivity.
    + destruct Hdue as [Htick Hout]; [vm_compute; reflexivity|].
      split; [exact Htick|].
      split; [apply Hfull; vm_compute; reflexivity|].
      exact Hout.
Defined.


(** C9.  Let the backend's [Write] of an entry fail with [err].  In
    synchronous mode [WriteLog] returns [err] wrapped and calls no
    handler.  In asynchronous mode the worker calls every registered
    handler for the entry, in the order of registration; it prints the
    line "async log write error: ..." before them when it takes the
    entry in the loop that runs before [done] is closed, and prints
    nothing when it takes the entry in the loop that drains the channel
    after [done] was closed. *)
Theorem failed_write_notification :
  forall {layout : RFC3339} (b b' : LogBackend)
         (level : LogLevel) (message : string) (now : Time) (err : error),
    Backend.Write (mkEntry level message now []) b = Ret (Some err) b' ->
    (forall x,
        backend x = Some b -> isAsync x = false ->
        WriteLog level message now x
        = Returns (Some ("failed to write log: " ++ err)%string)
                  [EvWrite (mkEntry level message now []) (Some err)]
                  (set_backend (Some b') x))
    /\ (forall s ch rest,
           worker s = Select Running -> backend (lm s) = Some b ->
           logChannel (lm s) = Some ch ->
           buf ch = mkEntry level message now [] :: rest ->
           exists s1 s2,
             step LRecv s = Some s1 /\ step LNotify s1 = Some s2
             /\ trace s2
                = (trace s
                   ++ [EvWrite (mkEntry level message now []) (Some err);
                       EvPrint ("async log write error: " ++ err ++ strings.nl)%string]
                   ++ notify (handlers (lm s)) (mkEntry level message now []))%list)
    /\ (forall s ch rest,
           worker s = Select Draining -> backend (lm s) = Some b ->
           logChannel (lm s) = Some ch ->
           buf ch = mkEntry level message now [] :: rest ->
           exists s1 s2,
             step LRecv s = Some s1 /\ step LNotify s1 = Some s2
             /\ trace s2
                = (trace s
                   ++ [EvWrite (mkEntry level message now []) (Some err)]
                   ++ notify (handlers (lm s)) (mkEntry level message now []))%list).
Proof.
  intros layout b b' level message now err Hw.
  split; [|split].
  - intros x Hb Hs. unfold WriteLog, onBackend. now rewrite Hb, Hs, Hw.
  - intros s ch rest Hwk Hb Hch Hbuf. do 2 eexists.
    cbn [step]. rewrite Hwk, Hch, Hb, Hbuf. unfold onBackend, workerWrite.
    cbn. rewrite Hw. cbn.
    split; [reflexivity|]. split; [reflexivity|].
    unfold emit, set_worker, set_lm. cbn [trace]. now rewrite <- app_assoc.
  - intros s ch rest Hwk Hb Hch Hbuf. do 2 eexists.
    cbn [step]. rewrite Hwk, Hch, Hb, Hbuf. unfold onBackend, workerWrite.
    cbn. rewrite Hw. cbn.
    split; [reflexivity|]. split; [reflexivity|].
    unfold emit, set_worker, set_lm. cbn [trace]. now rewrite <- app_assoc.
Qed.

Lemma failed_write_notification_witness :
  @exec rfc3339 Examples.faultBeforeDrain (init Examples.asyncManager)
  = Some Examples.drainingOnFault
  /\ worker Examples.drainingOnFault = Select Draining
  /\ (exists s1 s2,
         @step rfc3339 LRecv Examples.drainingOnFault = Some s1
         /\ @step rfc3339 LNotify s1 = Some s2
         /\ trace s2
            = [EvReturn 1 Examples.started None; EvCloseCalled;
               EvWrite Examples.started (Some Examples.deviceError);
               EvHandle 7 Examples.started])
  /\ @exec rfc3339 Examples.faultWhileRunning (init Examples.asyncManager)
     = Some Examples.runningOnFault
  /\ exists s1 s2,
       @step rfc3339 LRecv Examples.runningOnFault = Some s1
       /\ @step rfc3339 LNotify s1 = Some s2
       /\ trace s2
          = [EvReturn 1 Examples.started None;
             EvWrite Examples.started (Some Examples.deviceError);
             EvPrint ("async log write error: " ++ Examples.deviceError
                      ++ strings.nl)%string;
             EvHandle 7 Examples.started].
Proof.
  destruct (@failed_write_notification rfc3339
              (FileB Examples.faultyBackend) (FileB Examples.faultyBackend)
              LevelInfo "started" Examples.noon Examples.deviceError)
    as (_ & Hrun & Hdrain); [vm_compute; reflexivity|].
  split; [vm_compute; reflexivity|].
  split; [vm_compute; reflexivity|].
  split; [|split; [vm_compute; reflexivity|]].
  - destruct (Hdrain Examples.drainingOnFault
                (mkChan [Examples.started] queueCapacity false) [])
      as (s1 & s2 & H1 & H2 & Ht); try (vm_compute; reflexivity).
    exists s1, s2. split; [exact H1|]. split; [exact H2|].
    rewrite Ht. vm_compute. reflexivity.
  - destruct (Hrun Examples.runningOnFault
                (mkChan [Examples.started] queueCapacity false) [])
      as (s1 & s2 & H1 & H2 & Ht); try (vm_compute; reflexivity).
    exists s1, s2. split; [exact H1|]. split; [exact H2|].
    rewrite Ht. vm_compute. reflexivity.
Defined.

End SchedProps.

(* ================================================================== *)
(** * Further properties of the code *)
(* ================================================================== *)

(** ** [NewLogManager] and the [Init] of the backends *)

Module ConstructorProps.
Import time Logger Logger.logManagerImpl Journal.

Lemma Init_file (c : FileConfig) (d : Disk) :
  failing d = false ->
  FileBackend.Init (FileCfg c) (FileBackend.zero d)
  = (None, FileBackend.mk false c (Some (mkHandle false))
             (mkDisk (Some (initial d)) false)).
Proof.
  intros Hd. unfold FileBackend.Init, os_MkdirAll, os_OpenAppend. cbn.
  rewrite Hd. reflexivity.
Qed.

Lemma NewLogManager_opens (cfg : Config) (c : FileConfig) (d : Disk) :
  Backend cfg = BackendFile -> BackendConfig cfg = FileCfg c -> failing d = false ->
  exists x,
    NewLogManager cfg d = inl x
    /\ backend x
       = Some (FileB (FileBackend.mk false c (Some (mkHandle false))
                        (mkDisk (Some (initial d)) false))).
Proof.
  intros Hb Hc Hd. unfold NewLogManager. rewrite Hb, Hc.
  cbn -[FileBackend.Init]. rewrite (Init_file c d Hd). cbn.
  destruct (Async cfg); eexists; split; reflexivity.
Qed.

(** What a manager that [NewLogManager] returned was made from. *)
Lemma NewLogManager_backend (cfg : Config) (d : Disk) (x : logManagerImpl.t) :
  NewLogManager cfg d = inl x ->
  (Backend cfg = BackendFile /\ failing d = false
   /\ exists c, BackendConfig cfg = FileCfg c
                /\ backend x
                   = Some (FileB (FileBackend.mk false c (Some (mkHandle false))
                                    (mkDisk (Some (initial d)) false))))
  \/ (Backend cfg = BackendSQL
      /\ exists c, BackendConfig cfg = SQLCfg c /\ backend x = Some (SQLB (SQLBackend.mk c))).
Proof.
  unfold NewLogManager.
  destruct (String.eqb_spec (Backend cfg) BackendFile) as [Ef|_].
  - unfold Backend.Init, FileBackend.Init.
    destruct (BackendConfig cfg) as [c|c|]; try discriminate.
    cbn. unfold os_MkdirAll, os_OpenAppend.
    destruct (failing d) eqn:Hd; cbn; [discriminate|].
    intros H. left. split; [assumption|]. split; [reflexivity|].
    exists c. split; [reflexivity|].
    destruct (Async cfg); injection H as <-; reflexivity.
  - destruct (String.eqb_spec (Backend cfg) BackendSQL) as [Es|_]; [|discriminate].
    unfold Backend.Init, SQLBackend.Init.
    destruct (BackendConfig cfg) as [c|c|]; try discriminate.
    cbn. intros H. right. split; [assumption|]. exists c. split; [reflexivity|].
    destruct (Async cfg); injection H as <-; reflexivity.
Qed.

Lemma NewLogManager_fileOf (cfg : Config) (d : Disk) (x : logManagerImpl.t) :
  NewLogManager cfg d = inl x -> Backend cfg = BackendFile ->
  fileOf x = Some (initial d).
Proof.
  intros H Hb. destruct (NewLogManager_backend cfg d x H)
    as [(_ & _ & c & _ & Hx)|(Hs & _)].
  - unfold fileOf. now rewrite Hx.
  - rewrite Hb in Hs. discriminate.
Qed.

Lemma NewLogManager_isAsync (cfg : Config) (d : Disk) (x : logManagerImpl.t) :
  NewLogManager cfg d = inl x -> isAsync x = Async cfg /\ handlers x = [].
Proof.
  unfold NewLogManager.
  destruct (if (Backend cfg =? BackendFile)%string then _ else _) as [b|]; [|discriminate].
  destruct (Backend.Init (BackendConfig cfg) b) as [[err|] b']; [discriminate|].
  cbn. destruct (Async cfg); intros [= <-]; split; reflexivity.
Qed.

(** X1.  [NewLogManager] refuses every backend type other than "file"
    and "sql", whatever the rest of the configuration and the disk: it
    returns the error "unsupported backend type: " followed by the type. *)
Theorem NewLogManager_unsupported_backend :
  forall (cfg : Config) (d : Disk),
    Backend cfg <> BackendFile -> Backend cfg <> BackendSQL ->
    NewLogManager cfg d = inr ("unsupported backend type: " ++ Backend cfg).
Proof.
  intros cfg d Hf Hs. unfold NewLogManager.
  destruct (String.eqb_spec (Backend cfg) BackendFile) as [E|_]; [contradiction|].
  destruct (String.eqb_spec (Backend cfg) BackendSQL) as [E|_]; [contradiction|].
  reflexivity.
Qed.

Lemma NewLogManager_unsupported_backend_witness :
  NewLogManager (mkConfig "redis" OtherCfg true "") Examples.emptyDisk
  = inr "unsupported backend type: redis".
Proof.
  apply (NewLogManager_unsupported_backend
           (mkConfig "redis" OtherCfg true "") Examples.emptyDisk); discriminate.
Defined.

(** X2.  A backend type whose [BackendConfig] is not of the backend's
    own configuration type makes [NewLogManager] fail with the backend's
    "invalid config type" error, wrapped: the file backend takes only a
    [FileConfig], the SQL backend only an [SQLConfig]. *)
Theorem NewLogManager_config_mismatch :
  forall (cfg : Config) (d : Disk),
    (Backend cfg = BackendFile -> (forall c, BackendConfig cfg <> FileCfg c) ->
     NewLogManager cfg d
     = inr "failed to initialize backend: invalid config type for file backend")
    /\ (Backend cfg = BackendSQL -> (forall c, BackendConfig cfg <> SQLCfg c) ->
        NewLogManager cfg d
        = inr "failed to initialize backend: invalid config type for SQL backend").
Proof.
  intros cfg d. unfold NewLogManager. split; intros -> Hc; cbn.
  - destruct (BackendConfig cfg) as [c|c|]; [now destruct (Hc c)|reflexivity|reflexivity].
  - destruct (BackendConfig cfg) as [c|c|]; [reflexivity|now destruct (Hc c)|reflexivity].
Qed.

(** X3.  For the file backend [NewLogManager] does what the backend's
    [Init] does.  When [Init] returns an error, so does [NewLogManager],
    with the prefix "failed to initialize backend: ".  When [Init]
    returns nil, which takes [os.MkdirAll] and [os.OpenFile] to succeed,
    [NewLogManager] returns a manager with the backend as [Init] left it:
    the given configuration, a free mutex and an open file that holds
    what the path held before (the file is created empty when there was
    none, and never truncated).  The manager has no handler; in
    asynchronous mode it has an empty channel of capacity 1000, an open
    [done] and one worker counted in the wait group, in synchronous mode
    none of these. *)
Theorem NewLogManager_file :
  forall (cfg : Config) (c : FileConfig) (d : Disk),
    Backend cfg = BackendFile -> BackendConfig cfg = FileCfg c ->
    (forall fb,
        FileBackend.Init (FileCfg c) (FileBackend.zero d) = (None, fb) ->
        NewLogManager cfg d
        = inl (mk cfg (Some (FileB fb)) []
                 (if Async cfg then Some (mkChan [] 1000 false) else None)
                 (if Async cfg then Some false else None)
                 (if Async cfg then 1 else 0)
                 (Async cfg))
        /\ FileBackend.config fb = c
        /\ FileBackend.mu fb = false
        /\ FileBackend.file fb = Some (mkHandle false)
        /\ content (FileBackend.disk fb) = Some (initial d))
    /\ (forall err fb,
           FileBackend.Init (FileCfg c) (FileBackend.zero d) = (Some err, fb) ->
           NewLogManager cfg d = inr ("failed to initialize backend: " ++ err)%string).
Proof.
  intros cfg c d Hb Hc. unfold NewLogManager. rewrite Hb, Hc.
  cbn -[FileBackend.Init]. split.
  - intros fb Hi. rewrite Hi. cbn.
    split; [destruct (Async cfg); reflexivity|].
    unfold FileBackend.Init, os_MkdirAll, os_OpenAppend in Hi. cbn in Hi.
    destruct (failing d); [discriminate|]. injection Hi as <-.
    repeat split.
  - intros err fb Hi. rewrite Hi. reflexivity.
Qed.

Lemma NewLogManager_file_witness :
  NewLogManager Examples.asyncConfig (mkDisk (Some Examples.mixedFile) false)
  = inl (mk Examples.asyncConfig
           (Some (FileB (FileBackend.mk false Examples.fileConfig (Some (mkHandle false))
                           (mkDisk (Some Examples.mixedFile) false))))
           [] (Some (mkChan [] 1000 false)) (Some false) 1 true)
  /\ NewLogManager Examples.syncConfig Examples.emptyDisk = inl Examples.syncManager.
Proof.
  split.
  - apply (proj1 (NewLogManager_file Examples.asyncConfig Examples.fileConfig
                    (mkDisk (Some Examples.mixedFile) false) eq_refl eq_refl)
             (FileBackend.mk false Examples.fileConfig (Some (mkHandle false))
                (mkDisk (Some Examples.mixedFile) false))).
    reflexivity.
  - apply (proj1 (NewLogManager_file Examples.syncConfig Examples.fileConfig
                    Examples.emptyDisk eq_refl eq_refl)
             (FileBackend.mk false Examples.fileConfig (Some (mkHandle false))
                (mkDisk (Some "") false))).
    reflexivity.
Defined.

(** X4.  The default configurations fit the backend they are named
    after and no other: with [DefaultFileConfig()] the file backend
    opens "./logs/app.log" on a disk that works, with
    [DefaultSQLConfig(dsn)] the SQL backend starts on any disk with table
    "logs" and driver "mysql", and each is refused by the other backend. *)
Theorem default_configs :
  forall (a : bool) (lvl : LogLevel) (dsn : string) (d : Disk),
    (failing d = false ->
     exists x,
       NewLogManager (mkConfig BackendFile (FileCfg DefaultFileConfig) a lvl) d = inl x
       /\ backend x
          = Some (FileB (FileBackend.mk false (mkFileConfig "./logs/app.log" 10)
                           (Some (mkHandle false)) (mkDisk (Some (initial d)) false))))
    /\ (exists x,
           NewLogManager (mkConfig BackendSQL (SQLCfg (DefaultSQLConfig dsn)) a lvl) d = inl x
           /\ backend x = Some (SQLB (SQLBackend.mk (mkSQLConfig dsn "logs" "mysql"))))
    /\ NewLogManager (mkConfig BackendFile (SQLCfg (DefaultSQLConfig dsn)) a lvl) d
       = inr "failed to initialize backend: invalid config type for file backend"
    /\ NewLogManager (mkConfig BackendSQL (FileCfg DefaultFileConfig) a lvl) d
       = inr "failed to initialize backend: invalid config type for SQL backend".
Proof.
  intros a lvl dsn d. split; [|split; [|split]].
  - intros Hd.
    apply (NewLogManager_opens (mkConfig BackendFile (FileCfg DefaultFileConfig) a lvl)
             DefaultFileConfig d); auto.
  - unfold NewLogManager. cbn. destruct a; eexists; split; reflexivity.
  - reflexivity.
  - reflexivity.
Qed.

End ConstructorProps.

(** ** The file backend from [Init] to [Close], and the SQL stub *)

Module LifecycleProps.
Import time Logger Logger.logManagerImpl Journal StringFacts BackendProps.

Section WithLayout.
Context {layout : RFC3339}.

Lemma Close_ok (fb : FileBackend.t) (f : Handle) :
  FileBackend.mu fb = false -> FileBackend.file fb = Some f -> closed f = false ->
  FileBackend.Close fb = Ret None (FileBackend.set_file None fb).
Proof.
  intros Hmu Hf Hc. unfold FileBackend.Close. rewrite (locked_free _ _ Hmu).
  destruct fb as [m c fl d]; cbn in *. subst. unfold os_Close. rewrite Hc. reflexivity.
Qed.



End WithLayout.



(** X6.  On a free mutex [Write], [Read] and [Close] always return, on
    their error paths as well, and leave the mutex free; [Write] keeps
    the configuration and the file handle, [Read] changes nothing at all,
    [Close] drops the handle and keeps the file on disk.  On a mutex
    that is held, each of the four methods blocks and changes nothing. *)
Theorem mutex_discipline :
  forall {layout : RFC3339} (fb : FileBackend.t)
         (entry : LogEntry) (level : LogLevel) (filter : LogFilter) (before : Time),
    (FileBackend.mu fb = false ->
     (exists r fb', FileBackend.Write entry fb = Ret r fb'
                    /\ FileBackend.mu fb' = false
                    /\ FileBackend.file fb' = FileBackend.file fb
                    /\ FileBackend.config fb' = FileBackend.config fb)
     /\ (exists r, FileBackend.Read level filter fb = Ret r fb)
     /\ (exists r fb', FileBackend.Close fb = Ret r fb'
                       /\ FileBackend.mu fb' = false
                       /\ FileBackend.file fb' = None
                       /\ FileBackend.disk fb' = FileBackend.disk fb))
    /\ (FileBackend.mu fb = true ->
        FileBackend.Write entry fb = Hang fb
        /\ FileBackend.Read level filter fb = Hang fb
        /\ FileBackend.ClearLogs before fb = Hang fb
        /\ FileBackend.Close fb = Hang fb).
Proof.
  intros layout fb entry level filter before. split; intros Hmu.
  - split; [|split].
    + unfold FileBackend.Write. rewrite (locked_free _ _ Hmu).
      destruct fb as [m c [f|] d]; cbn in *; subst.
      * unfold os_WriteString. cbn.
        destruct (closed f); [|destruct (failing d)]; cbn;
          do 2 eexists; (split; [reflexivity|]); repeat split.
      * do 2 eexists; (split; [reflexivity|]); repeat split.
    + unfold FileBackend.Read. rewrite (locked_free _ _ Hmu).
      destruct fb as [m c [f|] d]; cbn in *; subst; [|eexists; reflexivity].
      destruct (os_Open _ d) as [data|err]; cbn; [|eexists; reflexivity].
      destruct (bufio.Scan data) as [toks [err|]]; eexists; reflexivity.
    + unfold FileBackend.Close. rewrite (locked_free _ _ Hmu).
      destruct fb as [m c [f|] d]; cbn in *; subst;
        do 2 eexists; (split; [reflexivity|]); repeat split.
  - unfold FileBackend.Write, FileBackend.Read, FileBackend.ClearLogs, FileBackend.Close.
    rewrite !locked_held by assumption. repeat split.
Qed.

(** X7.  Logs survive a restart: when an open file backend on a disk
    that works is closed and [NewLogManager] is called again for the same
    path, [ReadLogs] on the new manager returns, for every level and
    filter, what [Read] returned before the [Close]. *)
Theorem logs_survive_a_restart :
  forall {layout : RFC3339} (cfg : Config) (fb : FileBackend.t) (f : Handle)
         (data : string) (level : LogLevel) (filter : LogFilter),
    Backend cfg = BackendFile -> BackendConfig cfg = FileCfg (FileBackend.config fb) ->
    FileBackend.mu fb = false -> FileBackend.file fb = Some f -> closed f = false ->
    FileBackend.disk fb = mkDisk (Some data) false ->
    exists r fb1 x,
      FileBackend.Read level filter fb = Ret r fb
      /\ FileBackend.Close fb = Ret None fb1
      /\ NewLogManager cfg (FileBackend.disk fb1) = inl x
      /\ ReadLogs level filter x = Ret r x.
Proof.
  intros layout cfg fb f data level filter Hb Hc Hmu Hf Hcl Hd.
  destruct (ConstructorProps.NewLogManager_opens cfg (FileBackend.config fb)
              (FileBackend.disk fb) Hb Hc) as (x & Hx & Hbx).
  { now rewrite Hd. }
  eexists. exists (FileBackend.set_file None fb), x.
  split; [exact (Read_ok level filter fb f data Hmu Hf Hd)|].
  split; [exact (Close_ok fb f Hmu Hf Hcl)|].
  split; [exact Hx|].
  unfold ReadLogs, onBackend, Backend.Read, onFile. rewrite Hbx.
  erewrite Read_ok; [|reflexivity|reflexivity|cbn; rewrite Hd; reflexivity].
  now rewrite (RoundTrip.set_backend_same _ _ Hbx).
Qed.

Lemma logs_survive_a_restart_witness :
  exists r fb1 x,
    @FileBackend.Read rfc3339 "" noFilter (Examples.backendOn Examples.mixedFile)
    = Ret r (Examples.backendOn Examples.mixedFile)
    /\ @FileBackend.Close (Examples.backendOn Examples.mixedFile) = Ret None fb1
    /\ NewLogManager Examples.syncConfig (FileBackend.disk fb1) = inl x
    /\ @ReadLogs rfc3339 "" noFilter x = Ret r x.
Proof.
  apply (@logs_survive_a_restart rfc3339 Examples.syncConfig
           (Examples.backendOn Examples.mixedFile) (mkHandle false)
           Examples.mixedFile "" noFilter); reflexivity.
Defined.

(** X8.  A call of the manager's [ClearLogs] on an open file backend
    blocks with the backend's mutex held and the file untouched, and
    every later call blocks on that mutex: [WriteLog] in synchronous
    mode, the worker's write in asynchronous mode, [ReadLogs],
    [ClearLogs] and the backend's [Close]. *)
Theorem ClearLogs_blocks_every_later_call :
  forall {layout : RFC3339} (x : logManagerImpl.t) (fb : FileBackend.t) (f : Handle)
         (before : Time) (level : LogLevel) (message : string) (now : Time)
         (lvl : LogLevel) (filter : LogFilter) (m : Mode),
    backend x = Some (FileB fb) ->
    FileBackend.mu fb = false -> FileBackend.file fb = Some f ->
    exists x' b',
      ClearLogs before x = Hang x'
      /\ backend x' = Some b'
      /\ fileOf x' = fileOf x
      /\ (isAsync x = false -> WriteLog level message now x' = Hangs x')
      /\ onBackend (workerWrite m (mkEntry level message now [])) x' b' = Hang x'
      /\ ReadLogs lvl filter x' = Hang x'
      /\ ClearLogs before x' = Hang x'
      /\ closeBackend x' = Hang x'.
Proof.
  intros layout x fb f before level message now lvl filter m Hb Hmu Hf.
  exists (set_backend (Some (FileB (FileBackend.set_mu true fb))) x),
         (FileB (FileBackend.set_mu true fb)).
  assert (Hheld : FileBackend.mu (FileBackend.set_mu true fb) = true) by reflexivity.
  split.
  { unfold ClearLogs, onBackend, Backend.ClearLogs, onFile.
    now rewrite Hb, (ClearLogs_blocks before fb f Hmu Hf). }
  split; [reflexivity|].
  split; [unfold fileOf; cbn; now rewrite Hb|].
  split.
  { intros Hs. unfold WriteLog, onBackend, Backend.Write, onFile, FileBackend.Write.
    cbn [backend set_backend isAsync]. rewrite Hs.
    now rewrite (locked_held _ _ Hheld). }
  split.
  { unfold onBackend, workerWrite, Backend.Write, onFile, FileBackend.Write.
    now rewrite (locked_held _ _ Hheld). }
  split.
  { unfold ReadLogs, onBackend, Backend.Read, onFile, FileBackend.Read.
    cbn [backend set_backend]. now rewrite (locked_held _ _ Hheld). }
  split.
  { unfold ClearLogs, onBackend, Backend.ClearLogs, onFile, FileBackend.ClearLogs.
    cbn [backend set_backend]. now rewrite (locked_held _ _ Hheld). }
  unfold closeBackend, onBackend, Backend.Close, onFile, FileBackend.Close.
  cbn [backend set_backend]. now rewrite (locked_held _ _ Hheld).
Qed.

Lemma ClearLogs_blocks_every_later_call_witness :
  exists x' b',
    @ClearLogs rfc3339 Examples.noon Examples.syncManager = Hang x'
    /\ backend x' = Some b'
    /\ fileOf x' = fileOf Examples.syncManager
    /\ (isAsync Examples.syncManager = false ->
        @WriteLog rfc3339 LevelInfo "started" Examples.noon x' = Hangs x')
    /\ onBackend (@workerWrite rfc3339 Running Examples.started) x' b' = Hang x'
    /\ @ReadLogs rfc3339 "" noFilter x' = Hang x'
    /\ @ClearLogs rfc3339 Examples.noon x' = Hang x'
    /\ @closeBackend x' = Hang x'.
Proof.
  apply (@ClearLogs_blocks_every_later_call rfc3339 Examples.syncManager
           Examples.freshBackend (mkHandle false) Examples.noon
           LevelInfo "started" Examples.noon "" noFilter Running); reflexivity.
Defined.

(** X9.  The SQL backend is a stub that stores nothing: on a manager
    with an SQL backend in synchronous mode [WriteLog] returns nil and
    calls every handler, and yet [ReadLogs] returns the empty list for
    every level and filter; [ClearLogs] and [Close] return nil; none of
    them changes the manager. *)
Theorem SQL_backend_stores_nothing :
  forall {layout : RFC3339} (x : logManagerImpl.t) (sb : SQLBackend.t)
         (level : LogLevel) (message : string) (now : Time)
         (lvl : LogLevel) (filter : LogFilter) (before : Time),
    backend x = Some (SQLB sb) -> isAsync x = false ->
    WriteLog level message now x
    = Returns None (EvWrite (mkEntry level message now []) None
                    :: notify (handlers x) (mkEntry level message now [])) x
    /\ ReadLogs lvl filter x = Ret (inl []) x
    /\ ClearLogs before x = Ret None x
    /\ closeBackend x = Ret None x.
Proof.
  intros layout x sb level message now lvl filter before Hb Hs.
  unfold WriteLog, ReadLogs, ClearLogs, closeBackend, onBackend.
  rewrite Hb, Hs. cbn. rewrite (RoundTrip.set_backend_same _ _ Hb). auto.
Qed.

Lemma SQL_backend_stores_nothing_witness :
  let x := logManagerImpl.mk (mkConfig BackendSQL (SQLCfg (DefaultSQLConfig "db")) false "")
             (Some (SQLB (SQLBackend.mk (DefaultSQLConfig "db")))) [7] None None 0 false in
  @WriteLog rfc3339 LevelInfo "started" Examples.noon x
  = Returns None [EvWrite Examples.started None; EvHandle 7 Examples.started] x
  /\ @ReadLogs rfc3339 "" noFilter x = Ret (inl []) x
  /\ @ClearLogs rfc3339 Examples.noon x = Ret None x
  /\ @closeBackend x = Ret None x.
Proof.
  apply (@SQL_backend_stores_nothing rfc3339
           (logManagerImpl.mk
              (mkConfig BackendSQL (SQLCfg (DefaultSQLConfig "db")) false "")
              (Some (SQLB (SQLBackend.mk (DefaultSQLConfig "db")))) [7] None None 0 false)
           (SQLBackend.mk (DefaultSQLConfig "db"))
           LevelInfo "started" Examples.noon "" noFilter Examples.noon); reflexivity.
Defined.

End LifecycleProps.

(** ** The log file, the backend and the handlers along a run *)

Module JournalProps.
Import time Logger Logger.logManagerImpl Logger.Sched Invariant Journal StringFacts
       BackendProps.

Ltac scrutinee x :=
  lazymatch x with
  | context [match ?y with _ => _ end] => scrutinee y
  | _ => x
  end.

Ltac split_step H :=
  repeat match type of H with
    | context [match ?x with _ => _ end] =>
        let y := scrutinee x in destruct y eqn:?; try discriminate H
    | Some _ = Some _ => injection H as H
    end.

(** The cases of a step, in either mode. *)
Ltac any_step H :=
  match type of H with step ?l _ = Some _ => destruct l end;
  cbn [step] in H;
  unfold WriteLog, ReadLogs, ClearLogs, closeBackend in H;
  split_step H; subst;
  repeat match goal with
    | E : onBackend _ _ _ = Ret _ _ |- _ =>
        apply SchedProps.onBackend_Ret in E; destruct E as (? & ? & ?); subst
    | E : onBackend _ _ _ = Hang _ |- _ =>
        apply SchedProps.onBackend_Hang in E; destruct E as (? & ? & ?); subst
    end.

Section WithLayout.
Context {layout : RFC3339}.

Lemma stored_app (a b : list Event) : stored (a ++ b) = (stored a ++ stored b)%list.
Proof.
  induction a as [|ev a IH]; [reflexivity|].
  destruct ev as [e [r|]| | | | |]; simpl; now rewrite ?IH.
Qed.

Lemma stored_notify (hs : list LogHandler) (e : LogEntry) : stored (notify hs e) = [].
Proof. induction hs; simpl; auto. Qed.

Lemma linesOf_app (a b : list LogEntry) :
  linesOf (a ++ b) = (linesOf a ++ linesOf b)%string.
Proof.
  induction a as [|e a IH]; simpl; [reflexivity|].
  rewrite IH. now rewrite <- StringFacts.app_assoc || now rewrite StringFacts.app_assoc.
Qed.

(** [Write] appends the line of the entry when it returns nil and leaves
    the file alone otherwise. *)
Lemma Write_content (e : LogEntry) (fb : FileBackend.t) (c : string) :
  content (FileBackend.disk fb) = Some c ->
  match FileBackend.Write e fb with
  | Ret None fb' =>
      content (FileBackend.disk fb') = Some (c ++ FileBackend.formatLine e)%string
  | Ret (Some _) fb' => content (FileBackend.disk fb') = Some c
  | Hang fb' => content (FileBackend.disk fb') = Some c
  end.
Proof.
  intros Hc. unfold FileBackend.Write. destruct (FileBackend.mu fb) eqn:Hmu.
  - now rewrite locked_held.
  - rewrite (locked_free _ _ Hmu).
    destruct fb as [m cf [f|] d]; cbn in *; [|assumption].
    unfold os_WriteString. destruct (closed f); cbn; [assumption|].
    destruct (failing d); cbn; [assumption|]. now rewrite Hc.
Qed.

Lemma Read_content (level : LogLevel) (filter : LogFilter) (fb : FileBackend.t) :
  FileBackend.disk (stateOf (FileBackend.Read level filter fb)) = FileBackend.disk fb.
Proof.
  unfold FileBackend.Read. destruct (FileBackend.mu fb) eqn:Hmu.
  - now rewrite locked_held.
  - rewrite (locked_free _ _ Hmu).
    destruct fb as [m cf [f|] d]; cbn; [|reflexivity].
    destruct (os_Open _ d) as [data|err]; cbn; [|reflexivity].
    destruct (bufio.Scan data) as [toks [err|]]; reflexivity.
Qed.

Lemma Close_content (fb : FileBackend.t) :
  FileBackend.disk (stateOf (FileBackend.Close fb)) = FileBackend.disk fb.
Proof.
  unfold FileBackend.Close. destruct (FileBackend.mu fb) eqn:Hmu.
  - now rewrite locked_held.
  - rewrite (locked_free _ _ Hmu). destruct fb as [m cf [f|] d]; reflexivity.
Qed.

Lemma ClearLogs_content (before : Time) (fb : FileBackend.t) :
  FileBackend.disk (stateOf (FileBackend.ClearLogs before fb)) = FileBackend.disk fb.
Proof.
  destruct (FileBackend.mu fb) eqn:Hmu.
  - unfold FileBackend.ClearLogs. now rewrite locked_held.
  - destruct (FileBackend.file fb) as [f|] eqn:Hf.
    + now rewrite (ClearLogs_blocks before fb f Hmu Hf).
    + now rewrite (SchedProps.ClearLogs_closed before fb Hmu Hf).
Qed.

Lemma Backend_Write_content (e : LogEntry) (b : LogBackend) (c : string) :
  contentOf b = Some c ->
  match Backend.Write e b with
  | Ret None b' => contentOf b' = Some (c ++ FileBackend.formatLine e)%string
  | Ret (Some _) b' => contentOf b' = Some c
  | Hang b' => contentOf b' = Some c
  end.
Proof.
  destruct b as [fb|sb]; cbn; [|discriminate].
  intros Hc. pose proof (Write_content e fb c Hc) as H. unfold onFile.
  destruct (FileBackend.Write e fb) as [[err|] fb'|fb']; exact H.
Qed.

Lemma Backend_Read_content (level : LogLevel) (filter : LogFilter) (b : LogBackend) :
  contentOf (stateOf (Backend.Read level filter b)) = contentOf b.
Proof.
  destruct b as [fb|sb]; cbn; [|reflexivity].
  pose proof (Read_content level filter fb) as H. unfold onFile.
  destruct (FileBackend.Read level filter fb); cbn in *; now rewrite H.
Qed.

Lemma Backend_Close_content (b : LogBackend) :
  contentOf (stateOf (Backend.Close b)) = contentOf b.
Proof.
  destruct b as [fb|sb]; cbn; [|reflexivity].
  pose proof (Close_content fb) as H. unfold onFile.
  destruct (FileBackend.Close fb); cbn in *; now rewrite H.
Qed.

Lemma Backend_ClearLogs_content (before : Time) (b : LogBackend) :
  contentOf (stateOf (Backend.ClearLogs before b)) = contentOf b.
Proof.
  destruct b as [fb|sb]; cbn; [|reflexivity].
  pose proof (ClearLogs_content before fb) as H. unfold onFile.
  destruct (FileBackend.ClearLogs before fb); cbn in *; now rewrite H.
Qed.

Lemma workerWrite_content (m : Mode) (e : LogEntry) (b : LogBackend) (c : string) :
  contentOf b = Some c ->
  match workerWrite m e b with
  | Ret evs b' => contentOf b' = Some (c ++ linesOf (stored evs))%string
  | Hang b' => contentOf b' = Some c
  end.
Proof.
  intros Hc. pose proof (Backend_Write_content e b c Hc) as H. unfold workerWrite.
  destruct (Backend.Write e b) as [[err|] b'|b']; [| |exact H].
  - destruct m; cbn; now rewrite StringFacts.app_nil_r.
  - destruct m; cbn; now rewrite StringFacts.app_nil_r.
Qed.

Ltac content_facts :=
  repeat match goal with
    | E : backend ?x = Some ?b |- context [backend ?x] => rewrite E
    | E : Backend.Write ?e ?b = _, Hc : contentOf ?b = Some ?c |- _ =>
        let H := fresh "Hw" in
        pose proof (Backend_Write_content e b c Hc) as H; rewrite E in H; clear E
    | E : workerWrite ?m ?e ?b = _, Hc : contentOf ?b = Some ?c |- _ =>
        let H := fresh "Hw" in
        pose proof (workerWrite_content m e b c Hc) as H; rewrite E in H; clear E
    | E : Backend.Read ?l ?f ?b = _ |- _ =>
        let H := fresh "Hr" in
        pose proof (Backend_Read_content l f b) as H; rewrite E in H;
        cbn [stateOf] in H; clear E
    | E : Backend.ClearLogs ?t ?b = _ |- _ =>
        let H := fresh "Hr" in
        pose proof (Backend_ClearLogs_content t b) as H; rewrite E in H;
        cbn [stateOf] in H; clear E
    | E : Backend.Close ?b = _ |- _ =>
        let H := fresh "Hr" in
        pose proof (Backend_Close_content b) as H; rewrite E in H;
        cbn [stateOf] in H; clear E
    end.

Lemma journal_step (c0 : string) (l : Label) (s s' : State) :
  journal c0 s -> step l s = Some s' -> journal c0 s'.
Proof.
  unfold journal, fileOf. intros Hj H.
  any_step H.
  all: cbn [lm trace emit set_lm set_worker set_closer set_blocked set_clock unblock
            backend set_backend set_logChannel set_done set_wg set_handlers
            RegisterLogHandler].
  all: repeat (rewrite ?stored_app, ?stored_notify; cbn [stored app]);
       rewrite ?List.app_nil_r.
  all: content_facts; try assumption; try congruence.
  all: try (rewrite linesOf_app; cbn [linesOf];
            rewrite ?StringFacts.app_nil_r, <- ?StringFacts.app_assoc; assumption).
  all: try (rewrite linesOf_app; cbn [linesOf];
            rewrite ?StringFacts.app_nil_r, ?StringFacts.app_assoc; assumption).
  all: cbn [backend set_logChannel] in *;
       match goal with
       | E : backend (lm ?s) = Some _, Hj : context [backend (lm ?s)] |- _ =>
           rewrite E in Hj; congruence
       end.
Qed.

Lemma journal_reachable (x : logManagerImpl.t) (c0 : string) (s : State) :
  fileOf x = Some c0 -> reachable (init x) s -> journal c0 s.
Proof.
  intros Hx [ls He].
  eapply (SchedProps.exec_invariant (journal c0)); [| |exact He].
  - intros l s1 s2. apply journal_step.
  - unfold journal, init. cbn. now rewrite Hx, StringFacts.app_nil_r.
Qed.


(** A run in which every intermediate state satisfies what holds of the
    states reachable from [s0]. *)
Lemma exec_reachable_invariant (P : State -> Prop) (s0 : State) :
  (forall l s s', reachable s0 s -> P s -> step l s = Some s' -> P s') ->
  forall ls s s', reachable s0 s -> P s -> exec ls s = Some s' -> P s'.
Proof.
  intros Hstep ls. induction ls as [|l ls IH]; intros s s' Hr Hs He; simpl in He.
  - now injection He as <-.
  - destruct (step l s) as [s1|] eqn:E; [|discriminate].
    eapply IH; [| |exact He].
    + destruct Hr as [ls0 H0]. exists (ls0 ++ [l])%list.
      rewrite SchedProps.exec_app, H0. simpl. now rewrite E.
    + eapply Hstep; eauto.
Qed.

Lemma kindOf_Write (e : LogEntry) (b : LogBackend) :
  kindOf (stateOf (Backend.Write e b)) = kindOf b.
Proof.
  destruct b as [fb|sb]; cbn; [|reflexivity].
  unfold onFile. now destruct (FileBackend.Write e fb).
Qed.

Lemma kindOf_workerWrite (m : Mode) (e : LogEntry) (b : LogBackend) :
  kindOf (stateOf (workerWrite m e b)) = kindOf b.
Proof.
  pose proof (kindOf_Write e b) as H. unfold workerWrite.
  now destruct (Backend.Write e b).
Qed.

Lemma kindOf_Read (level : LogLevel) (filter : LogFilter) (b : LogBackend) :
  kindOf (stateOf (Backend.Read level filter b)) = kindOf b.
Proof.
  destruct b as [fb|sb]; cbn; [|reflexivity].
  unfold onFile. now destruct (FileBackend.Read level filter fb).
Qed.

Lemma kindOf_ClearLogs (before : Time) (b : LogBackend) :
  kindOf (stateOf (Backend.ClearLogs before b)) = kindOf b.
Proof.
  destruct b as [fb|sb]; cbn; [|reflexivity].
  unfold onFile. now destruct (FileBackend.ClearLogs before fb).
Qed.

Lemma kindOf_Close (b : LogBackend) :
  kindOf (stateOf (Backend.Close b)) = kindOf b.
Proof.
  destruct b as [fb|sb]; cbn; [|reflexivity].
  unfold onFile. now destruct (FileBackend.Close fb).
Qed.

Ltac kind_facts :=
  repeat match goal with
    | E : Backend.Write ?e ?b = _ |- _ =>
        let H := fresh "Hk" in
        pose proof (kindOf_Write e b) as H; rewrite E in H; cbn [stateOf] in H; clear E
    | E : workerWrite ?m ?e ?b = _ |- _ =>
        let H := fresh "Hk" in
        pose proof (kindOf_workerWrite m e b) as H; rewrite E in H;
        cbn [stateOf] in H; clear E
    | E : Backend.Read ?l ?f ?b = _ |- _ =>
        let H := fresh "Hk" in
        pose proof (kindOf_Read l f b) as H; rewrite E in H; cbn [stateOf] in H; clear E
    | E : Backend.ClearLogs ?t ?b = _ |- _ =>
        let H := fresh "Hk" in
        pose proof (kindOf_ClearLogs t b) as H; rewrite E in H; cbn [stateOf] in H; clear E
    | E : Backend.Close ?b = _ |- _ =>
        let H := fresh "Hk" in
        pose proof (kindOf_Close b) as H; rewrite E in H; cbn [stateOf] in H; clear E
    end.

Lemma backed_step (k : BackendType) (l : Label) (s s' : State) :
  (exists b, backend (lm s) = Some b /\ kindOf b = k) ->
  step l s = Some s' ->
  exists b, backend (lm s') = Some b /\ kindOf b = k.
Proof.
  intros (b0 & Hb0 & Hk0) H.
  any_step H.
  all: cbn [lm emit set_lm set_worker set_closer set_blocked set_clock unblock
            backend set_backend set_logChannel set_done set_wg set_handlers
            RegisterLogHandler] in *.
  all: kind_facts.
  all: try (eexists; split; [reflexivity|]; congruence).
  all: try (eexists; split; [eassumption|]; congruence).
  all: try congruence.
  injection Hb0 as <-. eexists. split; reflexivity.
Qed.

Lemma handled_app (a b : list Event) : handled (a ++ b) = (handled a ++ handled b)%list.
Proof.
  induction a as [|ev a IH]; [reflexivity|].
  destruct ev; simpl; now rewrite ?IH.
Qed.

Lemma fanout_app (hs : list LogHandler) (a b : list LogEntry) :
  fanout hs (a ++ b) = (fanout hs a ++ fanout hs b)%list.
Proof. apply flat_map_app. Qed.

(** The cases of a step of a manager in asynchronous mode. *)
Ltac async_step Hshape H :=
  let Ha := fresh "Ha" in let ch := fresh "ch" in let Hch := fresh "Hch" in
  let Hcap := fresh "Hcap" in let Hlen := fresh "Hlen" in
  let b := fresh "b" in let Hb := fresh "Hb" in
  let d := fresh "d" in let Hd := fresh "Hd" in
  destruct Hshape as (Ha & (ch & Hch & Hcap & Hlen) & (b & Hb) & (d & Hd));
  match type of H with step ?l _ = Some _ => destruct l end;
  cbn [step] in H;
  try rewrite (SchedProps.WriteLog_async _ _ _ _ _ Ha Hb) in H;
  unfold ReadLogs, ClearLogs, closeBackend in H;
  cbn [logChannel backend isAsync done set_logChannel] in H;
  rewrite ?Hch, ?Hb, ?Ha, ?Hd in H;
  split_step H; subst;
  repeat match goal with
    | E : canSend _ = Some _ |- _ =>
        apply SchedProps.canSend_Some in E; destruct E as (? & ? & ?)
    | E : onBackend _ _ _ = Ret _ _ |- _ =>
        apply SchedProps.onBackend_Ret in E; destruct E as (? & ? & ?); subst
    | E : onBackend _ _ _ = Hang _ |- _ =>
        apply SchedProps.onBackend_Hang in E; destruct E as (? & ? & ?); subst
    end.

Lemma stuck_step (e : LogEntry) (l : Label) (s s' : State) :
  shaped s -> worker s = Stuck e -> step l s = Some s' ->
  worker s' = Stuck e /\ written (trace s') = written (trace s)
  /\ handled (trace s') = handled (trace s).
Proof.
  intros Hshape Hw H.
  async_step Hshape H.
  all: cbn [lm trace worker emit set_lm set_worker set_closer set_blocked set_clock
            unblock] in *.
  all: try congruence.
  all: split; [assumption|].
  all: rewrite ?SchedProps.written_app, ?handled_app; cbn [written handled];
       rewrite ?List.app_nil_r; auto.
Qed.

Lemma Write_device (e : LogEntry) (fb : FileBackend.t) :
  failing (FileBackend.disk (stateOf (FileBackend.Write e fb)))
  = failing (FileBackend.disk fb).
Proof.
  unfold FileBackend.Write. destruct (FileBackend.mu fb) eqn:Hmu.
  - now rewrite locked_held.
  - rewrite (locked_free _ _ Hmu).
    destruct fb as [m cf [f|] d]; cbn in *; [|reflexivity].
    unfold os_WriteString. destruct (closed f); cbn; [reflexivity|].
    destruct (failing d) eqn:Hd; cbn; [exact Hd | reflexivity].
Qed.

Lemma deviceOf_Write (e : LogEntry) (b : LogBackend) :
  deviceOf (stateOf (Backend.Write e b)) = deviceOf b.
Proof.
  destruct b as [fb|sb]; cbn; [|reflexivity].
  pose proof (Write_device e fb) as H. unfold onFile.
  destruct (FileBackend.Write e fb) as [[err|] fb'|fb']; cbn in *; now rewrite H.
Qed.

Lemma deviceOf_workerWrite (m : Mode) (e : LogEntry) (b : LogBackend) :
  deviceOf (stateOf (workerWrite m e b)) = deviceOf b.
Proof.
  pose proof (deviceOf_Write e b) as H. unfold workerWrite.
  now destruct (Backend.Write e b).
Qed.

Lemma deviceOf_Read (level : LogLevel) (filter : LogFilter) (b : LogBackend) :
  deviceOf (stateOf (Backend.Read level filter b)) = deviceOf b.
Proof.
  destruct b as [fb|sb]; cbn; [|reflexivity].
  pose proof (Read_content level filter fb) as H. unfold onFile.
  destruct (FileBackend.Read level filter fb); cbn in *; now rewrite H.
Qed.

Lemma deviceOf_ClearLogs (before : Time) (b : LogBackend) :
  deviceOf (stateOf (Backend.ClearLogs before b)) = deviceOf b.
Proof.
  destruct b as [fb|sb]; cbn; [|reflexivity].
  pose proof (ClearLogs_content before fb) as H. unfold onFile.
  destruct (FileBackend.ClearLogs before fb); cbn in *; now rewrite H.
Qed.

Lemma deviceOf_Close (b : LogBackend) :
  deviceOf (stateOf (Backend.Close b)) = deviceOf b.
Proof.
  destruct b as [fb|sb]; cbn; [|reflexivity].
  pose proof (Close_content fb) as H. unfold onFile.
  destruct (FileBackend.Close fb); cbn in *; now rewrite H.
Qed.

Ltac device_facts :=
  repeat match goal with
    | E : Backend.Write ?e ?b = _ |- _ =>
        let H := fresh "Hk" in
        pose proof (deviceOf_Write e b) as H; rewrite E in H; cbn [stateOf] in H; clear E
    | E : workerWrite ?m ?e ?b = _ |- _ =>
        let H := fresh "Hk" in
        pose proof (deviceOf_workerWrite m e b) as H; rewrite E in H;
        cbn [stateOf] in H; clear E
    | E : Backend.Read ?l ?f ?b = _ |- _ =>
        let H := fresh "Hk" in
        pose proof (deviceOf_Read l f b) as H; rewrite E in H; cbn [stateOf] in H; clear E
    | E : Backend.ClearLogs ?t ?b = _ |- _ =>
        let H := fresh "Hk" in
        pose proof (deviceOf_ClearLogs t b) as H; rewrite E in H; cbn [stateOf] in H; clear E
    | E : Backend.Close ?b = _ |- _ =>
        let H := fresh "Hk" in
        pose proof (deviceOf_Close b) as H; rewrite E in H; cbn [stateOf] in H; clear E
    end.

Lemma device_step (k : option bool) (l : Label) (s s' : State) :
  isFault l = false ->
  (exists b, backend (lm s) = Some b /\ deviceOf b = k) ->
  step l s = Some s' ->
  exists b, backend (lm s') = Some b /\ deviceOf b = k.
Proof.
  intros Hl (b0 & Hb0 & Hk0) H.
  any_step H; try discriminate Hl.
  all: cbn [lm emit set_lm set_worker set_closer set_blocked set_clock unblock
            backend set_backend set_logChannel set_done set_wg set_handlers
            RegisterLogHandler] in *.
  all: device_facts.
  all: try (eexists; split; [reflexivity|]; congruence).
  all: try (eexists; split; [eassumption|]; congruence).
  all: try congruence.
Qed.

Lemma device_run (k : option bool) (ls : list Label) :
  forall s s',
    forallb (fun l => negb (isFault l)) ls = true ->
    (exists b, backend (lm s) = Some b /\ deviceOf b = k) ->
    exec ls s = Some s' ->
    exists b, backend (lm s') = Some b /\ deviceOf b = k.
Proof.
  induction ls as [|l ls IH]; intros s s' Hls Hs He; simpl in *.
  - now injection He as <-.
  - apply andb_true_iff in Hls. destruct Hls as [Hl Hls].
    destruct (step l s) as [s1|] eqn:E; [|discriminate].
    apply (IH s1 s' Hls); [|exact He].
    eapply device_step; eauto. now destruct (isFault l).
Qed.

End WithLayout.


(** X10.  While the device of the log file works, the log file only
    grows.  On every run of a file-backed manager in which the device
    does not start to fail, in either mode and whatever is called,
    [ClearLogs] included: the device still works, and the file holds what
    it held when [NewLogManager] opened it, followed by the lines of the
    entries whose [Write] returned nil, in the order of those calls. *)
Theorem log_file_is_append_only :
  forall {layout : RFC3339} (cfg : Config) (d : Disk) (x : logManagerImpl.t)
         (ls : list Label) (s : State),
    NewLogManager cfg d = inl x -> Backend cfg = BackendFile ->
    forallb (fun l => negb (isFault l)) ls = true ->
    exec ls (init x) = Some s ->
    (exists b, backend (lm s) = Some b /\ deviceOf b = Some false)
    /\ fileOf (lm s) = Some (initial d ++ linesOf (stored (trace s)))%string.
Proof.
  intros layout cfg d x ls s Hn Hb Hls He. split.
  - apply (device_run (Some false) ls (init x) s Hls); [|exact He].
    destruct (ConstructorProps.NewLogManager_backend cfg d x Hn)
      as [(_ & _ & c & _ & Hx)|(Hs & _)].
    + eexists. split; [exact Hx | reflexivity].
    + rewrite Hb in Hs. discriminate.
  - apply (journal_reachable x (initial d) s).
    + eapply ConstructorProps.NewLogManager_fileOf; eauto.
    + now exists ls.
Qed.

Lemma log_file_is_append_only_witness :
  fileOf (lm Examples.twoWritten)
  = Some ("[2025-01-01T12:00:00Z] INFO : started" ++ strings.nl
          ++ "[2025-01-01T12:00:00Z] WARN : second" ++ strings.nl)%string
  /\ (exists b, backend (lm Examples.twoWritten) = Some b /\ deviceOf b = Some false)
  /\ fileOf (lm Examples.twoWritten)
     = Some (initial Examples.emptyDisk
             ++ @linesOf rfc3339 (stored (trace Examples.twoWritten)))%string.
Proof.
  split; [vm_compute; reflexivity|].
  apply (@log_file_is_append_only rfc3339 Examples.asyncConfig Examples.emptyDisk
           Examples.asyncManager Examples.twoEntries Examples.twoWritten).
  - vm_compute; reflexivity.
  - reflexivity.
  - reflexivity.
  - vm_compute; reflexivity.
Defined.

(** X11.  A manager that [NewLogManager] returned always has a backend,
    and always one of the type configured: no call replaces it or sets
    it to nil, so the checks for a nil backend in [WriteLog], [ReadLogs],
    [ClearLogs] and [Close] never fire on such a manager. *)
Theorem backend_is_kept :
  forall {layout : RFC3339} (cfg : Config) (d : Disk) (x : logManagerImpl.t)
         (ls : list Label) (s : State),
    NewLogManager cfg d = inl x -> exec ls (init x) = Some s ->
    exists b, backend (lm s) = Some b /\ kindOf b = Backend cfg.
Proof.
  intros layout cfg d x ls s Hn He.
  eapply (SchedProps.exec_invariant
            (fun s => exists b, backend (lm s) = Some b /\ kindOf b = Backend cfg));
    [| |exact He].
  - intros l s1 s2. apply backed_step.
  - destruct (ConstructorProps.NewLogManager_backend cfg d x Hn)
      as [(Hb & _ & c & _ & Hx)|(Hb & c & _ & Hx)];
      cbn; rewrite Hx; eexists; (split; [reflexivity|]); now rewrite Hb.
Qed.

Lemma backend_is_kept_witness :
  exists b, backend (lm Examples.shutDown) = Some b /\ kindOf b = BackendFile.
Proof.
  apply (@backend_is_kept rfc3339 Examples.asyncConfig Examples.emptyDisk
           Examples.asyncManager Examples.submitThenClose Examples.shutDown).
  - vm_compute; reflexivity.
  - vm_compute; reflexivity.
Defined.

(** X15.  A worker that blocks inside the backend's [Write] (the mutex
    is held, as after a call of [ClearLogs]) stays blocked: whatever is
    called afterwards, no further entry is handed to the backend, no
    handler is called, and [Close] never returns, since it waits for
    the worker without a timeout. *)
Theorem stuck_worker_blocks_Close :
  forall {layout : RFC3339} (cfg : Config) (d : Disk) (x : logManagerImpl.t)
         (ls ls' : list Label) (s s' : State) (e : LogEntry),
    NewLogManager cfg d = inl x -> Async cfg = true ->
    exec ls (init x) = Some s -> worker s = Stuck e ->
    exec ls' s = Some s' ->
    worker s' = Stuck e
    /\ written (trace s') = written (trace s)
    /\ handled (trace s') = handled (trace s)
    /\ forall r, closer s' <> Returned r.
Proof.
  intros layout cfg d x ls ls' s s' e Hn Ha He Hw He'.
  assert (Hq : worker s' = Stuck e
               /\ written (trace s') = written (trace s)
               /\ handled (trace s') = handled (trace s)).
  { eapply (exec_reachable_invariant
              (fun t => worker t = Stuck e
                        /\ written (trace t) = written (trace s)
                        /\ handled (trace t) = handled (trace s)) (init x));
      [|exists ls; exact He| |exact He'].
    - intros l t t' Ht (Hc & Hw' & Hh) Hstep.
      pose proof (SchedProps.shaped_reachable cfg d x t Hn Ha Ht) as Hshape.
      destruct (stuck_step e l t t' Hshape Hc Hstep) as (Hc' & Hw'' & Hh').
      repeat split; congruence.
    - auto. }
  destruct Hq as (Hc & Hw' & Hh). repeat split; try assumption.
  intros r Hr.
  assert (Hs' : reachable (init x) s').
  { exists (ls ++ ls')%list. now rewrite SchedProps.exec_app, He. }
  destruct (SchedProps.closing_reachable cfg d x s' Hn Ha Hs')
    as (_ & _ & (_ & _ & _ & _ & Hex & _)).
  rewrite (Hex r Hr) in Hc. discriminate.
Qed.

Lemma stuck_worker_blocks_Close_witness :
  @exec rfc3339 Examples.clearThenWrite (init Examples.asyncManager)
  = Some Examples.stalled
  /\ @exec rfc3339 Examples.closeStalled Examples.stalled = Some Examples.stillStalled
  /\ accepted (trace Examples.stillStalled)
     = [(1, Examples.started); (2, Examples.second)]
  /\ written (trace Examples.stalled) = []
  /\ worker Examples.stillStalled = Stuck Examples.started
  /\ written (trace Examples.stillStalled) = written (trace Examples.stalled)
  /\ handled (trace Examples.stillStalled) = handled (trace Examples.stalled)
  /\ forall r, closer Examples.stillStalled <> Returned r.
Proof.
  split; [vm_compute; reflexivity|].
  split; [vm_compute; reflexivity|].
  split; [vm_compute; reflexivity|].
  split; [vm_compute; reflexivity|].
  apply (@stuck_worker_blocks_Close rfc3339 Examples.asyncConfig Examples.emptyDisk
           Examples.asyncManager Examples.clearThenWrite Examples.closeStalled
           Examples.stalled Examples.stillStalled Examples.started).
  - vm_compute; reflexivity.
  - reflexivity.
  - vm_compute; reflexivity.
  - vm_compute; reflexivity.
  - vm_compute; reflexivity.
Defined.

Section WithLayout.
Context {layout : RFC3339}.

Lemma registered_step (l : Label) (s s' : State) :
  step l s = Some s' -> handlers (lm s') = (handlers (lm s) ++ registered [l])%list.
Proof.
  intros H. any_step H.
  all: cbn [lm emit set_lm set_worker set_closer set_blocked set_clock unblock
            handlers set_backend set_logChannel set_done set_wg set_handlers
            RegisterLogHandler registered];
       rewrite ?List.app_nil_r; reflexivity.
Qed.

Lemma registered_run (ls : list Label) :
  forall s s', exec ls s = Some s' ->
               handlers (lm s') = (handlers (lm s) ++ registered ls)%list.
Proof.
  induction ls as [|l ls IH]; intros s s' He; simpl in He.
  - injection He as <-. cbn. now rewrite List.app_nil_r.
  - destruct (step l s) as [s1|] eqn:E; [|discriminate].
    rewrite (IH s1 s' He), (registered_step l s s1 E), <- List.app_assoc.
    f_equal. destruct l; reflexivity.
Qed.

End WithLayout.

(** X18.  [RegisterLogHandler] only ever appends: in every state a
    manager can reach, its handlers are those it started with followed
    by the handlers registered since, in the order of the calls, a
    handler registered twice being there twice; no other call changes
    the list. *)
Theorem handlers_accumulate :
  forall {layout : RFC3339} (x : logManagerImpl.t) (ls : list Label) (s : State),
    exec ls (init x) = Some s ->
    handlers (lm s) = (handlers x ++ registered ls)%list.
Proof.
  intros layout x ls s He. exact (registered_run ls (init x) s He).
Qed.

Lemma handlers_accumulate_witness :
  handlers (lm Examples.drainingOnFault) = [7]
  /\ handlers (lm Examples.drainingOnFault)
     = (handlers Examples.asyncManager ++ registered Examples.faultBeforeDrain)%list.
Proof.
  split; [vm_compute; reflexivity|].
  apply (@handlers_accumulate rfc3339 Examples.asyncManager Examples.faultBeforeDrain
           Examples.drainingOnFault).
  vm_compute; reflexivity.
Defined.

(** X20.  The order of a shutdown in asynchronous mode: [done] is
    closed exactly when [Close] has been called; the worker leaves its
    first loop, and returns, only after that; the wait group counts the
    worker until it has returned; and [Close] returns only after the
    worker has, with the channel closed. *)
Theorem shutdown_order :
  forall {layout : RFC3339} (cfg : Config) (d : Disk) (x : logManagerImpl.t)
         (ls : list Label) (s : State),
    NewLogManager cfg d = inl x -> Async cfg = true ->
    exec ls (init x) = Some s ->
    done (lm s) = Some (closeCalled (trace s))
    /\ (draining (worker s) = true -> closeCalled (trace s) = true)
    /\ wg (lm s) = match worker s with Exited => 0 | _ => 1 end
    /\ forall r, closer s = Returned r ->
                 worker s = Exited /\ channelClosed (lm s) = true
                 /\ closeCalled (trace s) = true.
Proof.
  intros layout cfg d x ls s Hn Ha He.
  destruct (SchedProps.afterClose_reachable cfg d x s Hn Ha (ex_intro _ ls He))
    as (_ & _ & (Hcc & Hdone & Hdr & Hwg & Hex & _) & Hafter).
  split; [exact Hdone|]. split; [exact Hdr|]. split; [exact Hwg|].
  intros r Hr. split; [exact (Hex r Hr)|].
  split; [exact (proj1 (Hafter r Hr))|].
  rewrite Hcc, Hr. reflexivity.
Qed.

Lemma shutdown_order_witness :
  closer Examples.shutDown = Returned None
  /\ done (lm Examples.shutDown) = Some (closeCalled (trace Examples.shutDown))
  /\ (draining (worker Examples.shutDown) = true ->
      closeCalled (trace Examples.shutDown) = true)
  /\ wg (lm Examples.shutDown)
     = match worker Examples.shutDown with Exited => 0 | _ => 1 end
  /\ forall r, closer Examples.shutDown = Returned r ->
               worker Examples.shutDown = Exited
               /\ channelClosed (lm Examples.shutDown) = true
               /\ closeCalled (trace Examples.shutDown) = true.
Proof.
  split; [vm_compute; reflexivity|].
  apply (@shutdown_order rfc3339 Examples.asyncConfig Examples.emptyDisk
           Examples.asyncManager Examples.submitThenClose Examples.shutDown).
  - vm_compute; reflexivity.
  - reflexivity.
  - vm_compute; reflexivity.
Defined.

End JournalProps.

(** ** The asynchronous manager, one action at a time *)

Module InterleavingProps.
Import time Logger Logger.logManagerImpl Logger.Interleaving Ordering.

Ltac scrutinee x :=
  lazymatch x with
  | context [match ?y with _ => _ end] => scrutinee y
  | _ => x
  end.

Ltac split_step H :=
  repeat match type of H with
    | context [match ?x with _ => _ end] =>
        let y := scrutinee x in destruct y eqn:?; try discriminate H
    | Some _ = Some _ => injection H as H
    end.

(** The cases of a step of a manager in asynchronous mode. *)
Ltac async_step Hshape H :=
  let Ha := fresh "Ha" in let ch := fresh "ch" in let Hch := fresh "Hch" in
  let Hcap := fresh "Hcap" in let Hlen := fresh "Hlen" in
  let b := fresh "b" in let Hb := fresh "Hb" in
  let d := fresh "d" in let Hd := fresh "Hd" in
  let Hcalls := fresh "Hcalls" in
  destruct Hshape as (Ha & (ch & Hch & Hcap & Hlen) & (b & Hb) & (d & Hd) & Hcalls);
  match type of H with step ?l _ = Some _ => destruct l end;
  cbn [step] in H;
  unfold ReadLogs, ClearLogs, closeBackend in H;
  cbn [logChannel backend isAsync done set_logChannel] in H;
  rewrite ?Hch, ?Hb, ?Ha, ?Hd in H;
  split_step H; subst;
  repeat match goal with
    | E : Sched.canSend _ = Some _ |- _ =>
        apply SchedProps.canSend_Some in E; destruct E as (? & ? & ?)
    | E : onBackend _ _ _ = Ret _ _ |- _ =>
        apply SchedProps.onBackend_Ret in E; destruct E as (? & ? & ?); subst
    | E : onBackend _ _ _ = Hang _ |- _ =>
        apply SchedProps.onBackend_Hang in E; destruct E as (? & ? & ?); subst
    end.

(** The cases of a step of a manager in synchronous mode. *)
Ltac sync_step Hdirect H :=
  let Ha := fresh "Ha" in let Hw := fresh "Hw" in let Hch := fresh "Hch" in
  let b := fresh "b" in let Hb := fresh "Hb" in
  let Hcalls := fresh "Hcalls" in let Hnd := fresh "Hnd" in
  destruct Hdirect as (Ha & Hw & Hch & (b & Hb) & Hcalls & Hnd);
  match type of H with step ?l _ = Some _ => destruct l end;
  cbn [step] in H;
  unfold ReadLogs, ClearLogs, closeBackend in H;
  rewrite ?Hch, ?Hb, ?Ha, ?Hw in H; cbn beta iota in H;
  try discriminate H;
  split_step H; subst;
  repeat match goal with
    | E : onBackend _ _ _ = Ret _ _ |- _ =>
        apply SchedProps.onBackend_Ret in E; destruct E as (? & ? & ?); subst
    | E : onBackend _ _ _ = Hang _ |- _ =>
        apply SchedProps.onBackend_Hang in E; destruct E as (? & ? & ?); subst
    end.

Ltac same_channel :=
  repeat match goal with
    | H1 : logChannel ?x = Some ?a, H2 : logChannel ?x = Some ?b |- _ =>
        rewrite H1 in H2; injection H2 as ->
    end.

Ltac unfold_state :=
  cbn [lm worker closer calls clock trace emit set_lm set_worker set_closer set_calls
       set_clock setCall endCall
       isAsync handlers backend logChannel done wg
       set_backend set_logChannel set_done set_wg set_handlers RegisterLogHandler] in *.

Section WithLayout.
Context {layout : RFC3339}.

Lemma run_app (a b : list Label) (s : State) :
  exec (a ++ b) s = match exec a s with Some s' => exec b s' | None => None end.
Proof.
  revert s. induction a as [|l a IH]; intros s; simpl; [reflexivity|].
  destruct (step l s); [apply IH | reflexivity].
Qed.

Lemma run_invariant (P : State -> Prop) :
  (forall l s s', P s -> step l s = Some s' -> P s') ->
  forall ls s s', P s -> exec ls s = Some s' -> P s'.
Proof.
  intros Hstep ls. induction ls as [|l ls IH]; intros s s' Hs He; simpl in He.
  - now injection He as <-.
  - destruct (step l s) as [s1|] eqn:E; [|discriminate].
    eapply IH; [|exact He]. eapply Hstep; eauto.
Qed.

(** *** The calls in progress *)

Lemma find_without_same (p : Producer) (cs : list (Producer * Call)) :
  find (fun pc => fst pc =? p) (without p cs) = None.
Proof.
  induction cs as [|[q c] cs IH]; simpl; [reflexivity|].
  destruct (q =? p) eqn:E; simpl; [exact IH|]. now rewrite E.
Qed.

Lemma find_without_other (p q : Producer) (cs : list (Producer * Call)) :
  q <> p ->
  find (fun pc => fst pc =? q) (without p cs) = find (fun pc => fst pc =? q) cs.
Proof.
  intros Hq. induction cs as [|[r c] cs IH]; simpl; [reflexivity|].
  destruct (r =? p) eqn:E; simpl.
  - apply Nat.eqb_eq in E. subst r.
    destruct (Nat.eqb_spec p q); [congruence | exact IH].
  - destruct (r =? q); [reflexivity | exact IH].
Qed.

Lemma find_app_none {A : Type} (f : A -> bool) (a b : list A) :
  find f a = None -> find f (a ++ b) = find f b.
Proof.
  induction a as [|x a IH]; simpl; [reflexivity|].
  destruct (f x); [discriminate | exact IH].
Qed.

Lemma find_app_some {A : Type} (f : A -> bool) (a b : list A) (x : A) :
  find f a = Some x -> find f (a ++ b) = Some x.
Proof.
  induction a as [|y a IH]; simpl; [discriminate|].
  destruct (f y); [auto | exact IH].
Qed.

Lemma find_app_keep {A : Type} (f : A -> bool) (a : list A) (x : A) :
  f x = false -> find f (a ++ [x]) = find f a.
Proof.
  intros Hx. induction a as [|y a IH]; simpl; [now rewrite Hx|].
  destruct (f y); [reflexivity | exact IH].
Qed.

Lemma callOf_setCall_same (p : Producer) (c : Call) (s : State) :
  callOf p (setCall p c s) = Some c.
Proof.
  unfold callOf, setCall. cbn [calls set_calls].
  rewrite find_app_none; [|apply find_without_same]. simpl.
  now rewrite Nat.eqb_refl.
Qed.

Lemma callOf_setCall_other (p q : Producer) (c : Call) (s : State) :
  q <> p -> callOf q (setCall p c s) = callOf q s.
Proof.
  intros Hq. unfold callOf, setCall. cbn [calls set_calls].
  rewrite find_app_keep.
  - now rewrite find_without_other.
  - simpl. apply Nat.eqb_neq. congruence.
Qed.

Lemma callOf_endCall_same (p : Producer) (s : State) : callOf p (endCall p s) = None.
Proof. unfold callOf, endCall. cbn [calls set_calls]. now rewrite find_without_same. Qed.

Lemma callOf_endCall_other (p q : Producer) (s : State) :
  q <> p -> callOf q (endCall p s) = callOf q s.
Proof.
  intros Hq. unfold callOf, endCall. cbn [calls set_calls].
  now rewrite find_without_other.
Qed.

Lemma callOf_wake (p : Producer) (cs : list (Producer * Call)) :
  match find (fun pc => fst pc =? p) (map (fun pc => (fst pc, wake (snd pc))) cs) with
  | Some pc => Some (snd pc)
  | None => None
  end
  = option_map wake (match find (fun pc => fst pc =? p) cs with
                     | Some pc => Some (snd pc)
                     | None => None
                     end).
Proof.
  induction cs as [|[q c] cs IH]; simpl; [reflexivity|].
  destruct (q =? p); [reflexivity | exact IH].
Qed.

Lemma callOf_In (p : Producer) (c : Call) (s : State) :
  callOf p s = Some c -> In (p, c) (calls s).
Proof.
  unfold callOf.
  destruct (find (fun pc => fst pc =? p) (calls s)) as [[q c']|] eqn:E; [|discriminate].
  intros [= <-]. apply find_some in E. destruct E as [Hin Hq].
  simpl in Hq. apply Nat.eqb_eq in Hq. now subst.
Qed.

Lemma callOf_async (p : Producer) (c : Call) (s : State) :
  forallb (fun pc => asyncCall (snd pc)) (calls s) = true ->
  callOf p s = Some c -> asyncCall c = true.
Proof.
  intros Hall Hc. apply callOf_In in Hc.
  rewrite forallb_forall in Hall. exact (Hall _ Hc).
Qed.

Lemma forallb_without (f : Producer * Call -> bool) (p : Producer)
      (cs : list (Producer * Call)) :
  forallb f cs = true -> forallb f (without p cs) = true.
Proof.
  intros H. rewrite forallb_forall in *. intros x Hx.
  apply filter_In in Hx. now apply H.
Qed.

Lemma async_setCall (p : Producer) (c : Call) (cs : list (Producer * Call)) :
  forallb (fun pc => asyncCall (snd pc)) cs = true -> asyncCall c = true ->
  forallb (fun pc => asyncCall (snd pc)) (without p cs ++ [(p, c)]) = true.
Proof.
  intros H Hc. rewrite forallb_app, forallb_without by assumption. simpl.
  now rewrite Hc.
Qed.

Lemma async_wake (cs : list (Producer * Call)) :
  forallb (fun pc => asyncCall (snd pc)) cs = true ->
  forallb (fun pc => asyncCall (snd pc))
          (map (fun pc => (fst pc, wake (snd pc))) cs) = true.
Proof.
  induction cs as [|[q c] cs IH]; simpl; [reflexivity|].
  intros H. apply andb_true_iff in H. destruct H as [Hc H].
  rewrite (IH H), andb_true_r. now destruct c.
Qed.

(** *** The fields of an asynchronous manager *)

Lemma shaped_start (cfg : Config) (d : Disk) (x : logManagerImpl.t) :
  NewLogManager cfg d = inl x -> Async cfg = true -> shaped (init x).
Proof.
  intros H Ha. destruct (SchedProps.NewLogManager_async cfg d x H Ha) as [b ->].
  unfold shaped, init. cbn. repeat split; eauto.
  eexists. split; [reflexivity|]. cbn. split; [reflexivity | lia].
Qed.

(** No call of an asynchronous manager is in a state of the synchronous path. *)
Ltac no_sync_call :=
  try match goal with
    | E : callOf ?p ?s = Some ?c, Hc : forallb _ (calls ?s) = true |- _ =>
        let H := fresh in
        pose proof (callOf_async p c s Hc E) as H; discriminate H
    end.

Lemma shaped_kept (l : Label) (s s' : State) :
  shaped s -> step l s = Some s' -> shaped s'.
Proof.
  intros Hs H. unfold shaped.
  async_step Hs H; no_sync_call; same_channel; unfold_state;
    rewrite ?Ha, ?Hch, ?Hb, ?Hd.
  all: repeat split; eauto.
  all: try (eexists; split; [reflexivity|]; cbn; split; [assumption|]).
  all: try (rewrite List.length_app; simpl; lia).
  all: try (simpl in Hlen; lia).
  all: try (apply async_setCall; [assumption | reflexivity]).
  all: try (apply forallb_without; assumption).
  all: try (apply async_wake; assumption).
  all: match goal with E : buf _ = _ |- _ => rewrite E; simpl; lia end.
Qed.

Lemma shaped_always (cfg : Config) (d : Disk) (x : logManagerImpl.t) (s : State) :
  NewLogManager cfg d = inl x -> Async cfg = true ->
  reachable (init x) s -> shaped s.
Proof.
  intros H Ha [ls He].
  eapply (run_invariant shaped); [|eapply shaped_start; eauto | exact He].
  intros l s1 s2 H1 H2. eapply shaped_kept; eauto.
Qed.

(** *** Reading a run, piece by piece *)

Lemma sent_split (a b : list Event) : sent (a ++ b) = (sent a ++ sent b)%list.
Proof.
  induction a as [|ev a IH]; [reflexivity|].
  destruct ev; simpl; now rewrite ?IH.
Qed.

Lemma accepted_split (a b : list Event) : accepted (a ++ b) = (accepted a ++ accepted b)%list.
Proof.
  induction a as [|ev a IH]; [reflexivity|].
  destruct ev as [|p e [r|]| | | | |]; simpl; now rewrite ?IH.
Qed.

Lemma written_split (a b : list Event) : written (a ++ b) = (written a ++ written b)%list.
Proof.
  induction a as [|ev a IH]; [reflexivity|].
  destruct ev; simpl; now rewrite ?IH.
Qed.

Lemma handled_split (a b : list Event) : handled (a ++ b) = (handled a ++ handled b)%list.
Proof.
  induction a as [|ev a IH]; [reflexivity|].
  destruct ev; simpl; now rewrite ?IH.
Qed.

Lemma closeCalled_split (a b : list Event) :
  closeCalled (a ++ b) = closeCalled a || closeCalled b.
Proof. apply existsb_app. Qed.

Lemma beforeClose_split (a b : list Event) :
  beforeClose (a ++ b)
  = if closeCalled a then beforeClose a else (a ++ beforeClose b)%list.
Proof.
  induction a as [|ev a IH]; [reflexivity|].
  destruct ev; simpl; rewrite ?IH; try reflexivity;
    destruct (closeCalled a); reflexivity.
Qed.

Lemma beforeClose_all (tr : list Event) : closeCalled tr = false -> beforeClose tr = tr.
Proof.
  induction tr as [|ev tr IH]; [reflexivity|].
  destruct ev; simpl; intros H; try discriminate; now rewrite IH.
Qed.

Lemma entriesBy_split (p : Producer) (a b : list (Producer * LogEntry)) :
  entriesBy p (a ++ b) = (entriesBy p a ++ entriesBy p b)%list.
Proof. unfold entriesBy. now rewrite filter_app, map_app. Qed.

(** What was sent before the call of [Close] was sent. *)
Lemma sent_beforeClose (tr : list Event) :
  exists rest, sent tr = (sent (beforeClose tr) ++ rest)%list.
Proof.
  induction tr as [|ev tr [rest IH]]; [now exists []|].
  destruct ev; simpl; rewrite ?IH; eauto.
Qed.

(** *** First in, first out *)

Ltac trace_simpl :=
  repeat (rewrite ?sent_split, ?accepted_split, ?written_split, ?handled_split, ?map_app;
          cbn [sent accepted written handled map snd fst app]);
  rewrite ?List.app_nil_r.

Lemma fifo_start (x : logManagerImpl.t) (b : LogBackend) (cfg : Config) :
  x = mk cfg (Some b) [] (Some (make queueCapacity)) (Some false) 1 true ->
  fifo (init x).
Proof. intros ->. reflexivity. Qed.

Lemma held_notifying (m : Mode) (e : LogEntry) (hs : list LogHandler) :
  held (notifying m e hs) = [].
Proof. now destruct hs. Qed.

Ltac known_state :=
  repeat match goal with
    | E : worker ?s = _ |- _ => rewrite E in *
    | E : buf ?c = _ |- _ => rewrite E in *
    end.

Lemma fifo_kept (l : Label) (s s' : State) :
  shaped s -> fifo s -> step l s = Some s' -> fifo s'.
Proof.
  unfold fifo, queued. intros Hs Hf H.
  async_step Hs H; no_sync_call; same_channel; unfold_state;
    rewrite ?Hch in *; trace_simpl; cbn [held buf send] in *; try assumption.
  all: known_state; rewrite ?held_notifying; cbn [held app] in *;
       rewrite Hf, <- ?List.app_assoc; reflexivity.
Qed.



(** *** The calls of one goroutine, in order *)

Lemma entriesBy_one (p q : Producer) (e : LogEntry) :
  entriesBy p [(q, e)] = if q =? p then [e] else [].
Proof. unfold entriesBy. simpl. now destruct (q =? p). Qed.

Lemma pendingNil_setCall (p q : Producer) (c : Call) (s : State) :
  pendingNil q (setCall p c s)
  = if q =? p
    then match c with Returning e None => [e] | _ => [] end
    else pendingNil q s.
Proof.
  unfold pendingNil. destruct (Nat.eqb_spec q p) as [->|Hq].
  - now rewrite callOf_setCall_same.
  - now rewrite callOf_setCall_other.
Qed.

Lemma pendingNil_endCall (p q : Producer) (s : State) :
  pendingNil q (endCall p s) = if q =? p then [] else pendingNil q s.
Proof.
  unfold pendingNil. destruct (Nat.eqb_spec q p) as [->|Hq].
  - now rewrite callOf_endCall_same.
  - now rewrite callOf_endCall_other.
Qed.

Lemma pendingNil_calls (q : Producer) (s s' : State) :
  calls s' = calls s -> pendingNil q s' = pendingNil q s.
Proof. unfold pendingNil, callOf. now intros ->. Qed.

Lemma pendingNil_wake (q : Producer) (s : State) (s' : State) :
  calls s' = map (fun pc => (fst pc, wake (snd pc))) (calls s) ->
  pendingNil q s' = pendingNil q s.
Proof.
  unfold pendingNil, callOf. intros ->. rewrite callOf_wake.
  destruct (find (fun pc => fst pc =? q) (calls s)) as [[r c]|]; [|reflexivity].
  destruct c as [? ?|? [?|]|?|? ?|?|]; reflexivity.
Qed.

Lemma pendingNil_emit (q : Producer) (evs : list Event) (s : State) :
  pendingNil q (emit evs s) = pendingNil q s.
Proof. reflexivity. Qed.

Lemma pendingNil_set_lm (q : Producer) (x : logManagerImpl.t) (s : State) :
  pendingNil q (set_lm x s) = pendingNil q s.
Proof. reflexivity. Qed.

Lemma pendingNil_set_worker (q : Producer) (w : Worker) (s : State) :
  pendingNil q (set_worker w s) = pendingNil q s.
Proof. reflexivity. Qed.

Lemma pendingNil_set_closer (q : Producer) (c : Closer) (s : State) :
  pendingNil q (set_closer c s) = pendingNil q s.
Proof. reflexivity. Qed.

Lemma pendingNil_set_clock (q : Producer) (n : nat) (s : State) :
  pendingNil q (set_clock n s) = pendingNil q s.
Proof. reflexivity. Qed.

Ltac pending_simpl q s :=
  repeat first
    [ rewrite pendingNil_emit
    | rewrite pendingNil_set_lm
    | rewrite pendingNil_set_worker
    | rewrite pendingNil_set_closer
    | rewrite pendingNil_set_clock
    | rewrite pendingNil_setCall
    | rewrite pendingNil_endCall
    | rewrite (pendingNil_wake q s) by reflexivity ].

Lemma ordered_start (x : logManagerImpl.t) : ordered (init x).
Proof. intros p. reflexivity. Qed.

Lemma ordered_kept (l : Label) (s s' : State) :
  shaped s -> ordered s -> step l s = Some s' -> ordered s'.
Proof.
  intros Hs Ho H q. specialize (Ho q).
  async_step Hs H; no_sync_call; pending_simpl q s.
  all: unfold_state; trace_simpl; rewrite ?entriesBy_split, ?entriesBy_one.
  all: try assumption.
  all: rewrite ?(Nat.eqb_sym p q).
  all: destruct (Nat.eqb_spec q p) as [->|Hq];
       try (destruct r); cbn [entriesBy map filter fst snd Nat.eqb];
       rewrite ?Nat.eqb_refl, ?List.app_nil_r; try assumption.
  all: try (replace (p =? q) with false by (symmetry; apply Nat.eqb_neq; congruence));
       cbn [map]; rewrite ?List.app_nil_r; try assumption.
  all: unfold pendingNil in Ho;
       match goal with E : callOf ?p ?s = _ |- _ => rewrite E in Ho end;
       rewrite ?List.app_nil_r in Ho; cbn [map snd]; rewrite Ho; reflexivity.
Qed.


(** *** The shutdown *)

Lemma closing_start (x : logManagerImpl.t) (b : LogBackend) (cfg : Config) :
  x = mk cfg (Some b) [] (Some (make queueCapacity)) (Some false) 1 true ->
  closing (init x).
Proof.
  intros ->. unfold closing, init. cbn. repeat split; try discriminate.
Qed.

Lemma draining_notifying (m : Mode) (e : LogEntry) (hs : list LogHandler) :
  draining (notifying m e hs) = match m with Draining => true | Running => false end.
Proof. destruct hs, m; reflexivity. Qed.

Lemma gone_notifying (m : Mode) (e : LogEntry) (hs : list LogHandler) :
  gone (notifying m e hs) = false.
Proof. destruct hs; reflexivity. Qed.

Lemma exited_notifying (m : Mode) (e : LogEntry) (hs : list LogHandler) :
  notifying m e hs <> Exited.
Proof. destruct hs; discriminate. Qed.

Lemma beforeClose_later (tr evs : list Event) :
  closeCalled tr = true -> beforeClose (tr ++ evs) = beforeClose tr.
Proof. intros H. now rewrite beforeClose_split, H. Qed.

Lemma gone_draining (w : Worker) : gone w = true -> draining w = true.
Proof. now destruct w. Qed.

Lemma closing_kept (l : Label) (s s' : State) :
  shaped s -> fifo s -> closing s -> step l s = Some s' -> closing s'.
Proof.
  unfold closing. intros Hs Hf (C1 & C2 & C3 & C4 & C5 & C6) H.
  unfold fifo, queued in Hf.
  assert (C7 : gone (worker s) = true -> closeCalled (trace s) = true)
    by (intros Hg; apply C3, gone_draining, Hg).
  async_step Hs H; no_sync_call; same_channel; unfold_state.
  all: try (repeat split; assumption).
  all: rewrite ?closeCalled_split, ?written_split; cbn [closeCalled existsb written];
       rewrite ?orb_false_r, ?orb_true_r, ?List.app_nil_r.
  all: try (repeat split; assumption).
  all: repeat match goal with |- _ /\ _ => split end.
  all: try assumption.
  all: try (intros Hg; rewrite beforeClose_later by (apply C7, Hg); apply C6, Hg).
  all: rewrite ?Hch in *; known_state;
       rewrite ?draining_notifying, ?gone_notifying in *;
       cbn [draining gone pastWait held app] in *.
  all: try first [assumption | discriminate | congruence].
  all: try (intros Hg; first [discriminate Hg | apply C3, Hg | apply C5 in Hg; first [discriminate Hg | exact Hg]]).
  - rewrite C4. now destruct (handlers (lm s)).
  - rewrite C4. match goal with |- context [notifying _ _ ?l] => now destruct l end.
  - intros _. destruct (sent_beforeClose (trace s)) as [rest Hrest].
    exists (map snd rest). rewrite List.app_nil_r in Hf.
    now rewrite <- Hf, Hrest, map_app.
  - rewrite C4. reflexivity.
  - intros _. destruct (worker s); first [reflexivity | discriminate].
Qed.

Lemma afterClose_start (x : logManagerImpl.t) : afterClose (init x).
Proof. split; discriminate. Qed.

Lemma afterClose_kept (l : Label) (s s' : State) :
  shaped s -> closing s -> afterClose s -> step l s = Some s' -> afterClose s'.
Proof.
  unfold afterClose, closing. intros Hs (C1 & C2 & C3 & C4 & C5 & C6) [A1 A2] H.
  assert (C7 : pastBackend (closer s) = true -> worker s = Exited)
    by (intros Hp; apply C5; now destruct (closer s)).
  async_step Hs H; no_sync_call; same_channel; unfold_state.
  all: try (split; assumption).
  all: unfold Sched.channelClosed in *; unfold_state; rewrite ?Hch in *.
  all: try (split; assumption).
  all: split; [try assumption|].
  all: try (intros Hp1 Hp2; first [discriminate Hp1 | congruence | reflexivity
                                  | specialize (A1 Hp1 Hp2); congruence]).
  all: try (intros Hp; first [discriminate Hp | apply C7 in Hp; congruence]).
  all: try assumption.
  all: repeat match goal with E : closer ?s0 = _ |- _ => rewrite E in * end.
  all: try (intros _ _; apply A1; [reflexivity | discriminate]).
  all: try (intros _; eexists; split; [reflexivity|];
            eapply SchedProps.Backend_Close_closed; eassumption).
  all: intros Hp; destruct (A2 Hp) as (b1 & Hb1 & Hcb);
       rewrite Hb in Hb1; injection Hb1 as <-.
  all: try match goal with
      | E : Backend.Read _ _ _ = _ |- _ =>
          destruct (SchedProps.Backend_Read_closed _ _ _ _ Hcb E) as [? Hx'];
          first [discriminate Hx' | injection Hx' as _ <-]
      | E : Backend.ClearLogs _ _ = _ |- _ =>
          destruct (SchedProps.Backend_ClearLogs_closed _ _ _ Hcb E) as [? Hx'];
          first [discriminate Hx' | injection Hx' as _ <-]
      end.
  all: try (eexists; split; [reflexivity | assumption]).
Qed.

(** *** Before the call of [Close] *)

Lemma ordered_before (s : State) :
  ordered s -> closeCalled (trace s) = false -> orderedBefore s.
Proof.
  intros Ho Hc p. exists (pendingNil p s). rewrite (beforeClose_all _ Hc). apply Ho.
Qed.

Lemma orderedBefore_start (x : logManagerImpl.t) : orderedBefore (init x).
Proof. intros p. now exists []. Qed.

Lemma orderedBefore_kept (l : Label) (s s' : State) :
  shaped s -> ordered s -> orderedBefore s -> step l s = Some s' -> orderedBefore s'.
Proof.
  intros Hs Ho Hb H.
  destruct (closeCalled (trace s)) eqn:Hc.
  - (* after the call of [Close] the part before it is fixed *)
    intros q. specialize (Hb q).
    async_step Hs H; no_sync_call; unfold_state;
      rewrite ?(beforeClose_later _ _ Hc); exact Hb.
  - pose proof (ordered_kept l s s' Hs Ho H) as Ho'.
    destruct (closeCalled (trace s')) eqn:Hc'; [|now apply ordered_before].
    intros q. specialize (Ho q). exists (pendingNil q s).
    async_step Hs H; no_sync_call; unfold_state;
      rewrite ?closeCalled_split, ?Hc in Hc'; cbn in Hc'; try discriminate Hc'.
    all: rewrite beforeClose_split, Hc; cbn [beforeClose]; rewrite List.app_nil_r; exact Ho.
Qed.

Lemma sound_always (cfg : Config) (d : Disk) (x : logManagerImpl.t) (s : State) :
  NewLogManager cfg d = inl x -> Async cfg = true ->
  reachable (init x) s -> sound s.
Proof.
  intros H Ha [ls He].
  eapply (run_invariant sound); [| |exact He].
  - intros l s1 s2 (H1 & H2 & H3 & H4 & H5 & H6) Hst. unfold sound.
    split; [eapply shaped_kept; eauto|].
    split; [eapply fifo_kept; eauto|].
    split; [eapply ordered_kept; eauto|].
    split; [eapply closing_kept; eauto|].
    split; [eapply afterClose_kept; eauto|].
    eapply orderedBefore_kept; eauto.
  - destruct (SchedProps.NewLogManager_async cfg d x H Ha) as [b Hx].
    unfold sound.
    split; [eapply shaped_start; eauto|].
    split; [eapply fifo_start; eauto|].
    split; [apply ordered_start|].
    split; [eapply closing_start; eauto|].
    split; [apply afterClose_start | apply orderedBefore_start].
Qed.

(** *** The places of a goroutine's sends *)

Lemma slotsFrom_entry (p : Producer) (l : list (Producer * LogEntry)) :
  forall (n i : nat) (e : LogEntry),
    nth_error (entriesBy p l) i = Some e ->
    exists a, nth_error (slotsFrom n p l) i = Some (n + a)
              /\ nth_error l a = Some (p, e).
Proof.
  induction l as [|[q e'] l IH]; intros n i e H.
  - destruct i; discriminate H.
  - unfold entriesBy in H. cbn [slotsFrom filter fst] in *.
    destruct (Nat.eqb_spec q p) as [->|Hq].
    + destruct i as [|i]; cbn [map nth_error snd] in *.
      * injection H as <-. exists 0. split; [f_equal; lia | reflexivity].
      * destruct (IH (S n) i e H) as (a & Ha1 & Ha2).
        exists (S a). split; [rewrite Ha1; f_equal; lia | exact Ha2].
    + destruct (IH (S n) i e H) as (a & Ha1 & Ha2).
      exists (S a). split; [rewrite Ha1; f_equal; lia | exact Ha2].
Qed.

Lemma slotsFrom_least (p : Producer) (l : list (Producer * LogEntry)) :
  forall (n i a : nat), nth_error (slotsFrom n p l) i = Some a -> n <= a.
Proof.
  induction l as [|[q e'] l IH]; intros n i a H; cbn [slotsFrom fst] in H.
  - destruct i; discriminate H.
  - destruct (q =? p).
    + destruct i as [|i]; cbn [nth_error] in H.
      * injection H as <-. lia.
      * apply IH in H. lia.
    + apply IH in H. lia.
Qed.

Lemma slotsFrom_increasing (p : Producer) (l : list (Producer * LogEntry)) :
  forall (n i j a b : nat),
    i < j ->
    nth_error (slotsFrom n p l) i = Some a ->
    nth_error (slotsFrom n p l) j = Some b -> a < b.
Proof.
  induction l as [|[q e'] l IH]; intros n i j a b Hij Hi Hj; cbn [slotsFrom fst] in *.
  - destruct i; discriminate Hi.
  - destruct (q =? p); [|eapply IH; eauto].
    destruct j as [|j]; [lia|]. cbn [nth_error] in Hj.
    destruct i as [|i]; cbn [nth_error] in Hi.
    + injection Hi as <-. apply slotsFrom_least in Hj. lia.
    + eapply IH; [|exact Hi|exact Hj]. lia.
Qed.

(** *** The handlers *)

Lemma owed_notifying (hs rest : list LogHandler) (m : Mode) (e : LogEntry) :
  owed hs (notifying m e rest) = map (fun h => (h, e)) rest.
Proof. now destruct rest. Qed.

Lemma served_kept (hs : list LogHandler) (l : Label) (s s' : State) :
  shaped s -> isRegister l = false -> served hs s -> step l s = Some s' -> served hs s'.
Proof.
  unfold served. intros Hs Hl [Hh Hv] H.
  async_step Hs H; no_sync_call; try discriminate Hl; unfold_state.
  all: split; [reflexivity|].
  all: known_state; trace_simpl; rewrite ?owed_notifying, ?JournalProps.fanout_app;
       cbn [owed Journal.fanout flat_map app map] in *;
       rewrite ?List.app_nil_r in *; try assumption.
  all: try (rewrite <- Hv; reflexivity).
  all: rewrite <- Hv, <- List.app_assoc; reflexivity.
Qed.

Lemma served_along (hs : list LogHandler) (ls : list Label) :
  forall s s',
    forallb (fun l => negb (isRegister l)) ls = true ->
    shaped s -> served hs s -> exec ls s = Some s' -> served hs s'.
Proof.
  induction ls as [|l ls IH]; intros s s' Hls Hsh Hs He; simpl in *.
  - now injection He as <-.
  - apply andb_true_iff in Hls. destruct Hls as [Hl Hls].
    destruct (step l s) as [s1|] eqn:E; [|discriminate].
    apply (IH s1 s' Hls); [eapply shaped_kept; eauto| |exact He].
    eapply served_kept; eauto. now destruct (isRegister l).
Qed.

Lemma registers (hs : list LogHandler) :
  forall s s',
    exec (map LRegister hs) s = Some s' ->
    handlers (lm s') = (handlers (lm s) ++ hs)%list
    /\ trace s' = trace s /\ worker s' = worker s.
Proof.
  induction hs as [|h hs IH]; intros s s' He; simpl in He.
  - injection He as <-. now rewrite List.app_nil_r.
  - apply IH in He. destruct He as (H1 & H2 & H3). cbn in H1, H2, H3.
    rewrite H1, <- List.app_assoc. auto.
Qed.

(** *** After the return of [Close] *)

Lemma finished_kept (r : option error) (l : Label) (s s' : State) :
  shaped s -> closing s -> afterClose s -> closer s = Finished r ->
  step l s = Some s' ->
  closer s' = Finished r
  /\ written (trace s') = written (trace s)
  /\ handled (trace s') = handled (trace s)
  /\ sent (trace s') = sent (trace s).
Proof.
  unfold closing, afterClose. intros Hs (_ & _ & _ & _ & C5 & _) [A1 _] Hr H.
  rewrite Hr in *. pose proof (C5 eq_refl) as Hw.
  pose proof (A1 eq_refl ltac:(discriminate)) as Hcl. unfold Sched.channelClosed in Hcl.
  async_step Hs H; no_sync_call; same_channel; unfold_state;
    rewrite ?Hch in *; try congruence.
  all: trace_simpl; auto.
Qed.

(** *** Synchronous mode *)

Lemma NewLogManager_sync (cfg : Config) (d : Disk) (x : logManagerImpl.t) :
  NewLogManager cfg d = inl x -> Async cfg = false ->
  exists b, x = mk cfg (Some b) [] None None 0 false.
Proof.
  unfold NewLogManager. intros H Ha.
  destruct (if (Backend cfg =? BackendFile)%string then _ else _) as [b|]; [|discriminate].
  destruct (Backend.Init (BackendConfig cfg) b) as [[err|] b']; [discriminate|].
  cbn in H. rewrite Ha in H.
  injection H as <-. exists b'. reflexivity.
Qed.

Lemma callOf_sync (p : Producer) (c : Call) (s : State) :
  forallb (fun pc => syncCall (snd pc)) (calls s) = true ->
  callOf p s = Some c -> syncCall c = true.
Proof.
  intros Hall Hc. apply callOf_In in Hc.
  rewrite forallb_forall in Hall. exact (Hall _ Hc).
Qed.

Ltac no_async_call :=
  try match goal with
    | E : callOf ?p ?s = Some ?c, Hc : forallb _ (calls ?s) = true |- _ =>
        let H := fresh in
        pose proof (callOf_sync p c s Hc E) as H; discriminate H
    end.

Lemma sync_setCall (p : Producer) (c : Call) (cs : list (Producer * Call)) :
  forallb (fun pc => syncCall (snd pc)) cs = true -> syncCall c = true ->
  forallb (fun pc => syncCall (snd pc)) (without p cs ++ [(p, c)]) = true.
Proof.
  intros H Hc. rewrite forallb_app, forallb_without by assumption. simpl.
  now rewrite Hc.
Qed.

Lemma syncCall_handling (e : LogEntry) (hs : list LogHandler) :
  syncCall (handling e hs) = true.
Proof. now destruct hs. Qed.

Lemma In_without (p q : Producer) (cs : list (Producer * Call)) :
  In q (map fst (without p cs)) -> In q (map fst cs) /\ q <> p.
Proof.
  intros H. apply in_map_iff in H. destruct H as ([r c] & <- & H).
  apply filter_In in H. destruct H as [H Hr]. simpl in *.
  split; [apply in_map_iff; now exists (r, c)|].
  apply negb_true_iff, Nat.eqb_neq in Hr. exact Hr.
Qed.

Lemma NoDup_without (p : Producer) (cs : list (Producer * Call)) :
  NoDup (map fst cs) -> NoDup (map fst (without p cs)).
Proof.
  induction cs as [|[q c] cs IH]; simpl; intros H; [constructor|].
  inversion H as [|? ? Hq Hcs]; subst.
  destruct (q =? p); simpl; [now apply IH|].
  constructor; [|now apply IH].
  intros Hin. apply In_without in Hin. now destruct Hin.
Qed.

Lemma NoDup_setCall (p : Producer) (c : Call) (cs : list (Producer * Call)) :
  NoDup (map fst cs) -> NoDup (map fst (without p cs ++ [(p, c)])).
Proof.
  intros H. rewrite map_app. simpl.
  apply NoDup_app.
  - now apply NoDup_without.
  - repeat constructor. intros [].
  - intros q Hq [<-|[]]. apply In_without in Hq. now destruct Hq.
Qed.

(** *** A synchronous manager stays one *)

Lemma direct_start (cfg : Config) (d : Disk) (x : logManagerImpl.t) :
  NewLogManager cfg d = inl x -> Async cfg = false -> direct (init x).
Proof.
  intros H Ha. destruct (NewLogManager_sync cfg d x H Ha) as [b ->].
  unfold direct, init. cbn. repeat split; eauto. constructor.
Qed.

Lemma direct_kept (l : Label) (s s' : State) :
  direct s -> step l s = Some s' -> direct s'.
Proof.
  intros Hd H. unfold direct.
  sync_step Hd H; no_async_call; unfold_state; rewrite ?Ha, ?Hw, ?Hch, ?Hb.
  all: repeat split; eauto.
  all: try (apply sync_setCall; [assumption | first [reflexivity | apply syncCall_handling]]).
  all: try (apply NoDup_setCall; assumption).
  all: try (apply forallb_without; assumption).
  all: try (apply NoDup_without; assumption).
Qed.

(** *** The entries stored and the calls that returned nil *)

Lemma stored_split (a b : list Event) : stored (a ++ b) = (stored a ++ stored b)%list.
Proof.
  induction a as [|ev a IH]; [reflexivity|].
  destruct ev as [| |e [r|]| | | |]; simpl; now rewrite ?IH.
Qed.

Lemma without_absent (p : Producer) (cs : list (Producer * Call)) :
  ~ In p (map fst cs) -> without p cs = cs.
Proof.
  induction cs as [|[q c] cs IH]; simpl; intros H; [reflexivity|].
  destruct (Nat.eqb_spec q p) as [->|Hq]; simpl.
  - exfalso. apply H. now left.
  - rewrite IH; [reflexivity|]. intros Hin. apply H. now right.
Qed.

Lemma callOf_absent (p : Producer) (s : State) :
  callOf p s = None -> without p (calls s) = calls s.
Proof.
  unfold callOf. intros H. apply without_absent. intros Hin.
  apply in_map_iff in Hin. destruct Hin as ([q c] & Hq & Hin). simpl in Hq. subst q.
  destruct (find (fun pc => fst pc =? p) (calls s)) eqn:E; [discriminate|].
  pose proof (find_none _ _ E _ Hin) as Hn. simpl in Hn.
  now rewrite Nat.eqb_refl in Hn.
Qed.

Lemma unreturned_replace (p : Producer) (c : Call) (cs : list (Producer * Call)) :
  NoDup (map fst cs) ->
  match find (fun pc => fst pc =? p) cs with
  | Some pc => Some (snd pc)
  | None => None
  end = Some c ->
  Permutation (unreturnedOf cs) (unreturned c ++ unreturnedOf (without p cs)).
Proof.
  induction cs as [|[q c'] cs IH]; simpl; intros Hnd H; [discriminate|].
  inversion Hnd as [|? ? Hq Hcs]; subst.
  destruct (Nat.eqb_spec q p) as [->|Hne]; simpl.
  - injection H as ->. rewrite (without_absent p cs Hq). reflexivity.
  - unfold unreturnedOf in *. simpl.
    rewrite (IH Hcs H). rewrite !List.app_assoc.
    apply Permutation_app_tail, Permutation_app_comm.
Qed.

Lemma unreturnedOf_setCall (p : Producer) (c : Call) (cs : list (Producer * Call)) :
  unreturnedOf (without p cs ++ [(p, c)]) = (unreturnedOf (without p cs) ++ unreturned c)%list.
Proof. unfold unreturnedOf. rewrite flat_map_app. simpl. now rewrite List.app_nil_r. Qed.

Lemma unreturned_handling (e : LogEntry) (hs : list LogHandler) :
  unreturned (handling e hs) = [e].
Proof. now destruct hs. Qed.

Lemma tally_start (x : logManagerImpl.t) : tally (init x).
Proof. unfold tally, init. cbn. constructor. Qed.

Lemma tally_kept (l : Label) (s s' : State) :
  direct s -> tally s -> step l s = Some s' -> tally s'.
Proof.
  unfold tally. intros Hd Ht H.
  sync_step Hd H; no_async_call; unfold_state.
  all: rewrite ?stored_split, ?accepted_split, ?map_app, ?unreturnedOf_setCall,
         ?unreturned_handling;
       cbn [stored accepted map snd fst app unreturned];
       rewrite ?List.app_nil_r; try assumption.
  all: try match goal with
         | E : callOf ?p ?s = None |- _ => rewrite (callOf_absent p s E)
         end.
  all: try match goal with
         | E : callOf ?p ?s = Some ?c |- _ =>
             pose proof (unreturned_replace p c (calls s) Hnd E) as Hp;
             cbn [unreturned] in Hp
         end.
  all: try assumption.
  - rewrite List.app_assoc. apply Permutation_app_tail. exact Ht.
  - eapply perm_trans; [exact Ht|]. apply Permutation_app_head.
    eapply perm_trans; [exact Hp|]. apply Permutation_app_comm.
  - eapply perm_trans; [exact Ht|]. apply Permutation_app_head.
    eapply perm_trans; [exact Hp|]. apply Permutation_app_comm.
  - eapply perm_trans; [exact Ht|]. rewrite <- List.app_assoc.
    apply Permutation_app_head.
    destruct r as [err|]; cbn [map snd app] in *; exact Hp.
Qed.

(** *** The log file of a synchronous manager *)

Ltac content_facts :=
  repeat match goal with
    | E : Backend.Write ?e ?b = _, Hc : Journal.contentOf ?b = Some ?c |- _ =>
        let H := fresh "Hw" in
        pose proof (JournalProps.Backend_Write_content e b c Hc) as H;
        rewrite E in H; clear E
    | E : Backend.Read ?l ?f ?b = _ |- _ =>
        let H := fresh "Hr" in
        pose proof (JournalProps.Backend_Read_content l f b) as H; rewrite E in H;
        cbn [Journal.stateOf] in H; clear E
    | E : Backend.ClearLogs ?t ?b = _ |- _ =>
        let H := fresh "Hr" in
        pose proof (JournalProps.Backend_ClearLogs_content t b) as H; rewrite E in H;
        cbn [Journal.stateOf] in H; clear E
    | E : Backend.Close ?b = _ |- _ =>
        let H := fresh "Hr" in
        pose proof (JournalProps.Backend_Close_content b) as H; rewrite E in H;
        cbn [Journal.stateOf] in H; clear E
    end.

Lemma journal_kept (c0 : string) (l : Label) (s s' : State) :
  isFault l = false -> direct s -> journal c0 s -> step l s = Some s' -> journal c0 s'.
Proof.
  unfold journal, Journal.fileOf. intros Hl Hd Hj H.
  sync_step Hd H; no_async_call; try discriminate Hl; unfold_state.
  all: rewrite ?Hb in *.
  all: rewrite ?stored_split; cbn [stored]; rewrite ?List.app_nil_r.
  all: content_facts; try assumption; try congruence.
  rewrite JournalProps.linesOf_app. cbn [Journal.linesOf].
  rewrite StringFacts.app_nil_r.
  first [rewrite <- StringFacts.app_assoc; exact Hw0 | rewrite StringFacts.app_assoc; exact Hw0].
Qed.

Lemma sent_kept (l : Label) (s s' : State) :
  direct s -> sent (trace s) = [] -> step l s = Some s' -> sent (trace s') = [].
Proof.
  intros Hd Hs H.
  sync_step Hd H; no_async_call; unfold_state;
    rewrite ?sent_split, ?Hs; reflexivity.
Qed.

(** What holds along a run of a synchronous manager on a device that does
    not start to fail. *)
Lemma direct_run (c0 : string) (ls : list Label) :
  forall s s',
    forallb (fun l => negb (isFault l)) ls = true ->
    direct s /\ tally s /\ journal c0 s /\ sent (trace s) = [] ->
    exec ls s = Some s' ->
    direct s' /\ tally s' /\ journal c0 s' /\ sent (trace s') = [].
Proof.
  induction ls as [|l ls IH]; intros s s' Hls Hs He; simpl in *.
  - now injection He as <-.
  - apply andb_true_iff in Hls. destruct Hls as [Hl Hls].
    apply negb_true_iff in Hl.
    destruct (step l s) as [s1|] eqn:E; [|discriminate].
    apply (IH s1 s' Hls); [|exact He].
    destruct Hs as (H1 & H2 & H3 & H4).
    split; [eapply direct_kept; eauto|].
    split; [eapply tally_kept; eauto|].
    split; [eapply journal_kept; eauto | eapply sent_kept; eauto].
Qed.

End WithLayout.

(** X19.  The queue of an asynchronous manager loses, repeats and
    reorders nothing.  At every moment the entries whose send went
    through are, in the order of the channel: the entries the backend's
    [Write] has returned for, one call each, then the entry the worker
    has received and is about to hand, or has handed, to [Write], then
    the entries still in the channel, of which there are at most 1000.
    And the entries one goroutine's calls of [WriteLog] have returned nil
    for are the entries it sent, in the same order, but for the last
    when its call has sent and not yet returned. *)
Theorem queue_conserves_entries :
  forall {layout : RFC3339} (cfg : Config) (d : Disk) (x : logManagerImpl.t)
         (ls : list Label) (s : State),
    NewLogManager cfg d = inl x -> Async cfg = true ->
    exec ls (init x) = Some s ->
    map snd (sent (trace s)) = (written (trace s) ++ held (worker s) ++ queued s)%list
    /\ length (queued s) <= 1000
    /\ forall p, entriesBy p (sent (trace s))
                 = (entriesBy p (accepted (trace s)) ++ pendingNil p s)%list.
Proof.
  intros layout cfg d x ls s Hn Ha He.
  destruct (sound_always cfg d x s Hn Ha (ex_intro _ ls He))
    as ((_ & (ch & Hch & Hcap & Hlen) & _) & Hf & Ho & _).
  split; [exact Hf|]. split; [|exact Ho].
  unfold queued. rewrite Hch. unfold queueCapacity in Hcap. lia.
Qed.

Lemma queue_conserves_entries_witness :
  @exec rfc3339 Examples.halfWay (init Examples.asyncManager) = Some Examples.inFlight
  /\ sent (trace Examples.inFlight)
     = [(1, Examples.started); (2, Examples.second); (1, Examples.third)]
  /\ accepted (trace Examples.inFlight) = [(2, Examples.second); (1, Examples.started)]
  /\ written (trace Examples.inFlight) = [Examples.started]
  /\ held (worker Examples.inFlight) = [Examples.second]
  /\ queued Examples.inFlight = [Examples.third]
  /\ pendingNil 1 Examples.inFlight = [Examples.third]
  /\ map snd (sent (trace Examples.inFlight))
     = (written (trace Examples.inFlight) ++ held (worker Examples.inFlight)
        ++ queued Examples.inFlight)%list
  /\ length (queued Examples.inFlight) <= 1000
  /\ forall p, entriesBy p (sent (trace Examples.inFlight))
               = (entriesBy p (accepted (trace Examples.inFlight))
                  ++ pendingNil p Examples.inFlight)%list.
Proof.
  do 7 (split; [vm_compute; reflexivity|]).
  apply (@queue_conserves_entries rfc3339 Examples.asyncConfig Examples.emptyDisk
           Examples.asyncManager Examples.halfWay Examples.inFlight).
  - vm_compute; reflexivity.
  - reflexivity.
  - vm_compute; reflexivity.
Defined.

(** X12.  In synchronous mode against the file backend, on a device that
    does not start to fail and whatever the goroutines' steps are
    interleaved like: the file holds what it held at the start followed
    by the lines of the entries whose [Write] returned nil, in the order
    of those calls of [Write]; these entries are, each as often, the
    entries of the calls of [WriteLog] that returned nil and of the calls
    that have written and not yet returned, so that a call returns nil
    only with its line in the file; and no call goes through the queue.
    The order of the lines is the order of the calls of [Write], which
    two goroutines may leave in the other order. *)
Theorem sync_file_holds_the_accepted_entries :
  forall {layout : RFC3339} (cfg : Config) (d : Disk) (x : logManagerImpl.t)
         (ls : list Label) (s : State),
    NewLogManager cfg d = inl x -> Backend cfg = BackendFile -> Async cfg = false ->
    forallb (fun l => negb (isFault l)) ls = true ->
    exec ls (init x) = Some s ->
    Journal.fileOf (lm s)
    = Some (Journal.initial d ++ Journal.linesOf (stored (trace s)))%string
    /\ Permutation (stored (trace s))
                   (map snd (accepted (trace s)) ++ unreturnedOf (calls s))
    /\ (forall p e, In (p, e) (accepted (trace s)) -> In e (stored (trace s)))
    /\ sent (trace s) = []
    /\ (forall p c, callOf p s = Some c -> syncCall c = true).
Proof.
  intros layout cfg d x ls s Hn Hb Ha Hls He.
  destruct (direct_run (Journal.initial d) ls (init x) s Hls) as (Hd & Ht & Hj & Hs);
    [|exact He|].
  - split; [eapply direct_start; eauto|].
    split; [apply tally_start|]. split; [|reflexivity].
    unfold journal. cbn. rewrite StringFacts.app_nil_r.
    eapply ConstructorProps.NewLogManager_fileOf; eauto.
  - split; [exact Hj|]. split; [exact Ht|]. split; [|split; [exact Hs|]].
    + intros p e Hin. eapply Permutation_in; [apply Permutation_sym; exact Ht|].
      apply in_or_app. left. apply in_map_iff. now exists (p, e).
    + intros p c Hc. destruct Hd as (_ & _ & _ & _ & Hcalls & _).
      eapply callOf_sync; eauto.
Qed.

Lemma sync_file_holds_the_accepted_entries_witness :
  @exec rfc3339 Examples.syncTwo (init Examples.syncManager) = Some Examples.syncWritten
  /\ accepted (trace Examples.syncWritten) = [(2, Examples.second); (1, Examples.started)]
  /\ stored (trace Examples.syncWritten) = [Examples.started; Examples.second]
  /\ Journal.fileOf (lm Examples.syncWritten)
     = Some ("[2025-01-01T12:00:00Z] INFO : started" ++ strings.nl
             ++ "[2025-01-01T12:00:00Z] WARN : second" ++ strings.nl)%string
  /\ Journal.fileOf (lm Examples.syncWritten)
     = Some (Journal.initial Examples.emptyDisk
             ++ @Journal.linesOf rfc3339 (stored (trace Examples.syncWritten)))%string
  /\ Permutation (stored (trace Examples.syncWritten))
                 (map snd (accepted (trace Examples.syncWritten))
                  ++ unreturnedOf (calls Examples.syncWritten)).
Proof.
  do 4 (split; [vm_compute; reflexivity|]).
  destruct (@sync_file_holds_the_accepted_entries rfc3339 Examples.syncConfig
              Examples.emptyDisk Examples.syncManager Examples.syncTwo
              Examples.syncWritten)
    as (H1 & H2 & _);
    [ vm_compute; reflexivity | reflexivity | reflexivity | reflexivity
    | vm_compute; reflexivity | ].
  split; assumption.
Defined.

(** X13.  In asynchronous mode, with the handlers [hs] registered before
    the first call of [WriteLog] and none registered later, the calls of
    [Handle] are, entry by entry, one call of every handler in the order
    of registration, for every entry the backend's [Write] has returned
    for, failed or not, in the order of the writes.  At any moment the
    only calls missing are those the worker still owes for the entry it
    has just written. *)
Theorem handlers_follow_the_backend :
  forall {layout : RFC3339} (cfg : Config) (d : Disk) (x : logManagerImpl.t)
         (hs : list LogHandler) (ls : list Label) (s : State),
    NewLogManager cfg d = inl x -> Async cfg = true ->
    forallb (fun l => negb (isRegister l)) ls = true ->
    exec (map LRegister hs ++ ls) (init x) = Some s ->
    handlers (lm s) = hs
    /\ (handled (trace s) ++ owed hs (worker s))%list
       = Journal.fanout hs (written (trace s)).
Proof.
  intros layout cfg d x hs ls s Hn Ha Hls He.
  rewrite run_app in He.
  destruct (exec (map LRegister hs) (init x)) as [s0|] eqn:E0; [|discriminate].
  assert (Hsh : shaped s0)
    by (eapply shaped_always; eauto; now exists (map LRegister hs)).
  destruct (registers hs _ _ E0) as (H1 & H2 & H3).
  destruct (SchedProps.NewLogManager_async cfg d x Hn Ha) as [b Hx].
  apply (served_along hs ls s0 s Hls Hsh); [|exact He].
  split.
  - rewrite H1, Hx. reflexivity.
  - rewrite H2, H3, Hx. reflexivity.
Qed.

Lemma handlers_follow_the_backend_witness :
  @exec rfc3339 (map LRegister [7; 8] ++ Examples.twoUnderWay)%list
     (init Examples.asyncManager) = Some Examples.halfNotified
  /\ written (trace Examples.halfNotified) = [Examples.started; Examples.second]
  /\ handled (trace Examples.halfNotified)
     = [(7, Examples.started); (8, Examples.started); (7, Examples.second)]
  /\ owed [7; 8] (worker Examples.halfNotified) = [(8, Examples.second)]
  /\ handlers (lm Examples.halfNotified) = [7; 8]
  /\ (handled (trace Examples.halfNotified)
      ++ owed [7; 8] (worker Examples.halfNotified))%list
     = Journal.fanout [7; 8] (written (trace Examples.halfNotified)).
Proof.
  do 4 (split; [vm_compute; reflexivity|]).
  apply (@handlers_follow_the_backend rfc3339 Examples.asyncConfig Examples.emptyDisk
           Examples.asyncManager [7; 8] Examples.twoUnderWay Examples.halfNotified).
  - vm_compute; reflexivity.
  - reflexivity.
  - reflexivity.
  - vm_compute; reflexivity.
Defined.

(** X14.  Once [Close] has returned on an asynchronous manager, nothing
    more happens to the log.  Whichever of [WriteLog], [ReadLogs],
    [ClearLogs] and [RegisterLogHandler] is called afterwards, by
    whichever goroutines: the backend's [Write] is not called, no handler
    is called and no send goes through; the calls of [WriteLog] that
    still return nil are those whose send had gone through before and
    whose return was still to come; and a new call of [WriteLog] sends on
    the closed channel, which panics: it writes nothing and never
    returns. *)
Theorem nothing_after_Close :
  forall {layout : RFC3339} (cfg : Config) (d : Disk) (x : logManagerImpl.t)
         (ls ls' : list Label) (s s' : State) (r : option error),
    NewLogManager cfg d = inl x -> Async cfg = true ->
    exec ls (init x) = Some s -> closer s = Finished r ->
    exec ls' s = Some s' ->
    closer s' = Finished r
    /\ written (trace s') = written (trace s)
    /\ handled (trace s') = handled (trace s)
    /\ sent (trace s') = sent (trace s)
    /\ (forall p, (entriesBy p (accepted (trace s')) ++ pendingNil p s')%list
                  = (entriesBy p (accepted (trace s)) ++ pendingNil p s)%list)
    /\ (forall p level message now,
           callOf p s' = None ->
           exists s'', step (LCall p level message now) s' = Some s''
                       /\ callOf p s'' = Some Panicked
                       /\ trace s'' = trace s'
                       /\ step (LSend p) s'' = None
                       /\ step (LReturn p) s'' = None).
Proof.
  intros layout cfg d x ls ls' s s' r Hn Ha He Hr He'.
  assert (Hinv : forall t, reachable (init x) t -> sound t)
    by (intros t Ht; eapply sound_always; eauto).
  assert (Hq : (exists l0, exec l0 (init x) = Some s')
               /\ closer s' = Finished r
               /\ written (trace s') = written (trace s)
               /\ handled (trace s') = handled (trace s)
               /\ sent (trace s') = sent (trace s)).
  { eapply (run_invariant
              (fun t => (exists l0, exec l0 (init x) = Some t)
                        /\ closer t = Finished r
                        /\ written (trace t) = written (trace s)
                        /\ handled (trace t) = handled (trace s)
                        /\ sent (trace t) = sent (trace s)));
      [| |exact He'].
    - intros l t t' ([l0 Ht] & Hc & Hw & Hh & Hs) Hstep.
      destruct (Hinv t (ex_intro _ l0 Ht)) as (H1 & _ & _ & H4 & H5 & _).
      destruct (finished_kept r l t t' H1 H4 H5 Hc Hstep) as (Hc' & Hw' & Hh' & Hs').
      split; [|repeat split; congruence].
      exists (l0 ++ [l])%list. rewrite run_app, Ht. simpl. now rewrite Hstep.
    - split; [now exists ls | auto]. }
  destruct Hq as (Hreach & Hc & Hw & Hh & Hs).
  destruct (Hinv s (ex_intro _ ls He)) as (_ & _ & Ho & _).
  destruct (Hinv s' Hreach) as ((Hasync & _ & (b & Hb) & _) & _ & Ho' & _ & (A1 & _) & _).
  repeat split; try assumption.
  - intros p. rewrite <- (Ho p), <- (Ho' p), Hs. reflexivity.
  - intros p level message now Hcall.
    rewrite Hc in A1. pose proof (A1 eq_refl ltac:(discriminate)) as Hcl.
    eexists. cbn [step]. rewrite Hcall, Hb, Hasync, Hcl.
    split; [reflexivity|].
    split; [apply callOf_setCall_same|].
    split; [reflexivity|].
    now rewrite !callOf_setCall_same.
Qed.

Lemma nothing_after_Close_witness :
  @exec rfc3339 Examples.closeMeanwhile (init Examples.asyncManager)
  = Some Examples.closedMeanwhile
  /\ @exec rfc3339 Examples.later Examples.closedMeanwhile = Some Examples.muchLater
  /\ callOf 4 Examples.muchLater = Some Panicked
  /\ closer Examples.muchLater = Finished None
  /\ written (trace Examples.muchLater) = written (trace Examples.closedMeanwhile)
  /\ handled (trace Examples.muchLater) = handled (trace Examples.closedMeanwhile)
  /\ sent (trace Examples.muchLater) = sent (trace Examples.closedMeanwhile)
  /\ (exists s'', @step rfc3339 (LCall 5 LevelInfo "started" Examples.noon)
                    Examples.muchLater = Some s''
                  /\ callOf 5 s'' = Some Panicked
                  /\ trace s'' = trace Examples.muchLater
                  /\ @step rfc3339 (LSend 5) s'' = None
                  /\ @step rfc3339 (LReturn 5) s'' = None).
Proof.
  do 3 (split; [vm_compute; reflexivity|]).
  destruct (@nothing_after_Close rfc3339 Examples.asyncConfig Examples.emptyDisk
              Examples.asyncManager Examples.closeMeanwhile Examples.later
              Examples.closedMeanwhile Examples.muchLater None)
    as (H1 & H2 & H3 & H4 & _ & H6);
    [ vm_compute; reflexivity | reflexivity | vm_compute; reflexivity
    | vm_compute; reflexivity | vm_compute; reflexivity | ].
  repeat (split; [assumption|]).
  apply H6. vm_compute; reflexivity.
Defined.

(** C3.  In asynchronous mode, let the calls of [WriteLog] that one
    goroutine [p] made for [e1] and later for [e2] both have returned nil
    (they are the [i]-th and the [j]-th of its calls that returned nil,
    [i < j]).  Then the send of [e1] went through before the send of
    [e2]: they stand at the places [a < b] of the channel's order, the
    places of the [i]-th and the [j]-th send of [p].  The backend's
    [Write] is called in the channel's order, one call for each entry:
    the calls that have returned so far are for an initial part of the
    entries sent.  So the call of [Write] number [a] is for [e1], and
    when [Write] has returned for [e2], its call number [b], it had
    returned for [e1] before.  The order in which the calls of different
    goroutines return plays no part. *)
Theorem per_producer_fifo :
  forall {layout : RFC3339} (cfg : Config) (d : Disk) (x : logManagerImpl.t)
         (ls : list Label) (s : State)
         (p : Producer) (e1 e2 : LogEntry) (i j : nat),
    NewLogManager cfg d = inl x -> Async cfg = true ->
    exec ls (init x) = Some s ->
    i < j ->
    nth_error (entriesBy p (accepted (trace s))) i = Some e1 ->
    nth_error (entriesBy p (accepted (trace s))) j = Some e2 ->
    exists a b,
      a < b
      /\ nth_error (slots p (sent (trace s))) i = Some a
      /\ nth_error (slots p (sent (trace s))) j = Some b
      /\ nth_error (sent (trace s)) a = Some (p, e1)
      /\ nth_error (sent (trace s)) b = Some (p, e2)
      /\ (exists rest, map snd (sent (trace s)) = (written (trace s) ++ rest)%list)
      /\ (a < length (written (trace s)) ->
          nth_error (written (trace s)) a = Some e1)
      /\ (b < length (written (trace s)) ->
          nth_error (written (trace s)) a = Some e1
          /\ nth_error (written (trace s)) b = Some e2).
Proof.
  intros layout cfg d x ls s p e1 e2 i j Hn Ha He Hij H1 H2.
  destruct (sound_always cfg d x s Hn Ha (ex_intro _ ls He))
    as (_ & Hf & Ho & _).
  assert (G : forall k e, nth_error (entriesBy p (accepted (trace s))) k = Some e ->
                          nth_error (entriesBy p (sent (trace s))) k = Some e).
  { intros k e Hk. rewrite (Ho p). rewrite nth_error_app1; [exact Hk|].
    apply nth_error_Some. congruence. }
  destruct (slotsFrom_entry p _ 0 i e1 (G _ _ H1)) as (a & Ha1 & Ha2).
  destruct (slotsFrom_entry p _ 0 j e2 (G _ _ H2)) as (b & Hb1 & Hb2).
  cbn [Nat.add] in Ha1, Hb1.
  exists a, b.
  assert (Hab : a < b) by (eapply slotsFrom_increasing; eauto).
  assert (W : forall k e, k < length (written (trace s)) ->
                          nth_error (sent (trace s)) k = Some (p, e) ->
                          nth_error (written (trace s)) k = Some e).
  { intros k e Hk Hs.
    rewrite <- (nth_error_app1 _ (held (worker s) ++ queued s)) by exact Hk.
    rewrite <- Hf, nth_error_map, Hs. reflexivity. }
  repeat split; try assumption.
  - exists (held (worker s) ++ queued s)%list. exact Hf.
  - intros Hlt. now apply W.
  - apply W; [lia | assumption].
  - now apply W.
Qed.

Lemma per_producer_fifo_witness :
  @exec rfc3339 Examples.overtake (init Examples.asyncManager)
  = Some Examples.overtaken
  /\ sent (trace Examples.overtaken)
     = [(1, Examples.started); (2, Examples.second); (1, Examples.third)]
  /\ accepted (trace Examples.overtaken)
     = [(2, Examples.second); (1, Examples.started); (1, Examples.third)]
  /\ written (trace Examples.overtaken)
     = [Examples.started; Examples.second; Examples.third]
  /\ nth_error (written (trace Examples.overtaken)) 0 = Some Examples.started
  /\ nth_error (written (trace Examples.overtaken)) 2 = Some Examples.third.
Proof.
  split; [vm_compute; reflexivity|].
  split; [vm_compute; reflexivity|].
  split; [vm_compute; reflexivity|].
  split; [vm_compute; reflexivity|].
  destruct (@per_producer_fifo rfc3339 Examples.asyncConfig Examples.emptyDisk
              Examples.asyncManager Examples.overtake Examples.overtaken
              1 Examples.started Examples.third 0 1)
    as (a & b & _ & Ha & Hb & _ & _ & _ & _ & Hw);
    [ vm_compute; reflexivity | reflexivity | vm_compute; reflexivity | lia
    | vm_compute; reflexivity | vm_compute; reflexivity | ].
  vm_compute in Ha. injection Ha as <-.
  vm_compute in Hb. injection Hb as <-.
  apply Hw. vm_compute. lia.
Defined.

(** C1 (amended).  For every manager created in asynchronous mode, once
    [Close] has returned: the entries handed to the backend's [Write]
    are, one call each and in the order of the channel, every entry
    whose send went through before [Close] was called, followed by some
    of the entries sent after that call, the earliest ones; the entries
    sent later still are in no call of [Write].  Every call of
    [WriteLog] that returned nil before [Close] was called had sent its
    entry before, so its entry is among those written: for each
    goroutine the entries its calls returned nil for before the call of
    [Close] are, in order, an initial part of the entries it sent before
    that call.  The channel is closed and the backend is closed; on a
    file backend [ReadLogs] then returns the error of a backend without
    file instead of the entries. *)
Theorem close_drains_the_queue :
  forall {layout : RFC3339} (cfg : Config) (d : Disk) (x : logManagerImpl.t)
         (ls : list Label) (s : State) (r : option error),
    NewLogManager cfg d = inl x -> Async cfg = true ->
    exec ls (init x) = Some s -> closer s = Finished r ->
    (exists more rest,
        written (trace s) = (map snd (sent (beforeClose (trace s))) ++ more)%list
        /\ map snd (sent (trace s))
           = (map snd (sent (beforeClose (trace s))) ++ more ++ rest)%list)
    /\ (forall p, exists pend,
           entriesBy p (sent (beforeClose (trace s)))
           = (entriesBy p (accepted (beforeClose (trace s))) ++ pend)%list)
    /\ (forall p e, In (p, e) (accepted (beforeClose (trace s))) ->
                    In e (written (trace s)))
    /\ Sched.channelClosed (lm s) = true
    /\ exists b, backend (lm s) = Some b
                 /\ Invariant.closedBackend b
                 /\ (forall fb, b = FileB fb ->
                                ReadLogs "" noFilter (lm s)
                                = Ret (inr "file backend not initialized") (lm s)).
Proof.
  intros layout cfg d x ls s r Hn Ha He Hr.
  destruct (sound_always cfg d x s Hn Ha (ex_intro _ ls He))
    as (_ & Hf & _ & (_ & _ & _ & _ & C5 & C6) & (A1 & A2) & Hob).
  rewrite Hr in *.
  pose proof (C5 eq_refl) as Hw. rewrite Hw in C6.
  destruct (C6 eq_refl) as [more Hmore].
  split; [|split; [exact Hob|split; [|split]]].
  - exists more, (held (worker s) ++ queued s)%list. split; [exact Hmore|].
    unfold fifo in Hf. rewrite Hf, Hmore, <- List.app_assoc. reflexivity.
  - intros p e Hin. rewrite Hmore. apply in_or_app. left.
    destruct (Hob p) as [pend Hp].
    assert (Hs : In e (entriesBy p (sent (beforeClose (trace s))))).
    { rewrite Hp. apply in_or_app. left. unfold entriesBy.
      apply in_map_iff. exists (p, e). split; [reflexivity|].
      apply filter_In. split; [exact Hin|]. apply Nat.eqb_refl. }
    unfold entriesBy in Hs. apply in_map_iff in Hs.
    destruct Hs as ([q e'] & <- & Hs). apply filter_In in Hs.
    apply in_map_iff. exists (q, e'). split; [reflexivity | apply Hs].
  - apply A1; [reflexivity | discriminate].
  - destruct (A2 eq_refl) as (b & Hb & Hcb). exists b.
    split; [exact Hb|]. split; [exact Hcb|].
    intros fb ->. now apply SchedProps.ReadLogs_after_Close with (fb := fb).
Qed.

Lemma close_drains_the_queue_witness :
  @exec rfc3339 Examples.closeMeanwhile (init Examples.asyncManager)
  = Some Examples.closedMeanwhile
  /\ closer Examples.closedMeanwhile = Finished None
  /\ sent (beforeClose (trace Examples.closedMeanwhile)) = [(1, Examples.started)]
  /\ accepted (beforeClose (trace Examples.closedMeanwhile)) = []
  /\ sent (trace Examples.closedMeanwhile)
     = [(1, Examples.started); (2, Examples.second); (3, Examples.third)]
  /\ accepted (trace Examples.closedMeanwhile)
     = [(1, Examples.started); (2, Examples.second); (3, Examples.third)]
  /\ written (trace Examples.closedMeanwhile) = [Examples.started; Examples.second]
  /\ (exists more rest,
        written (trace Examples.closedMeanwhile)
        = (map snd (sent (beforeClose (trace Examples.closedMeanwhile))) ++ more)%list
        /\ map snd (sent (trace Examples.closedMeanwhile))
           = (map snd (sent (beforeClose (trace Examples.closedMeanwhile)))
              ++ more ++ rest)%list)
  /\ Sched.channelClosed (lm Examples.closedMeanwhile) = true
  /\ @ReadLogs rfc3339 "" noFilter (lm Examples.closedMeanwhile)
     = Ret (inr "file backend not initialized") (lm Examples.closedMeanwhile).
Proof.
  do 7 (split; [vm_compute; reflexivity|]).
  destruct (@close_drains_the_queue rfc3339 Examples.asyncConfig Examples.emptyDisk
              Examples.asyncManager Examples.closeMeanwhile
              Examples.closedMeanwhile None)
    as (Hmore & _ & _ & Hcl & b & Hb & _ & Hread);
    [ vm_compute; reflexivity | reflexivity | vm_compute; reflexivity
    | vm_compute; reflexivity | ].
  split; [exact Hmore|]. split; [exact Hcl|].
  vm_compute in Hb. injection Hb as <-.
  eapply Hread. reflexivity.
Defined.

End InterleavingProps.

(** ** Package pkg/logger beside package logger *)

Module PkgProps.
Import time Logger.

(** X16.  In package pkg/logger a file-backed manager cannot give back
    what it wrote: [ReadLogs] returns no entry and the error "read not
    implemented for file backend", and [ClearLogs] the error "clear logs
    not implemented for file backend", in every state of the backend
    (also one whose mutex is held) and also after a [WriteLog] that
    returned; neither changes the manager. *)
Theorem pkg_file_backend_cannot_read :
  forall {layout : RFC3339} (x : PkgLogger.logManagerImpl.t) (fb : FileBackend.t)
         (level : LogLevel) (message : string) (now : Time)
         (lvl : LogLevel) (filter : LogFilter) (before : Time),
    PkgLogger.logManagerImpl.backend x = Some (FileB fb) ->
    PkgLogger.logManagerImpl.ReadLogs lvl filter x
    = Ret ([], Some "read not implemented for file backend") x
    /\ PkgLogger.logManagerImpl.ClearLogs before x
       = Ret (Some "clear logs not implemented for file backend") x
    /\ forall r evs x',
         PkgLogger.logManagerImpl.WriteLog level message now x
         = PkgLogger.logManagerImpl.Returns r evs x' ->
         PkgLogger.logManagerImpl.ReadLogs lvl filter x'
         = Ret ([], Some "read not implemented for file backend") x'.
Proof.
  intros layout x fb level message now lvl filter before Hb.
  assert (Hread : forall y fb', PkgLogger.logManagerImpl.backend y = Some (FileB fb') ->
            PkgLogger.logManagerImpl.ReadLogs lvl filter y
            = Ret ([], Some "read not implemented for file backend") y).
  { intros y fb' Hy. unfold PkgLogger.logManagerImpl.ReadLogs. rewrite Hy.
    destruct y as [c b hs]; cbn in *. now subst. }
  split; [exact (Hread x fb Hb)|]. split.
  - unfold PkgLogger.logManagerImpl.ClearLogs. rewrite Hb.
    destruct x as [c b hs]; cbn in *. now subst.
  - intros r evs x'. unfold PkgLogger.logManagerImpl.WriteLog. rewrite Hb.
    unfold PkgLogger.logManagerImpl.onBackend, PkgLogger.Backend.Write, onFile.
    destruct (PkgLogger.FileBackend.Write _ fb) as [[err|] fb'|fb'];
      intros [= _ _ <-]; now apply (Hread _ fb').
Qed.

Lemma pkg_file_backend_cannot_read_witness :
  let x := PkgLogger.logManagerImpl.mk Examples.syncConfig
             (Some (FileB Examples.freshBackend)) [] in
  @PkgLogger.logManagerImpl.ReadLogs "" noFilter x
  = Ret ([], Some "read not implemented for file backend") x
  /\ @PkgLogger.logManagerImpl.ClearLogs Examples.noon x
     = Ret (Some "clear logs not implemented for file backend") x
  /\ forall r evs x',
       @PkgLogger.logManagerImpl.WriteLog rfc3339 LevelInfo "started" Examples.noon x
       = PkgLogger.logManagerImpl.Returns r evs x' ->
       @PkgLogger.logManagerImpl.ReadLogs "" noFilter x'
       = Ret ([], Some "read not implemented for file backend") x'.
Proof.
  apply (@pkg_file_backend_cannot_read rfc3339
           (PkgLogger.logManagerImpl.mk Examples.syncConfig
              (Some (FileB Examples.freshBackend)) [])
           Examples.freshBackend LevelInfo "started" Examples.noon "" noFilter
           Examples.noon).
  reflexivity.
Defined.

(** X17.  Package logger in synchronous mode does what package
    pkg/logger does: for a configuration with [Async] false the two
    [NewLogManager] return the same manager or the same error, and on
    the same manager the two [WriteLog] return the same value, call the
    backend and the handlers alike and leave the same manager; so do the
    two [Close] and the two [RegisterLogHandler].  The older package
    does not read [Async]: it builds the same backend for either value. *)
Theorem pkg_logger_is_the_synchronous_logger :
  forall {layout : RFC3339},
    (forall cfg d,
        Async cfg = false ->
        logManagerImpl.NewLogManager cfg d
        = match PkgLogger.logManagerImpl.NewLogManager cfg d with
          | inl x => inl (PkgLogger.toLogger x)
          | inr err => inr err
          end)
    /\ (forall x level message now,
           logManagerImpl.WriteLog level message now (PkgLogger.toLogger x)
           = PkgLogger.liftWrite (PkgLogger.logManagerImpl.WriteLog level message now x))
    /\ (forall x,
           logManagerImpl.closeBackend (PkgLogger.toLogger x)
           = PkgLogger.liftOutcome (PkgLogger.logManagerImpl.Close x))
    /\ (forall x h,
           logManagerImpl.RegisterLogHandler h (PkgLogger.toLogger x)
           = PkgLogger.toLogger (PkgLogger.logManagerImpl.RegisterLogHandler h x))
    /\ (forall b c a a' l d,
           match PkgLogger.logManagerImpl.NewLogManager (mkConfig b c a l) d,
                 PkgLogger.logManagerImpl.NewLogManager (mkConfig b c a' l) d with
           | inl x, inl x' =>
               PkgLogger.logManagerImpl.backend x = PkgLogger.logManagerImpl.backend x'
           | inr err, inr err' => err = err'
           | _, _ => False
           end).
Proof.
  intros layout. split; [|split; [|split; [|split]]].
  - intros cfg d Ha.
    unfold logManagerImpl.NewLogManager, PkgLogger.logManagerImpl.NewLogManager.
    destruct (if (Backend cfg =? BackendFile)%string then _ else _) as [b|];
      [|reflexivity].
    change (PkgLogger.Backend.Init (BackendConfig cfg) b)
      with (Backend.Init (BackendConfig cfg) b).
    destruct (Backend.Init (BackendConfig cfg) b) as [[err|] b']; [reflexivity|].
    cbn. rewrite Ha. reflexivity.
  - intros x level message now.
    unfold logManagerImpl.WriteLog, PkgLogger.logManagerImpl.WriteLog.
    destruct x as [c [b|] hs]; cbn; [|reflexivity].
    unfold logManagerImpl.onBackend, PkgLogger.logManagerImpl.onBackend.
    change (PkgLogger.Backend.Write (mkEntry level message now []) b)
      with (Backend.Write (mkEntry level message now []) b).
    destruct (Backend.Write _ b) as [[err|] b'|b']; reflexivity.
  - intros x. unfold logManagerImpl.closeBackend, PkgLogger.logManagerImpl.Close.
    destruct x as [c [b|] hs]; cbn; [|reflexivity].
    unfold logManagerImpl.onBackend, PkgLogger.logManagerImpl.onBackend.
    change (PkgLogger.Backend.Close b) with (Backend.Close b).
    destruct (Backend.Close b) as [r b'|b']; reflexivity.
  - intros x h. reflexivity.
  - intros b c a a' l d. unfold PkgLogger.logManagerImpl.NewLogManager. cbn.
    destruct (if (b =? BackendFile)%string then _ else _) as [b0|]; [|reflexivity].
    destruct (PkgLogger.Backend.Init c b0) as [[err|] b']; reflexivity.
Qed.

End PkgProps.
